(** * LinkedIn Connect: session handoff, credential vault and scraping pipelines

    A shallow embedding of the TypeScript sources
    [src/lib/encryption.ts], [src/app/api/linkedin/status/route.ts],
    [src/scripts/fetch-posts.ts] and [src/scripts/fetch-post-analytics.ts],
    followed by the properties established about them.

    - JavaScript strings are sequences of UTF-16 code units; Node buffers
      are byte lists.
    - The cipher is AES-256 in CBC mode with PKCS#7 padding, written out
      from FIPS 197; the key (the result of [scryptSync]) and the bytes
      drawn by [randomBytes] are arguments.
    - The temporary directory is a finite map from paths to file
      contents; the account table is a list of rows.
    - A call that can throw returns a [result]; a run of a script returns
      what it did to the browser and what it wrote.
    - What the browser does (navigations, the feed elements of the
      snapshot, the data extracted from a page) is an argument of the
      run.

    - A count read by [parseInt] is the double nearest to the integer
      its digits write, Infinity included; [path.join] is the POSIX one.

    Outside the model: failures of the file system calls themselves, the
    log files and the upsert to the remote table that follows the write
    of [data/posts.json]. *)

From Stdlib Require Import List NArith Lia Bool Btauto.
From Stdlib Require Import Strings.String Strings.Ascii Strings.Byte.
From stdpp Require Import base option list strings gmap.
Import ListNotations.

Local Open Scope N_scope.

#[local] Set Warnings "-register-all".

(** ** Results of calls that may throw *)

Inductive result (E A : Type) : Type :=
| Ok (a : A)
| Throw (e : E).
Arguments Ok {E A} a.
Arguments Throw {E A} e.

(** ** JavaScript strings *)

Module Js.

(** A string is the list of its UTF-16 code units. *)
Abbreviation jsstring := (list N).

(** An ASCII literal of the source. *)
Definition lit (s : string) : jsstring :=
  List.map N_of_ascii (list_ascii_of_string s).

(** A literal between double quotes, as it stands in a JSON text. *)
Definition quoted (s : string) : jsstring := 34 :: lit s ++ [34].

Fixpoint startsWith (s p : jsstring) {struct p} : bool :=
  match p with
  | [] => true
  | a :: p' =>
      match s with
      | [] => false
      | b :: s' => (a =? b) && startsWith s' p'
      end
  end.

(** [String.prototype.includes] *)
Fixpoint includes (s sub : jsstring) : bool :=
  startsWith s sub ||
  match s with
  | [] => false
  | _ :: s' => includes s' sub
  end.

(** [String.prototype.split] with a non-empty separator: [skip] counts
    the code units of a matched separator that are still to be dropped,
    [cur] is the current part, reversed. *)
Fixpoint split_go (sep : jsstring) (skip : nat) (cur s : jsstring)
  : list jsstring :=
  match s with
  | [] => [rev cur]
  | c :: s' =>
      match skip with
      | S k => split_go sep k cur s'
      | O =>
          if startsWith s sep
          then rev cur :: split_go sep (length sep - 1) [] s'
          else split_go sep 0 (c :: cur) s'
      end
  end.

Definition split (s sep : jsstring) : list jsstring := split_go sep 0 [] s.

(** [Array.prototype.join] *)
Fixpoint join (parts : list jsstring) (sep : jsstring) : jsstring :=
  match parts with
  | [] => []
  | [p] => p
  | p :: rest => p ++ sep ++ join rest sep
  end.

(** White space and line terminators removed by [String.prototype.trim]. *)
Definition isSpace (c : N) : bool :=
  ((9 <=? c) && (c <=? 13)) || (c =? 32) || (c =? 160) || (c =? 5760)
  || ((8192 <=? c) && (c <=? 8202)) || (c =? 8232) || (c =? 8233)
  || (c =? 8239) || (c =? 8287) || (c =? 12288) || (c =? 65279).

Fixpoint trimStart (s : jsstring) : jsstring :=
  match s with
  | [] => []
  | c :: s' => if isSpace c then trimStart s' else s
  end.

Definition trim (s : jsstring) : jsstring :=
  rev (trimStart (rev (trimStart s))).

Definition isDigit (c : N) : bool := (48 <=? c) && (c <=? 57).

(** [s.replace(/[^0-9]/g, '')] *)
Definition keepDigits (s : jsstring) : jsstring := List.filter isDigit s.

(** A Number of the kind the scripts compute with: a non-negative
    integer that a double holds, or Infinity. *)
Inductive number : Type :=
| Finite (n : N)
| Infinity.

(** The double nearest to a non-negative integer, ties to the even
    significand: the integer itself below 2^53, Infinity from
    2^1024 - 2^970 on. *)
Definition toDouble (n : N) : number :=
  if n <? 2 ^ 53 then Finite n
  else
    let e := N.log2 n - 52 in
    let q := N.shiftr n e in
    let r := n - N.shiftl q e in
    let half := N.shiftl 1 (e - 1) in
    let q' := if (half <? r) || ((r =? half) && N.odd q) then q + 1 else q in
    let v := N.shiftl q' e in
    if v <? 2 ^ 1024 then Finite v else Infinity.

(** [x === 0] *)
Definition isZero (x : number) : bool :=
  match x with
  | Finite n => n =? 0
  | Infinity => false
  end.

(** [x > 0] *)
Definition gtZero (x : number) : bool :=
  match x with
  | Finite n => 0 <? n
  | Infinity => true
  end.


(** [parseInt(s, 10)] on a string of decimal digits: [None] is [NaN]
    (the empty string), otherwise the double nearest to the integer
    that the digits write. *)
Definition parseDigits (s : jsstring) : option number :=
  match s with
  | [] => None
  | _ => Some (toDouble (fold_left (fun acc c => 10 * acc + (c - 48)) s 0))
  end.

(** [parseInt(s.replace(/[^0-9]/g, ''), 10) || 0] *)
Definition digitsOrZero (s : jsstring) : number :=
  match parseDigits (keepDigits s) with
  | Some n => n
  | None => Finite 0
  end.

End Js.

(** ** Node buffers: hexadecimal and UTF-8 *)

Module Buf.
Import Js.

Abbreviation buffer := (list byte).

Definition byte_of_N (n : N) : byte :=
  match Byte.of_N n with
  | Some b => b
  | None => x00
  end.

Definition hexDigit (n : N) : N := if n <? 10 then 48 + n else 87 + n.

(** [buf.toString('hex')]: two lower-case digits per byte. *)
Definition toHex (b : buffer) : jsstring :=
  flat_map (fun x => [hexDigit (Byte.to_N x / 16); hexDigit (Byte.to_N x mod 16)]) b.

(** The value of a hexadecimal digit; no other character has one. *)
Definition digitVal (c : N) : option N :=
  if (48 <=? c) && (c <=? 57) then Some (c - 48)
  else if (97 <=? c) && (c <=? 102) then Some (c - 87)
  else if (65 <=? c) && (c <=? 70) then Some (c - 55)
  else None.

(** The decoder of [Buffer.from(s, 'hex')] reads of each code unit its
    low byte only: U+0161 counts as the digit [a]. *)
Definition hexVal (c : N) : option N := digitVal (c mod 256).

(** [Buffer.from(s, 'hex')]: decoding stops, without an error, at the
    first pair that is not two hexadecimal digits; an odd last character
    is dropped. *)
Fixpoint fromHex (s : jsstring) : buffer :=
  match s with
  | hi :: lo :: rest =>
      match hexVal hi, hexVal lo with
      | Some h, Some l => byte_of_N (16 * h + l) :: fromHex rest
      | _, _ => []
      end
  | _ => []
  end.

Definition isHigh (u : N) : bool := (55296 <=? u) && (u <=? 56319).
Definition isLow (u : N) : bool := (56320 <=? u) && (u <=? 57343).

Definition utf8_of_cp (cp : N) : buffer :=
  if cp <? 128 then [byte_of_N cp]
  else if cp <? 2048 then
    [byte_of_N (192 + cp / 64); byte_of_N (128 + cp mod 64)]
  else if cp <? 65536 then
    [byte_of_N (224 + cp / 4096); byte_of_N (128 + (cp / 64) mod 64);
     byte_of_N (128 + cp mod 64)]
  else
    [byte_of_N (240 + cp / 262144); byte_of_N (128 + (cp / 4096) mod 64);
     byte_of_N (128 + (cp / 64) mod 64); byte_of_N (128 + cp mod 64)].

(** U+FFFD, which replaces what has no encoding. *)
Definition replacement : buffer := [xef; xbf; xbd].

(** [Buffer.from(s, 'utf8')], the encoding [cipher.update] applies to a
    string: surrogate pairs are combined, an unpaired surrogate is
    written as U+FFFD. *)
Fixpoint utf8Write (s : jsstring) : buffer :=
  match s with
  | [] => []
  | u :: rest =>
      if isHigh u then
        match rest with
        | v :: rest' =>
            if isLow v
            then utf8_of_cp (65536 + (u - 55296) * 1024 + (v - 56320))
                   ++ utf8Write rest'
            else replacement ++ utf8Write rest
        | [] => replacement
        end
      else if isLow u then replacement ++ utf8Write rest
      else utf8_of_cp u ++ utf8Write rest
  end.

(** Decoder state inside a multi-byte sequence: the code point read so
    far, the number of continuation bytes still expected, and the bounds
    on the next byte. *)
Definition pending := (N * nat * N * N)%type.

Definition lead (b : N) : jsstring * option pending :=
  if b <=? 127 then ([b], None)
  else if (194 <=? b) && (b <=? 223) then ([], Some (b - 192, 1%nat, 128, 191))
  else if (224 <=? b) && (b <=? 239) then
    ([], Some (b - 224, 2%nat, if b =? 224 then 160 else 128,
               if b =? 237 then 159 else 191))
  else if (240 <=? b) && (b <=? 244) then
    ([], Some (b - 240, 3%nat, if b =? 240 then 144 else 128,
               if b =? 244 then 143 else 191))
  else ([65533], None).

Definition units_of_cp (cp : N) : jsstring :=
  if cp <? 65536 then [cp]
  else [55296 + (cp - 65536) / 1024; 56320 + (cp - 65536) mod 1024].

(** [buf.toString()] (UTF-8): never throws; each maximal ill-formed
    part becomes one U+FFFD. *)
Fixpoint utf8Slice (st : option pending) (bs : buffer) : jsstring :=
  match bs with
  | [] =>
      match st with
      | None => []
      | Some _ => [65533]
      end
  | x :: rest =>
      let b := Byte.to_N x in
      match st with
      | None => let '(out, st') := lead b in out ++ utf8Slice st' rest
      | Some (cp, k, lo, hi) =>
          if (lo <=? b) && (b <=? hi) then
            let cp' := cp * 64 + (b - 128) in
            match k with
            | S (S k') => utf8Slice (Some (cp', S k', 128, 191)) rest
            | _ => units_of_cp cp' ++ utf8Slice None rest
            end
          else
            let '(out, st') := lead b in
            65533 :: out ++ utf8Slice st' rest
      end
  end.

Definition toString (b : buffer) : jsstring := utf8Slice None b.

(** Well-formed UTF-16: every code unit is below 2^16, every high
    surrogate is followed by a low one and no low surrogate stands
    alone. *)
Fixpoint wellFormed (s : jsstring) : bool :=
  match s with
  | [] => true
  | u :: rest =>
      if isHigh u then
        match rest with
        | v :: rest' => isLow v && wellFormed rest'
        | [] => false
        end
      else negb (isLow u) && (u <? 65536) && wellFormed rest
  end.

(** A Unicode scalar value: a code point that is no surrogate. *)
Definition scalar (cp : N) : Prop :=
  cp < 55296 \/ (57344 <= cp /\ cp < 1114112).

Definition isHexDigit (c : N) : bool :=
  match digitVal c with
  | Some _ => true
  | None => false
  end.

(** A string that is hexadecimal throughout: an even number of
    hexadecimal digits. *)
Definition validHex (s : jsstring) : bool :=
  forallb isHexDigit s && Nat.even (length s).

End Buf.

(** ** AES-256 in CBC mode with PKCS#7 padding (FIPS 197, SP 800-38A)

    What [crypto.createCipheriv('aes-256-cbc', key, iv)] and
    [crypto.createDecipheriv] compute. *)

Module Aes.
Import Buf.

Definition bits8 : Type :=
  (bool * (bool * (bool * (bool * (bool * (bool * (bool * bool)))))))%type.

Definition xor_bits (a b : bits8) : bits8 :=
  let '(a0, (a1, (a2, (a3, (a4, (a5, (a6, a7))))))) := a in
  let '(b0, (b1, (b2, (b3, (b4, (b5, (b6, b7))))))) := b in
  (xorb a0 b0, (xorb a1 b1, (xorb a2 b2, (xorb a3 b3,
   (xorb a4 b4, (xorb a5 b5, (xorb a6 b6, xorb a7 b7))))))).

(** Multiplication by x in GF(2^8) modulo x^8 + x^4 + x^3 + x + 1;
    the least significant bit comes first. *)
Definition xtime_bits (a : bits8) : bits8 :=
  let '(a0, (a1, (a2, (a3, (a4, (a5, (a6, a7))))))) := a in
  (a7, (xorb a0 a7, (a1, (xorb a2 a7, (xorb a3 a7, (a4, (a5, a6))))))).

Definition bxor (a b : byte) : byte :=
  Byte.of_bits (xor_bits (Byte.to_bits a) (Byte.to_bits b)).

Definition xtime (a : byte) : byte :=
  Byte.of_bits (xtime_bits (Byte.to_bits a)).

Definition mul2 (a : byte) : byte := xtime a.
Definition mul3 (a : byte) : byte := bxor (xtime a) a.
Definition mul9 (a : byte) : byte := bxor (xtime (xtime (xtime a))) a.
Definition mul11 (a : byte) : byte :=
  bxor (bxor (xtime (xtime (xtime a))) (xtime a)) a.
Definition mul13 (a : byte) : byte :=
  bxor (bxor (xtime (xtime (xtime a))) (xtime (xtime a))) a.
Definition mul14 (a : byte) : byte :=
  bxor (bxor (xtime (xtime (xtime a))) (xtime (xtime a))) (xtime a).

Definition sbox_table : list byte :=
 [
  x63; x7c; x77; x7b; xf2; x6b; x6f; xc5; x30; x01; x67; x2b; xfe; xd7; xab; x76;
  xca; x82; xc9; x7d; xfa; x59; x47; xf0; xad; xd4; xa2; xaf; x9c; xa4; x72; xc0;
  xb7; xfd; x93; x26; x36; x3f; xf7; xcc; x34; xa5; xe5; xf1; x71; xd8; x31; x15;
  x04; xc7; x23; xc3; x18; x96; x05; x9a; x07; x12; x80; xe2; xeb; x27; xb2; x75;
  x09; x83; x2c; x1a; x1b; x6e; x5a; xa0; x52; x3b; xd6; xb3; x29; xe3; x2f; x84;
  x53; xd1; x00; xed; x20; xfc; xb1; x5b; x6a; xcb; xbe; x39; x4a; x4c; x58; xcf;
  xd0; xef; xaa; xfb; x43; x4d; x33; x85; x45; xf9; x02; x7f; x50; x3c; x9f; xa8;
  x51; xa3; x40; x8f; x92; x9d; x38; xf5; xbc; xb6; xda; x21; x10; xff; xf3; xd2;
  xcd; x0c; x13; xec; x5f; x97; x44; x17; xc4; xa7; x7e; x3d; x64; x5d; x19; x73;
  x60; x81; x4f; xdc; x22; x2a; x90; x88; x46; xee; xb8; x14; xde; x5e; x0b; xdb;
  xe0; x32; x3a; x0a; x49; x06; x24; x5c; xc2; xd3; xac; x62; x91; x95; xe4; x79;
  xe7; xc8; x37; x6d; x8d; xd5; x4e; xa9; x6c; x56; xf4; xea; x65; x7a; xae; x08;
  xba; x78; x25; x2e; x1c; xa6; xb4; xc6; xe8; xdd; x74; x1f; x4b; xbd; x8b; x8a;
  x70; x3e; xb5; x66; x48; x03; xf6; x0e; x61; x35; x57; xb9; x86; xc1; x1d; x9e;
  xe1; xf8; x98; x11; x69; xd9; x8e; x94; x9b; x1e; x87; xe9; xce; x55; x28; xdf;
  x8c; xa1; x89; x0d; xbf; xe6; x42; x68; x41; x99; x2d; x0f; xb0; x54; xbb; x16
 ].

Definition inv_sbox_table : list byte :=
 [
  x52; x09; x6a; xd5; x30; x36; xa5; x38; xbf; x40; xa3; x9e; x81; xf3; xd7; xfb;
  x7c; xe3; x39; x82; x9b; x2f; xff; x87; x34; x8e; x43; x44; xc4; xde; xe9; xcb;
  x54; x7b; x94; x32; xa6; xc2; x23; x3d; xee; x4c; x95; x0b; x42; xfa; xc3; x4e;
  x08; x2e; xa1; x66; x28; xd9; x24; xb2; x76; x5b; xa2; x49; x6d; x8b; xd1; x25;
  x72; xf8; xf6; x64; x86; x68; x98; x16; xd4; xa4; x5c; xcc; x5d; x65; xb6; x92;
  x6c; x70; x48; x50; xfd; xed; xb9; xda; x5e; x15; x46; x57; xa7; x8d; x9d; x84;
  x90; xd8; xab; x00; x8c; xbc; xd3; x0a; xf7; xe4; x58; x05; xb8; xb3; x45; x06;
  xd0; x2c; x1e; x8f; xca; x3f; x0f; x02; xc1; xaf; xbd; x03; x01; x13; x8a; x6b;
  x3a; x91; x11; x41; x4f; x67; xdc; xea; x97; xf2; xcf; xce; xf0; xb4; xe6; x73;
  x96; xac; x74; x22; xe7; xad; x35; x85; xe2; xf9; x37; xe8; x1c; x75; xdf; x6e;
  x47; xf1; x1a; x71; x1d; x29; xc5; x89; x6f; xb7; x62; x0e; xaa; x18; xbe; x1b;
  xfc; x56; x3e; x4b; xc6; xd2; x79; x20; x9a; xdb; xc0; xfe; x78; xcd; x5a; xf4;
  x1f; xdd; xa8; x33; x88; x07; xc7; x31; xb1; x12; x10; x59; x27; x80; xec; x5f;
  x60; x51; x7f; xa9; x19; xb5; x4a; x0d; x2d; xe5; x7a; x9f; x93; xc9; x9c; xef;
  xa0; xe0; x3b; x4d; xae; x2a; xf5; xb0; xc8; xeb; xbb; x3c; x83; x53; x99; x61;
  x17; x2b; x04; x7e; xba; x77; xd6; x26; xe1; x69; x14; x63; x55; x21; x0c; x7d
 ].

Definition sbox (b : byte) : byte := nth (Byte.to_nat b) sbox_table x00.
Definition inv_sbox (b : byte) : byte := nth (Byte.to_nat b) inv_sbox_table x00.

(** A word is a column of the state; the state is its four columns. *)
Definition word : Type := (byte * byte * byte * byte)%type.
Definition state : Type := (word * word * word * word)%type.

Definition mapWord (f : byte -> byte) (w : word) : word :=
  let '(a, b, c, d) := w in (f a, f b, f c, f d).

Definition xorWord (v w : word) : word :=
  let '(a, b, c, d) := v in
  let '(a', b', c', d') := w in
  (bxor a a', bxor b b', bxor c c', bxor d d').

Definition mapState (f : word -> word) (s : state) : state :=
  let '(a, b, c, d) := s in (f a, f b, f c, f d).

Definition subBytes : state -> state := mapState (mapWord sbox).
Definition invSubBytes : state -> state := mapState (mapWord inv_sbox).

Definition shiftRows (s : state) : state :=
  let '((a0, a1, a2, a3), (b0, b1, b2, b3),
        (c0, c1, c2, c3), (d0, d1, d2, d3)) := s in
  ((a0, b1, c2, d3), (b0, c1, d2, a3), (c0, d1, a2, b3), (d0, a1, b2, c3)).

Definition invShiftRows (s : state) : state :=
  let '((a0, a1, a2, a3), (b0, b1, b2, b3),
        (c0, c1, c2, c3), (d0, d1, d2, d3)) := s in
  ((a0, d1, c2, b3), (b0, a1, d2, c3), (c0, b1, a2, d3), (d0, c1, b2, a3)).

Definition mixColumn (w : word) : word :=
  let '(a, b, c, d) := w in
  (bxor (bxor (bxor (mul2 a) (mul3 b)) c) d,
   bxor (bxor (bxor a (mul2 b)) (mul3 c)) d,
   bxor (bxor (bxor a b) (mul2 c)) (mul3 d),
   bxor (bxor (bxor (mul3 a) b) c) (mul2 d)).

Definition invMixColumn (w : word) : word :=
  let '(a, b, c, d) := w in
  (bxor (bxor (bxor (mul14 a) (mul11 b)) (mul13 c)) (mul9 d),
   bxor (bxor (bxor (mul9 a) (mul14 b)) (mul11 c)) (mul13 d),
   bxor (bxor (bxor (mul13 a) (mul9 b)) (mul14 c)) (mul11 d),
   bxor (bxor (bxor (mul11 a) (mul13 b)) (mul9 c)) (mul14 d)).

Definition mixColumns : state -> state := mapState mixColumn.
Definition invMixColumns : state -> state := mapState invMixColumn.

Definition xorState (s k : state) : state :=
  let '(a, b, c, d) := s in
  let '(a', b', c', d') := k in
  (xorWord a a', xorWord b b', xorWord c c', xorWord d d').

Definition addRoundKey (k s : state) : state := xorState s k.

(** Key schedule for a 256-bit key: 8 key words, 60 words in all. *)
Definition zeroWord : word := (x00, x00, x00, x00).

Definition rotWord (w : word) : word :=
  let '(a, b, c, d) := w in (b, c, d, a).

Definition rcon (i : nat) : byte :=
  nth i [x01; x02; x04; x08; x10; x20; x40] x00.

Fixpoint words_of (k : buffer) : list word :=
  match k with
  | a :: b :: c :: d :: rest => (a, b, c, d) :: words_of rest
  | _ => []
  end.

Fixpoint expand (n i : nat) (w : list word) : list word :=
  match n with
  | O => w
  | S n' =>
      let temp := List.last w zeroWord in
      let temp' :=
        if (i mod 8 =? 0)%nat
        then xorWord (mapWord sbox (rotWord temp)) (rcon (i / 8 - 1), x00, x00, x00)
        else if (i mod 8 =? 4)%nat then mapWord sbox temp
        else temp in
      expand n' (S i) (w ++ [xorWord (nth (i - 8) w zeroWord) temp'])
  end.

Fixpoint roundKeys (w : list word) : list state :=
  match w with
  | a :: b :: c :: d :: rest => (a, b, c, d) :: roundKeys rest
  | _ => []
  end.

Definition keyExpansion (key : buffer) : list state :=
  roundKeys (expand 52 8 (words_of key)).

Definition round (k s : state) : state :=
  addRoundKey k (mixColumns (shiftRows (subBytes s))).

Definition finalRound (k s : state) : state :=
  addRoundKey k (shiftRows (subBytes s)).

Definition invRound (k s : state) : state :=
  invSubBytes (invShiftRows (invMixColumns (addRoundKey k s))).

Definition invFinalRound (k s : state) : state :=
  invSubBytes (invShiftRows (addRoundKey k s)).

Definition cipher (rks : list state) (s : state) : state :=
  match rks with
  | [] => s
  | k0 :: rest =>
      finalRound (List.last rest k0)
        (fold_left (fun st k => round k st) (List.removelast rest)
           (addRoundKey k0 s))
  end.

Definition invCipher (rks : list state) (s : state) : state :=
  match rks with
  | [] => s
  | k0 :: rest =>
      addRoundKey k0
        (fold_right invRound (invFinalRound (List.last rest k0) s)
           (List.removelast rest))
  end.

(** Blocks of sixteen bytes, column by column. *)
Fixpoint blocks_of (l : buffer) : list state :=
  match l with
  | a0 :: a1 :: a2 :: a3 :: b0 :: b1 :: b2 :: b3
    :: c0 :: c1 :: c2 :: c3 :: d0 :: d1 :: d2 :: d3 :: rest =>
      ((a0, a1, a2, a3), (b0, b1, b2, b3),
       (c0, c1, c2, c3), (d0, d1, d2, d3)) :: blocks_of rest
  | _ => []
  end.

Definition bytes_of_block (s : state) : buffer :=
  let '((a0, a1, a2, a3), (b0, b1, b2, b3),
        (c0, c1, c2, c3), (d0, d1, d2, d3)) := s in
  [a0; a1; a2; a3; b0; b1; b2; b3; c0; c1; c2; c3; d0; d1; d2; d3].

Definition bytes_of (bl : list state) : buffer := flat_map bytes_of_block bl.

Definition zeroState : state := (zeroWord, zeroWord, zeroWord, zeroWord).

Definition block_of (l : buffer) : state := hd zeroState (blocks_of l).

Fixpoint cbcEncrypt (rks : list state) (prev : state) (bl : list state)
  : list state :=
  match bl with
  | [] => []
  | p :: rest =>
      let c := cipher rks (xorState p prev) in
      c :: cbcEncrypt rks c rest
  end.

Fixpoint cbcDecrypt (rks : list state) (prev : state) (bl : list state)
  : list state :=
  match bl with
  | [] => []
  | c :: rest => xorState (invCipher rks c) prev :: cbcDecrypt rks c rest
  end.

(** PKCS#7: between 1 and 16 bytes are appended, each holding their
    number. *)
Definition pad (l : buffer) : buffer :=
  let n := (16 - length l mod 16)%nat in
  l ++ repeat (byte_of_N (N.of_nat n)) n.

(** The padding check of the last block: the last byte [n] must be in
    1..16 and the last [n] bytes must all be [n]. *)
Definition unpad (l : buffer) : option buffer :=
  let n := Byte.to_nat (List.last l x00) in
  if ((1 <=? n) && (n <=? 16) && (n <=? length l))%nat
     && forallb (Byte.eqb (List.last l x00)) (skipn (length l - n) l)
  then Some (firstn (length l - n) l)
  else None.

End Aes.

(** ** [src/lib/encryption.ts] *)

Module Encryption.
Import Js Buf Aes.

Definition ALGORITHM : jsstring := lit "aes-256-cbc".
Definition IV_LENGTH : nat := 16.

Inductive error : Type :=
| InvalidFormat          (* new Error('Invalid encrypted text format') *)
| InvalidArgType         (* update() called with something that is no string *)
| InvalidKeyLength       (* createCipheriv, createDecipheriv *)
| InvalidIV              (* createCipheriv, createDecipheriv *)
| WrongFinalBlockLength  (* decipher.final() *)
| BadDecrypt.            (* decipher.final(): padding check *)

(** [crypto.createCipheriv(ALGORITHM, key, iv)] and
    [crypto.createDecipheriv(ALGORITHM, key, iv)] check the two lengths. *)
Definition createCipheriv (key iv : buffer) : result error (list state * state) :=
  if negb (length key =? 32)%nat then Throw InvalidKeyLength
  else if negb (length iv =? IV_LENGTH)%nat then Throw InvalidIV
  else Ok (keyExpansion key, block_of iv).

Definition createDecipheriv (key iv : buffer) : result error (list state * state) :=
  createCipheriv key iv.

(** [Buffer.concat([cipher.update(data), cipher.final()])] *)
Definition cipherRun (c : list state * state) (data : buffer) : buffer :=
  let '(rks, iv) := c in
  bytes_of (cbcEncrypt rks iv (blocks_of (pad data))).

(** [Buffer.concat([decipher.update(data), decipher.final()])]:
    [final] throws on an empty or partial last block and on bad padding. *)
Definition decipherRun (d : list state * state) (data : buffer)
  : result error buffer :=
  let '(rks, iv) := d in
  if (length data =? 0)%nat || negb (length data mod 16 =? 0)%nat
  then Throw WrongFinalBlockLength
  else
    match unpad (bytes_of (cbcDecrypt rks iv (blocks_of data))) with
    | Some p => Ok p
    | None => Throw BadDecrypt
    end.

(** [key] is the module constant [crypto.scryptSync(SECRET_KEY, 'salt', 32)];
    [iv] is what [crypto.randomBytes(IV_LENGTH)] returns in this call. *)
Definition encrypt (key iv : buffer) (text : jsstring) : result error jsstring :=
  match createCipheriv key iv with
  | Throw e => Throw e
  | Ok cipher =>
      let encrypted := cipherRun cipher (utf8Write text) in
      Ok (toHex iv ++ lit ":" ++ toHex encrypted)
  end.

Definition decrypt (key : buffer) (text : jsstring) : result error jsstring :=
  let textParts := split text (lit ":") in
  match textParts with
  | [] => Throw InvalidFormat
  | [] :: _ => Throw InvalidFormat
  | ivPart :: textParts =>
      let iv := fromHex ivPart in
      let encryptedText := fromHex (join textParts (lit ":")) in
      match createDecipheriv key iv with
      | Throw e => Throw e
      | Ok decipher =>
          match decipherRun decipher encryptedText with
          | Throw e => Throw e
          | Ok decrypted => Ok (toString decrypted)
          end
      end
  end.

(** The two halves of a record around its first delimiter; [None]
    when there is no delimiter. *)
Definition halves (text : jsstring) : option (jsstring * jsstring) :=
  match split text (lit ":") with
  | ivPart :: (_ :: _) as rest => Some (ivPart, join rest (lit ":"))
  | _ => None
  end.

(** The two-part shape of the specification: a delimiter, and
    hexadecimal on both sides of it. *)
Definition wellShaped (text : jsstring) : bool :=
  match halves text with
  | Some (ivPart, payload) => validHex ivPart && validHex payload
  | None => false
  end.

End Encryption.

(** ** [JSON.parse] *)

Module Json.
Import Js.

Inductive value : Type :=
| Null
| Bool (b : bool)
| Number (lexeme : jsstring)
| String (s : jsstring)
| Array (items : list value)
| Object (members : list (jsstring * value)).

Definition isWs (c : N) : bool :=
  (c =? 32) || (c =? 9) || (c =? 10) || (c =? 13).

Fixpoint skipWs (s : jsstring) : jsstring :=
  match s with
  | [] => []
  | c :: s' => if isWs c then skipWs s' else s
  end.

Definition hex4 (a b c d : N) : option N :=
  match Buf.digitVal a, Buf.digitVal b, Buf.digitVal c, Buf.digitVal d with
  | Some a, Some b, Some c, Some d => Some (((a * 16 + b) * 16 + c) * 16 + d)
  | _, _, _, _ => None
  end.

Definition escape (c : N) : option N :=
  if c =? 34 then Some 34          (* quotation mark *)
  else if c =? 92 then Some 92     (* reverse solidus *)
  else if c =? 47 then Some 47     (* solidus *)
  else if c =? 98 then Some 8      (* b: backspace *)
  else if c =? 102 then Some 12    (* f: form feed *)
  else if c =? 110 then Some 10    (* n: line feed *)
  else if c =? 114 then Some 13    (* r: carriage return *)
  else if c =? 116 then Some 9     (* t: tab *)
  else None.

(** The characters of a string after its opening quote. *)
Fixpoint parseChars (acc s : jsstring) : option (jsstring * jsstring) :=
  match s with
  | [] => None
  | c :: s1 =>
      if c =? 34 then Some (rev acc, s1)
      else if c =? 92 then
        match s1 with
        | [] => None
        | e :: s2 =>
            if e =? 117 then
              match s2 with
              | h1 :: h2 :: h3 :: h4 :: s3 =>
                  match hex4 h1 h2 h3 h4 with
                  | Some u => parseChars (u :: acc) s3
                  | None => None
                  end
              | _ => None
              end
            else
              match escape e with
              | Some u => parseChars (u :: acc) s2
              | None => None
              end
        end
      else if c <? 32 then None
      else parseChars (c :: acc) s1
  end.

Fixpoint spanDigits (s : jsstring) : jsstring * jsstring :=
  match s with
  | c :: s' =>
      if isDigit c
      then let '(d, r) := spanDigits s' in (c :: d, r)
      else ([], s)
  | [] => ([], [])
  end.

(** An optional minus sign, an integer part without a leading zero,
    an optional fraction and an optional exponent; the lexeme is kept. *)
Definition parseNumber (s : jsstring) : option (jsstring * jsstring) :=
  let '(sign, s1) :=
    match s with
    | 45 :: r => ([45], r)
    | _ => ([], s)
    end in
  let '(int, s2) := spanDigits s1 in
  match int with
  | [] => None
  | d :: ds =>
      if (d =? 48) && negb (length ds =? 0)%nat then None
      else
        let frac :=
          match s2 with
          | 46 :: r =>
              let '(f, r') := spanDigits r in
              match f with
              | [] => None
              | _ => Some (46 :: f, r')
              end
          | _ => Some ([], s2)
          end in
        match frac with
        | None => None
        | Some (f, s3) =>
            let exp :=
              match s3 with
              | e :: r =>
                  if (e =? 101) || (e =? 69) then
                    let '(sg, r1) :=
                      match r with
                      | c :: r0 =>
                          if (c =? 43) || (c =? 45) then ([c], r0) else ([], r)
                      | [] => ([], r)
                      end in
                    let '(x, r2) := spanDigits r1 in
                    match x with
                    | [] => None
                    | _ => Some (e :: sg ++ x, r2)
                    end
                  else Some ([], s3)
              | [] => Some ([], s3)
              end in
            match exp with
            | None => None
            | Some (x, s4) => Some (sign ++ int ++ f ++ x, s4)
            end
        end
  end.

Definition keyword (s : jsstring) : option (value * jsstring) :=
  if startsWith s (lit "true") then Some (Bool true, skipn 4 s)
  else if startsWith s (lit "false") then Some (Bool false, skipn 5 s)
  else if startsWith s (lit "null") then Some (Null, skipn 4 s)
  else None.

Fixpoint parseValue (fuel : nat) (s : jsstring) : option (value * jsstring) :=
  match fuel with
  | O => None
  | S fuel =>
      match skipWs s with
      | [] => None
      | c :: s1 =>
          if c =? 123 then
            match skipWs s1 with
            | 125 :: r => Some (Object [], r)
            | _ => parseMembers fuel [] s1
            end
          else if c =? 91 then
            match skipWs s1 with
            | 93 :: r => Some (Array [], r)
            | _ => parseElements fuel [] s1
            end
          else if c =? 34 then
            match parseChars [] s1 with
            | Some (str, r) => Some (String str, r)
            | None => None
            end
          else if (c =? 45) || isDigit c then
            match parseNumber (c :: s1) with
            | Some (n, r) => Some (Number n, r)
            | None => None
            end
          else keyword (c :: s1)
      end
  end
with parseElements (fuel : nat) (acc : list value) (s : jsstring)
  : option (value * jsstring) :=
  match fuel with
  | O => None
  | S fuel =>
      match parseValue fuel s with
      | None => None
      | Some (v, r) =>
          match skipWs r with
          | 44 :: r' => parseElements fuel (v :: acc) r'
          | 93 :: r' => Some (Array (rev (v :: acc)), r')
          | _ => None
          end
      end
  end
with parseMembers (fuel : nat) (acc : list (jsstring * value)) (s : jsstring)
  : option (value * jsstring) :=
  match fuel with
  | O => None
  | S fuel =>
      match skipWs s with
      | 34 :: r =>
          match parseChars [] r with
          | None => None
          | Some (k, r1) =>
              match skipWs r1 with
              | 58 :: r2 =>
                  match parseValue fuel r2 with
                  | None => None
                  | Some (v, r3) =>
                      match skipWs r3 with
                      | 44 :: r4 => parseMembers fuel ((k, v) :: acc) r4
                      | 125 :: r4 => Some (Object (rev ((k, v) :: acc)), r4)
                      | _ => None
                      end
                  end
              | _ => None
              end
          end
      | _ => None
      end
  end.

(** [JSON.parse(text)]: [None] stands for the [SyntaxError]. *)
Definition parse (text : jsstring) : option value :=
  match parseValue (2 * length text + 2) text with
  | Some (v, rest) =>
      match skipWs rest with
      | [] => Some v
      | _ => None
      end
  | None => None
  end.

(** The last member named [k]; a later duplicate overrides an earlier one. *)
Fixpoint lookup (k : jsstring) (members : list (jsstring * value))
  : option value :=
  match members with
  | [] => None
  | (k', v) :: rest =>
      match lookup k rest with
      | Some v' => Some v'
      | None => if decide (k = k') then Some v else None
      end
  end.

(** [v.k] for a name [k] that no string or array has of its own: reading
    a property of [null] throws a [TypeError], a missing property is
    [undefined]. *)
Definition getProp (v : value) (k : jsstring) : result unit (option value) :=
  match v with
  | Null => Throw tt
  | Object members => Ok (lookup k members)
  | _ => Ok None
  end.

End Json.

(** ** Paths *)

Module Path.
Import Js.

(** One segment met by [normalizeString]; [res] holds the segments kept
    so far, the last one first. An empty segment and [.] are dropped;
    [..] removes the segment before it, and is itself kept only where
    the path may rise above its start and there is nothing to remove. *)
Definition keep (allowAboveRoot : bool) (res : list jsstring)
    (segment : jsstring) : list jsstring :=
  if bool_decide (segment = []) || bool_decide (segment = lit ".") then res
  else if bool_decide (segment = lit "..") then
    match res with
    | top :: rest =>
        if bool_decide (top = lit "..")
        then if allowAboveRoot then segment :: res else res
        else rest
    | [] => if allowAboveRoot then [segment] else []
    end
  else segment :: res.

Definition normalizeString (path : jsstring) (allowAboveRoot : bool)
  : jsstring :=
  Js.join (rev (fold_left (keep allowAboveRoot) (split path (lit "/")) []))
    (lit "/").

(** [path.posix.normalize] *)
Definition normalize (path : jsstring) : jsstring :=
  match path with
  | [] => lit "."
  | c :: _ =>
      let isAbsolute := c =? 47 in
      let trailingSeparator := List.last path 0 =? 47 in
      match normalizeString path (negb isAbsolute) with
      | [] =>
          if isAbsolute then lit "/"
          else if trailingSeparator then lit "./" else lit "."
      | p =>
          (if isAbsolute then lit "/" else [])
            ++ p ++ (if trailingSeparator then lit "/" else [])
      end
  end.

(** [path.posix.join] of two arguments: the arguments that are not
    empty, joined by a slash and normalised. *)
Definition join (a b : jsstring) : jsstring :=
  match a, b with
  | [], [] => lit "."
  | [], _ => normalize b
  | _, [] => normalize a
  | _, _ => normalize (a ++ lit "/" ++ b)
  end.

End Path.

(** ** [src/app/api/linkedin/status/route.ts] *)

Module Status.
Import Js Buf.

(** A row of [linkedin_accounts]. *)
Record Account : Type := {
  id : jsstring;
  user_id : jsstring;
  li_at_encrypted : jsstring;
  created_at : N
}.

(** The temporary directory, as a map from paths to file contents, and
    the account table. *)
Record world : Type := {
  tmp : gmap jsstring jsstring;
  accounts : list Account
}.

(** What one request draws from outside: the random IV, the random
    UUID and the clock. *)
Record entropy : Type := {
  iv : buffer;
  uuid : jsstring;
  now : N
}.

Inductive response : Type :=
| BadRequest                     (* { error: 'Session ID is required' }, 400 *)
| Waiting                        (* { status: 'waiting' } *)
| Connected                      (* { status: 'connected' } *)
| Echo (result : Json.value)     (* the parsed artifact itself *)
| Error500 (message : jsstring). (* { status: 'error', message }, 500 *)

(** [path.join(os.tmpdir(), `linkedin-session-${sessionId}.json`)] *)
Definition resultPath (tmpdir sessionId : jsstring) : jsstring :=
  Path.join tmpdir (lit "linkedin-session-" ++ sessionId ++ lit ".json").

(** [insertQuery.run(id, userId, li_at_encrypted)]: [id] is the primary
    key, so a row whose id is taken is rejected. *)
Definition insert (row : Account) (table : list Account)
  : result unit (list Account) :=
  if existsb (fun r => bool_decide (id r = id row)) table
  then Throw tt
  else Ok (table ++ [row]).

(** [v === s] for a string literal [s]. *)
Definition strictEq (v : option Json.value) (s : jsstring) : bool :=
  match v with
  | Some (Json.String s') => bool_decide (s' = s)
  | _ => false
  end.

(** The inner [try] block: encrypt the cookie and store the account. *)
Definition save (key : buffer) (rnd : entropy) (cookie : option Json.value)
    (table : list Account) : result unit (list Account) :=
  match cookie with
  | Some (Json.String c) =>
      match Encryption.encrypt key (iv rnd) c with
      | Throw _ => Throw tt
      | Ok li_at_encrypted =>
          insert {| id := uuid rnd; user_id := lit "demo-user";
                    li_at_encrypted := li_at_encrypted;
                    created_at := now rnd |} table
      end
  | _ => Throw tt
  end.

Definition GET (key : buffer) (tmpdir : jsstring) (rnd : entropy)
    (sessionId : option jsstring) (w : world) : response * world :=
  match sessionId with
  | None | Some [] => (BadRequest, w)
  | Some sid =>
      let path := resultPath tmpdir sid in
      match tmp w !! path with
      | None => (Waiting, w)
      | Some data =>
          match Json.parse data with
          | None => (Error500 (lit "Failed to read session data"), w)
          | Some result =>
              (* Cleanup *)
              let w' := {| tmp := delete path (tmp w); accounts := accounts w |} in
              match Json.getProp result (lit "status") with
              | Throw _ => (Error500 (lit "Failed to read session data"), w')
              | Ok status =>
                  if strictEq status (lit "success")
                  then
                    match Json.getProp result (lit "cookie") with
                    | Throw _ => (Error500 (lit "Failed to read session data"), w')
                    | Ok cookie =>
                        match save key rnd cookie (accounts w') with
                        | Ok table =>
                            (Connected, {| tmp := tmp w'; accounts := table |})
                        | Throw _ =>
                            (Error500 (lit "Failed to save account"), w')
                        end
                    end
                  else (Echo result, w')
              end
          end
      end
  end.

(** A sequence of requests, each with its own entropy. *)
Fixpoint polls (key : buffer) (tmpdir : jsstring)
    (reqs : list (entropy * option jsstring)) (w : world)
  : list response * world :=
  match reqs with
  | [] => ([], w)
  | (rnd, sid) :: rest =>
      let '(r, w1) := GET key tmpdir rnd sid w in
      let '(rs, w2) := polls key tmpdir rest w1 in
      (r :: rs, w2)
  end.

(** The same session polled again, once per element of [rnds]. *)
Definition again (sid : jsstring) (rnds : list entropy)
  : list (entropy * option jsstring) :=
  List.map (fun rnd => (rnd, Some sid)) rnds.

End Status.
(** ** [src/scripts/fetch-posts.ts] *)

Module FetchPosts.
Import Js Buf.

(** What the snapshot reads off one [div.feed-shared-update-v2]:
    the [data-urn] attribute, the [href] of every [a[href]] in document
    order, and, when there is an actor sub-description, the text of its
    aria-hidden span (if any) and its own text. *)
Record FeedElement : Type := {
  data_urn : option jsstring;
  hrefs : list jsstring;
  subDescription : option (option jsstring * jsstring)
}.

(** An entry of [allExtracted]. *)
Module Raw.
Record t : Type := { postUrn : jsstring; postUrl : jsstring; timeText : jsstring }.
End Raw.

(** An entry of [uniquePosts] and of [data/posts.json]. *)
Module Post.
Record t : Type := { postUrn : jsstring; postUrl : jsstring; posted_at : jsstring }.
End Post.

Definition bullet : jsstring := [8226].

Definition isPostLink (href : jsstring) : bool :=
  includes href (lit "/feed/update/urn:li:activity:") || includes href (lit "/posts/").

(** The body of [updates.forEach]: [None] is the early [return]. *)
Definition extractOne (update : FeedElement) : option Raw.t :=
  let urn := default [] (data_urn update) in
  match urn with
  | [] => None
  | _ =>
      let postUrl :=
        match List.find isPostLink (hrefs update) with
        | Some href => hd [] (split href (lit "?"))
        | None => []
        end in
      let postUrl :=
        match postUrl with
        | [] => lit "https://www.linkedin.com/feed/update/" ++ urn ++ lit "/"
        | _ => postUrl
        end in
      let timeText :=
        match subDescription update with
        | Some (ariaHidden, own) =>
            trim (hd [] (split (trim (default own ariaHidden)) bullet))
        | None => []
        end in
      Some {| Raw.postUrn := urn; Raw.postUrl := postUrl; Raw.timeText := timeText |}
  end.

(** Phase 2: the snapshot, in document order. *)
Definition extractAll (updates : list FeedElement) : list Raw.t :=
  omap extractOne updates.

(** [uniquePosts] is a [Map], which keeps its keys in insertion order. *)
Definition has (m : list (jsstring * Post.t)) (k : jsstring) : bool :=
  existsb (fun e => bool_decide (fst e = k)) m.

Definition toPost (item : Raw.t) : Post.t :=
  {| Post.postUrn := Raw.postUrn item;
     Post.postUrl := Raw.postUrl item;
     Post.posted_at := Raw.timeText item |}.

Definition entryOf (x : Raw.t) : jsstring * Post.t := (Raw.postUrn x, toPost x).

(** One turn of the Phase 3 loop, on [uniquePosts] and [duplicates]. *)
Definition dedupStep (st : list (jsstring * Post.t) * nat) (item : Raw.t)
  : list (jsstring * Post.t) * nat :=
  let '(uniquePosts, duplicates) := st in
  match Raw.postUrn item with
  | [] => st
  | _ =>
      if has uniquePosts (Raw.postUrn item)
      then (uniquePosts, S duplicates)
      else (uniquePosts ++ [entryOf item], duplicates)
  end.

Definition dedup (allExtracted : list Raw.t) : list (jsstring * Post.t) * nat :=
  fold_left dedupStep allExtracted ([], 0%nat).

(** [Array.from(uniquePosts.values()).slice(0, 30)] *)
Definition allPosts (allExtracted : list Raw.t) : list Post.t :=
  firstn 30 (List.map snd (fst (dedup allExtracted))).

(** The specification's wording of Phase 3, for comparison with
    [dedup]: of the items sharing a urn only the first one is kept, and
    the kept items stay in first-seen order. *)
Fixpoint dedupSpec (items : list Raw.t) : list Raw.t :=
  match items with
  | [] => []
  | x :: rest =>
      x :: List.filter
             (fun y => negb (bool_decide (Raw.postUrn y = Raw.postUrn x)))
             (dedupSpec rest)
  end.

Definition TOTAL_SCROLLS : nat := 50.

(** What the run asks of the browser, in order. *)
Inductive action : Type :=
| Launch
| Goto (url : jsstring)
| WaitForSelector
| Scroll
| Count
| Snapshot
| Close.

(** How the browser answers in one run: whether it launches, what the
    two navigations throw, the URL the feed navigation lands on, and the
    feed elements present once scrolling is over. *)
Record Browser : Type := {
  launches : bool;
  feedGoto : result jsstring unit;
  feedUrl : jsstring;
  activityGoto : result jsstring unit;
  feed : result jsstring (list FeedElement)
}.

Definition feedPage : jsstring := lit "https://www.linkedin.com/feed/".
Definition activityUrl : jsstring :=
  lit "https://www.linkedin.com/in/me/recent-activity/all/".

Definition redirectLoop (e : jsstring) : bool :=
  includes e (lit "ERR_TOO_MANY_REDIRECTS") || includes e (lit "ERR_ABORTED").

Definition loggedOut (currentUrl : jsstring) : bool :=
  includes currentUrl (lit "login") || includes currentUrl (lit "guest").

(** The run, from the account query to the end of Phase 4. [account] is
    the row the query returns, [dataFile] the content of
    [data/posts.json], [None] when the file is absent. The result is
    the trace of browser actions and the file afterwards. Phase 5 reads
    [allPosts] and leaves the file as it is. *)
Definition fetchPosts (key : buffer) (account : option Status.Account)
    (b : Browser) (dataFile : option (list Post.t))
  : list action * option (list Post.t) :=
  match account with
  | None => ([], dataFile)
  | Some account =>
      match Encryption.decrypt key (Status.li_at_encrypted account) with
      | Throw _ => ([], dataFile)
      | Ok li_at =>
          if negb (launches b) then ([Launch], dataFile)
          else
            let invalid :=
              match feedGoto b with
              | Throw e => redirectLoop e
              | Ok _ => false
              end in
            if invalid then ([Launch; Goto feedPage; Close], dataFile)
            else if loggedOut (feedUrl b)
            then ([Launch; Goto feedPage; Close], dataFile)
            else
              match activityGoto b with
              | Throw _ => ([Launch; Goto feedPage; Goto activityUrl], dataFile)
              | Ok _ =>
                  let scrolled :=
                    [Launch; Goto feedPage; Goto activityUrl; WaitForSelector]
                      ++ List.concat (repeat [Scroll; Count] TOTAL_SCROLLS) in
                  match feed b with
                  | Throw _ => (scrolled ++ [Snapshot], dataFile)
                  | Ok updates =>
                      (scrolled ++ [Snapshot; Close],
                       Some (allPosts (extractAll updates)))
                  end
              end
      end
  end.

End FetchPosts.

(** ** [src/scripts/fetch-post-analytics.ts] *)

Module FetchAnalytics.
Import Js Buf.

(** An entry of [data/posts.json] as the loop reads it: the fields
    written by the collection run, and the [url] field the loop falls
    back to. *)
Record Ref : Type := {
  postUrn : jsstring;
  postUrl : jsstring;
  posted_at : jsstring;
  url : option jsstring
}.

Definition ofPost (p : FetchPosts.Post.t) : Ref :=
  {| postUrn := FetchPosts.Post.postUrn p;
     postUrl := FetchPosts.Post.postUrl p;
     posted_at := FetchPosts.Post.posted_at p;
     url := None |}.

(** What [page.evaluate] returns. *)
Record Data : Type := {
  content : jsstring;
  imageUrl : jsstring;
  likes : number;
  comments : number;
  reposts : number;
  impressionsText : jsstring;
  date : jsstring
}.

(** [{ ...post, ...data, impressions }] *)
Record Enriched : Type := {
  post : Ref;
  data : Data;
  impressions : number
}.

(** What happens on the page of one post: [page.goto] throws,
    [page.evaluate] throws, or the data is extracted. *)
Inductive visit : Type :=
| GotoThrows
| EvaluateThrows
| Page (d : Data).

(** The browser of one run; [page i url] is the visit of [url] at turn
    [i] of the loop. *)
Record Browser : Type := {
  launches : bool;
  page : nat -> jsstring -> visit
}.

Inductive entry : Type :=
| NotFound                       (* data/posts.json not found. *)
| NoPosts                        (* No posts found. *)
| NoAccounts                     (* No accounts found in database. *)
| Processing (postUrl : jsstring)
| Skipping (postUrl : jsstring)  (* Skipping post (0 impressions) *)
| Extracted (impressionsText : jsstring)
| Failed                         (* Failed to process post *)
| Saved (kept skipped : nat)
| Fatal.                         (* the outer catch *)

(** [post.postUrn || post.url.split('activity:')[1]?.split('/')[0]]:
    throws when [postUrn] is empty and there is no [url]; [Ok None] is
    [undefined]. *)
Definition urnOf (post : Ref) : result unit (option jsstring) :=
  match postUrn post with
  | [] =>
      match url post with
      | None => Throw tt
      | Some u =>
          match split u (lit "activity:") with
          | _ :: part :: _ => Ok (Some (hd [] (split part (lit "/"))))
          | _ => Ok None
          end
      end
  | urn => Ok (Some urn)
  end.

Definition detailUrl (urn : option jsstring) : jsstring :=
  lit "https://www.linkedin.com/feed/update/"
    ++ default (lit "undefined") urn ++ lit "/".

Record progress : Type := {
  results : list Enriched;
  log : list entry;
  navigated : list jsstring
}.

(** The [for] loop over [targetPosts], from turn [i]. The flag is
    [false] when the computation of [urn], which is outside the inner
    [try], has thrown. *)
Fixpoint loop (b : Browser) (i : nat) (targetPosts : list Ref) (st : progress)
  : progress * bool :=
  match targetPosts with
  | [] => (st, true)
  | post :: rest =>
      match urnOf post with
      | Throw _ => (st, false)
      | Ok urn =>
          let postUrl := detailUrl urn in
          let st :=
            {| results := results st;
               log := log st ++ [Processing postUrl];
               navigated := navigated st ++ [postUrl] |} in
          match page b i postUrl with
          | GotoThrows | EvaluateThrows =>
              loop b (S i) rest
                {| results := results st; log := log st ++ [Failed];
                   navigated := navigated st |}
          | Page data =>
              let impressionCount := digitsOrZero (impressionsText data) in
              if isZero impressionCount then
                loop b (S i) rest
                  {| results := results st; log := log st ++ [Skipping postUrl];
                     navigated := navigated st |}
              else
                loop b (S i) rest
                  {| results :=
                       results st
                         ++ [{| post := post; data := data;
                                impressions := impressionCount |}];
                     log := log st ++ [Extracted (impressionsText data)];
                     navigated := navigated st |}
          end
      end
  end.

(** [parseInt(String(r.impressionsText || '0').replace(/[^0-9]/g, ''), 10) || 0] *)
Definition recount (r : Enriched) : number :=
  digitsOrZero
    match impressionsText (data r) with
    | [] => lit "0"
    | t => t
    end.

(** The final safety filter. *)
Definition finalResults (results : list Enriched) : list Enriched :=
  List.filter (fun r => gtZero (recount r)) results.

(** An entry whose impression count is positive and is the count of
    its own [impressionsText]. *)
Definition positive (r : Enriched) : Prop :=
  gtZero (impressions r) = true
  /\ impressions r = digitsOrZero (impressionsText (data r)).

Definition hasUrn (p : Ref) : Prop := postUrn p <> [].

(** The page the loop opens for a reference that has a urn. *)
Definition urlOf (p : Ref) : jsstring := detailUrl (Some (postUrn p)).

(** What a run leaves: its log, the pages it navigated to, and what it
    wrote to [data/posts_enriched.json], [None] when it wrote nothing. *)
Record report : Type := {
  entries : list entry;
  visited : list jsstring;
  written : option (list Enriched)
}.

(** The run. [postsFile] is the parsed content of [data/posts.json],
    [None] when the file is absent; [account] is the row the query
    returns. *)
Definition fetchAnalytics (key : buffer) (postsFile : option (list Ref))
    (account : option Status.Account) (b : Browser) : report :=
  match postsFile with
  | None => {| entries := [NotFound]; visited := []; written := None |}
  | Some posts =>
      match posts with
      | [] => {| entries := [NoPosts]; visited := []; written := None |}
      | _ =>
          (* Limit to first 5 posts for now to avoid long runtimes *)
          let targetPosts := firstn 5 posts in
          match account with
          | None => {| entries := [NoAccounts]; visited := []; written := None |}
          | Some account =>
              match Encryption.decrypt key (Status.li_at_encrypted account) with
              | Throw _ => {| entries := [Fatal]; visited := []; written := None |}
              | Ok li_at =>
                  if negb (launches b)
                  then {| entries := [Fatal]; visited := []; written := None |}
                  else
                    let '(st, completed) :=
                      loop b 0 targetPosts
                        {| results := []; log := []; navigated := [] |} in
                    if completed then
                      let final := finalResults (results st) in
                      {| entries :=
                           log st ++ [Saved (length final)
                                        (length (results st) - length final)];
                         visited := navigated st;
                         written := Some final |}
                    else
                      {| entries := log st ++ [Fatal];
                         visited := navigated st;
                         written := None |}
              end
          end
      end
  end.

End FetchAnalytics.

(** ** Concrete inputs

    The key of the FIPS 197 example vectors, an initialisation vector, a
    token with its record, and the worlds and pages the examples below
    run on. *)

Module Sample.
Import Js Buf.

Definition key0 : buffer :=
  [x00; x01; x02; x03; x04; x05; x06; x07; x08; x09; x0a; x0b; x0c; x0d; x0e; x0f;
   x10; x11; x12; x13; x14; x15; x16; x17; x18; x19; x1a; x1b; x1c; x1d; x1e; x1f].

Definition iv0 : buffer :=
  [xa0; xa1; xa2; xa3; xa4; xa5; xa6; xa7; xa8; xa9; xaa; xab; xac; xad; xae; xaf].

Definition token0 : jsstring := lit "AQEDAR".

(** [encrypt(token0)] under [key0] when [iv0] is drawn. *)
Definition record0 : jsstring :=
  lit "a0a1a2a3a4a5a6a7a8a9aaabacadaeaf:ef7da89d8a502819545a5e0e4dc82d49".

(** [record0] followed by two characters that are no hexadecimal digits. *)
Definition record0zz : jsstring := record0 ++ lit "zz".

(** h, e-acute, the euro sign and U+1F600 as a surrogate pair. *)
Definition accented : jsstring := [104; 233; 8364; 55357; 56832].

(** A high surrogate on its own. *)
Definition lone : jsstring := [55296].

Definition tmpdir0 : jsstring := lit "/tmp".
Definition sid0 : jsstring := lit "0b9d6f2e".

Definition rnd0 : Status.entropy :=
  {| Status.iv := iv0; Status.uuid := lit "7d0c7a3e"; Status.now := 1 |}.

Definition rnd1 : Status.entropy :=
  {| Status.iv := iv0; Status.uuid := lit "41f6b2aa"; Status.now := 2 |}.

Definition account0 : Status.Account :=
  {| Status.id := lit "7d0c7a3e"; Status.user_id := lit "demo-user";
     Status.li_at_encrypted := record0; Status.created_at := 0 |}.

(** The artifact as the login script writes it on success. *)
Definition successText : jsstring :=
  lit "{" ++ quoted "status" ++ lit ":" ++ quoted "success" ++ lit ","
    ++ quoted "cookie" ++ lit ":" ++ quoted "AQEDAR" ++ lit "}".

(** The beginning of that text, as a reader finds it while it is being
    written. *)
Definition truncatedText : jsstring := lit "{" ++ quoted "status" ++ lit ":".

Definition truncated : Status.world :=
  {| Status.tmp := {[ Status.resultPath tmpdir0 sid0 := truncatedText ]};
     Status.accounts := [] |}.

Definition fresh : Status.world :=
  {| Status.tmp := {[ Status.resultPath tmpdir0 sid0 := successText ]};
     Status.accounts := [] |}.

(** A success artifact, and an account table in which the id that
    [rnd0] draws is taken. *)
Definition clash : Status.world :=
  {| Status.tmp := {[ Status.resultPath tmpdir0 sid0 := successText ]};
     Status.accounts := [account0] |}.

Definition itemA : FetchPosts.Raw.t :=
  {| FetchPosts.Raw.postUrn := lit "A"; FetchPosts.Raw.postUrl := [];
     FetchPosts.Raw.timeText := [] |}.

Definition itemB : FetchPosts.Raw.t :=
  {| FetchPosts.Raw.postUrn := lit "B"; FetchPosts.Raw.postUrl := [];
     FetchPosts.Raw.timeText := [] |}.

(** Forty-five items with pairwise different urns. *)
Definition items45 : list FetchPosts.Raw.t :=
  List.map
    (fun n =>
       {| FetchPosts.Raw.postUrn := lit "urn:li:activity:" ++ [1000 + N.of_nat n];
          FetchPosts.Raw.postUrl := []; FetchPosts.Raw.timeText := lit "1w" |})
    (seq 0 45).

(** A browser whose feed navigation is redirected to the login page. *)
Definition redirected : FetchPosts.Browser :=
  {| FetchPosts.launches := true;
     FetchPosts.feedGoto := Ok tt;
     FetchPosts.feedUrl := lit "https://www.linkedin.com/login?fromSignIn=true";
     FetchPosts.activityGoto := Ok tt;
     FetchPosts.feed := Ok [] |}.

Definition stored : list FetchPosts.Post.t :=
  [FetchPosts.toPost itemA; FetchPosts.toPost itemB].

Definition ref (urn : string) : FetchAnalytics.Ref :=
  {| FetchAnalytics.postUrn := lit urn; FetchAnalytics.postUrl := [];
     FetchAnalytics.posted_at := lit "2w"; FetchAnalytics.url := None |}.

Definition six : list FetchAnalytics.Ref :=
  [ref "p1"; ref "p2"; ref "p3"; ref "p4"; ref "p5"; ref "p6"].

Definition dataWith (impressionsText : jsstring) : FetchAnalytics.Data :=
  {| FetchAnalytics.content := lit "post"; FetchAnalytics.imageUrl := [];
     FetchAnalytics.likes := Finite 3; FetchAnalytics.comments := Finite 1;
     FetchAnalytics.reposts := Finite 0;
     FetchAnalytics.impressionsText := impressionsText;
     FetchAnalytics.date := lit "2w" |}.

(** The first page shows 1,234 impressions, every later page none. *)
Definition pages : FetchAnalytics.Browser :=
  {| FetchAnalytics.launches := true;
     FetchAnalytics.page := fun i _ =>
       match i with
       | O => FetchAnalytics.Page (dataWith (lit "1,234"))
       | _ => FetchAnalytics.Page (dataWith (lit "0"))
       end |}.

Definition run6 : FetchAnalytics.report :=
  FetchAnalytics.fetchAnalytics key0 (Some six) (Some account0) pages.

End Sample.

(** * The rest of the connection, and further notions

    The embedding goes on with the sources around the ones above: the
    loader of [.env.local] at the head of the scripts, the login script
    [scripts/linkedin-login.js] that writes the artifact the status
    route reads, the connect route that spawns it, the page that starts
    a connection and polls its status, and the label the admin page
    makes of a post url.

    - The login script and the page run side by side; a schedule lists
      the turns of the script and the requests of the page in the order
      in which they happen, and each of them is one step.
    - What the script meets in a turn (the clock, the cookies of the
      browser context, whether its wait and close return) is an
      argument, as are the reply of [spawn] and the session id drawn.
    - The session id travels in the query string as it is, as a UUID
      does. *)

(** ** Further notions used by the properties below *)

Module Wtf.
Import Js Buf.

(** [String.prototype.toWellFormed]: every unpaired surrogate becomes
    U+FFFD, everything else stays. *)
Fixpoint toWellFormed (s : jsstring) : jsstring :=
  match s with
  | [] => []
  | u :: rest =>
      if isHigh u then
        match rest with
        | v :: rest' =>
            if isLow v then u :: v :: toWellFormed rest'
            else 65533 :: toWellFormed rest
        | [] => [65533]
        end
      else if isLow u then 65533 :: toWellFormed rest
      else u :: toWellFormed rest
  end.

(** The code units of a string are below 2^16. *)
Definition units (s : jsstring) : Prop := Forall (fun u => u < 65536) s.

(** A hexadecimal digit in upper case; other characters stay. *)
Definition hexUpper (c : N) : N :=
  if (97 <=? c) && (c <=? 102) then c - 32 else c.

End Wtf.

(** ** The invariant of the deduplication loop *)

Module Inv.
Import Js FetchPosts.
(** The invariant of the Phase 3 loop after the items [seen]: the keys
    of the map are pairwise different, every entry is the entry of an
    item seen, and the entries and the duplicates together count the
    items seen that have a urn. *)
Definition dedupInv (seen : list Raw.t) (st : list (jsstring * Post.t) * nat) : Prop :=
  List.NoDup (List.map fst st.1)
  /\ Forall (fun e => exists x, In x seen /\ e = entryOf x) st.1
  /\ (length st.1 + st.2)%nat
     = length (List.filter (fun x => negb (bool_decide (Raw.postUrn x = []))) seen).
End Inv.

(** ** The enrichment loop, reference by reference *)

Module Each.
Import Js FetchAnalytics.

(** What the loop keeps of one reference with a urn, at turn [i]: the
    entry, when its page is extracted with a count that is not zero. *)
Definition enrichOne (b : Browser) (i : nat) (p : Ref) : option Enriched :=
  match page b i (urlOf p) with
  | Page d =>
      if isZero (digitsOrZero (impressionsText d)) then None
      else Some {| post := p; data := d;
                   impressions := digitsOrZero (impressionsText d) |}
  | _ => None
  end.

(** Reference by reference, from turn [i] on. *)
Fixpoint enrichFrom (b : Browser) (i : nat) (posts : list Ref) : list Enriched :=
  match posts with
  | [] => []
  | p :: rest =>
      match enrichOne b i p with
      | Some e => e :: enrichFrom b (S i) rest
      | None => enrichFrom b (S i) rest
      end
  end.

(** What the loop logs for one reference with a urn, at turn [i]: that
    it opens its page, and then that it failed, skipped the reference
    or extracted its data. *)
Definition logOne (b : Browser) (i : nat) (p : Ref) : list entry :=
  [Processing (urlOf p);
   match page b i (urlOf p) with
   | Page d =>
       if isZero (digitsOrZero (impressionsText d)) then Skipping (urlOf p)
       else Extracted (impressionsText d)
   | _ => Failed
   end].

Fixpoint logFrom (b : Browser) (i : nat) (posts : list Ref) : list entry :=
  match posts with
  | [] => []
  | p :: rest => logOne b i p ++ logFrom b (S i) rest
  end.

End Each.

(** ** The [.env.local] loader at the head of the scripts *)

Module Env.
Import Js.

(** [String.prototype.indexOf] for one character; [None] is -1. *)
Fixpoint indexOf (s : jsstring) (c : N) : option nat :=
  match s with
  | [] => None
  | b :: s' => if b =? c then Some O else option_map S (indexOf s' c)
  end.

Definition isQuote (c : N) : bool := (c =? 34) || (c =? 39).

(** The characters a dot of a regular expression does not match. *)
Definition isLineTerminator (c : N) : bool :=
  (c =? 10) || (c =? 13) || (c =? 8232) || (c =? 8233).

(** The [replace] that strips quotes: the pattern asks for a single or
    double quote at the start, one (of either kind) at the end, and no
    line terminator between them; the match is replaced by what is
    between them. *)
Definition unquote (value : jsstring) : jsstring :=
  match value with
  | [] => value
  | q :: rest =>
      match rev rest with
      | [] => value
      | q' :: inner =>
          if isQuote q && isQuote q'
             && forallb (fun c => negb (isLineTerminator c)) inner
          then rev inner
          else value
      end
  end.

(** The body of the [forEach]: the binding one line makes, if any. *)
Definition parseLine (line : jsstring) : option (jsstring * jsstring) :=
  let cleanLine := trim (hd [] (split line (lit "#"))) in
  match cleanLine with
  | [] => None
  | _ =>
      match indexOf cleanLine 61 with
      | Some (S i) =>
          let idx := S i in
          let key := trim (firstn idx cleanLine) in
          let val := unquote (trim (skipn (idx + 1) cleanLine)) in
          Some (key, val)
      | _ => None
      end
  end.

(** [envConfig.split('\n').forEach(...)] on [process.env]. *)
Definition loadEnv (envConfig : jsstring) (env : gmap jsstring jsstring)
  : gmap jsstring jsstring :=
  fold_left
    (fun env line =>
       match parseLine line with
       | Some (key, val) => <[key := val]> env
       | None => env
       end)
    (split envConfig [10]) env.

(** White space only. *)
Definition blank (s : jsstring) : Prop := Forall (fun c => isSpace c = true) s.

(** No white space at either end. *)
Definition tight (s : jsstring) : Prop :=
  trimStart s = s /\ trimStart (rev s) = rev s.

End Env.

(** ** [JSON.stringify] of the two artifacts *)

Module Stringify.
Import Js Buf.

(** UnicodeEscape: a reverse solidus, the letter u and four lower-case
    hexadecimal digits. *)
Definition unicodeEscape (c : N) : jsstring :=
  [92; 117; hexDigit (c / 4096); hexDigit (c / 256 mod 16);
   hexDigit (c / 16 mod 16); hexDigit (c mod 16)].

(** The code units that have a two-character escape, with its letter. *)
Definition shortEscape (c : N) : option N :=
  if c =? 8 then Some 98            (* backspace: b *)
  else if c =? 9 then Some 116      (* tab: t *)
  else if c =? 10 then Some 110     (* line feed: n *)
  else if c =? 12 then Some 102     (* form feed: f *)
  else if c =? 13 then Some 114     (* carriage return: r *)
  else if c =? 34 then Some 34      (* quotation mark *)
  else if c =? 92 then Some 92      (* reverse solidus *)
  else None.

(** QuoteJSONString, between the quotation marks: the string is read
    by code points, so a surrogate pair is copied and a surrogate that
    stands alone is escaped. *)
Fixpoint quoteBody (s : jsstring) : jsstring :=
  match s with
  | [] => []
  | c :: rest =>
      match shortEscape c with
      | Some e => 92 :: e :: quoteBody rest
      | None =>
          if c <? 32 then unicodeEscape c ++ quoteBody rest
          else if isHigh c then
            match rest with
            | v :: rest' =>
                if isLow v then c :: v :: quoteBody rest'
                else unicodeEscape c ++ quoteBody rest
            | [] => unicodeEscape c
            end
          else if isLow c then unicodeEscape c ++ quoteBody rest
          else c :: quoteBody rest
      end
  end.

Definition quote (s : jsstring) : jsstring := 34 :: quoteBody s ++ [34].

(** [JSON.stringify({ status: 'success', cookie: value })] *)
Definition successArtifact (value : jsstring) : jsstring :=
  lit "{" ++ quoted "status" ++ lit ":" ++ quoted "success" ++ lit ","
    ++ quoted "cookie" ++ lit ":" ++ quote value ++ lit "}".

(** [JSON.stringify({ status: 'timeout' })] *)
Definition timeoutArtifact : jsstring :=
  lit "{" ++ quoted "status" ++ lit ":" ++ quoted "timeout" ++ lit "}".

End Stringify.

(** ** scripts/linkedin-login.js *)

Module Login.
Import Js Stringify.

(** A cookie of the browser context, as far as the script reads it. *)
Record Cookie : Type := {
  name : jsstring;
  value : jsstring
}.

Definition TIMEOUT : N := 5 * 60 * 1000.

(** What one turn of the loop meets: the clock when the loop condition
    is evaluated, what [context.cookies()] returns ([None]: it throws),
    and how [page.waitForTimeout(5000)] and [browser.close()] end:
    [settles] is [true] when both return and [false] when one of them
    throws. A call that never ends suspends the script, which then
    takes no further turn: the turns that are listed stop there. *)
Record check : Type := {
  clock : N;
  cookies : option (list Cookie);
  settles : bool
}.

(** One turn of the [while] loop, or what follows the loop when the
    time is up: the result tells whether the process has exited and
    gives the files, each with the text that reading it as UTF-8
    gives. The clock difference is compared with a positive bound only,
    so a clock set back, for which the truncated difference is 0, takes
    the same branch. An exception inside the inner [try] is caught
    there, and the loop goes on. *)
Definition turn (resultPath : jsstring) (startTime : N) (c : check)
    (files : gmap jsstring jsstring) : bool * gmap jsstring jsstring :=
  if clock c - startTime <? TIMEOUT then
    match cookies c with
    | Some cs =>
        match List.find (fun k => bool_decide (name k = lit "li_at")) cs with
        | Some li_at =>
            (settles c, <[resultPath := successArtifact (value li_at)]> files)
        | None => (false, files)
        end
    | None => (false, files)
    end
  else (true, <[resultPath := timeoutArtifact]> files).

(** The turns in a row; the observations running out leaves the process
    in the loop. *)
Fixpoint loop (resultPath : jsstring) (startTime : N) (checks : list check)
    (files : gmap jsstring jsstring) : bool * gmap jsstring jsstring :=
  match checks with
  | [] => (false, files)
  | c :: rest =>
      let '(exited, files') := turn resultPath startTime c files in
      if exited then (true, files')
      else loop resultPath startTime rest files'
  end.

(** The script: [argv2] is [process.argv[2]], [launches] tells whether
    the browser, its context and its page come up; the log files are
    left out. *)
Definition main (tmpdir : jsstring) (argv2 : option jsstring) (launches : bool)
    (startTime : N) (checks : list check) (files : gmap jsstring jsstring)
  : bool * gmap jsstring jsstring :=
  match argv2 with
  | None | Some [] => (true, files)
  | Some sessionId =>
      if launches
      then loop (Status.resultPath tmpdir sessionId) startTime checks files
      else (true, files)
  end.

(** The first [li_at] cookie a check shows. *)
Definition found (c : check) : option Cookie :=
  match cookies c with
  | Some cs => List.find (fun k => bool_decide (name k = lit "li_at")) cs
  | None => None
  end.

Definition inTime (startTime : N) (c : check) : bool :=
  clock c - startTime <? TIMEOUT.

(** A turn after which the process has exited. *)
Definition stops (startTime : N) (c : check) : bool :=
  negb (inTime startTime c)
  || match found c with Some _ => settles c | None => false end.

(** The artifact a turn writes, if it writes one. *)
Definition artifactOf (startTime : N) (c : check) : jsstring :=
  match inTime startTime c, found c with
  | true, Some li_at => successArtifact (value li_at)
  | _, _ => timeoutArtifact
  end.

End Login.

(** ** app/api/linkedin/connect/route.ts *)

Module Connect.
Import Js.

Inductive reply : Type :=
| Session (sessionId : jsstring)     (* { sessionId } *)
| Error500 (error : jsstring).       (* { error }, 500 *)

(** [spawned] is what opening the log and [spawn] come to: [Throw] with
    the message of the exception, or the child's [pid] ([None]:
    undefined). *)
Definition POST (uuid : jsstring) (scriptExists : bool)
    (spawned : result jsstring (option N)) : reply :=
  if negb scriptExists then Error500 (lit "Script not found")
  else
    match spawned with
    | Throw message => Error500 message
    | Ok (Some pid) =>
        if pid =? 0 then Error500 (lit "Failed to spawn") else Session uuid
    | Ok None => Error500 (lit "Failed to spawn")
    end.

End Connect.

(** ** The page that starts a connection and polls its status *)

Module Client.
Import Js Buf Status.

Inductive status : Type := idle | starting | waiting | success | error.

(** The body [NextResponse.json] sends for a response of the status
    route, as [res.json()] reads it. An artifact that is echoed stands
    for its serialisation read back, which has the same [status]. *)
Definition body (r : response) : Json.value :=
  match r with
  | BadRequest =>
      Json.Object [(lit "error", Json.String (lit "Session ID is required"))]
  | Waiting => Json.Object [(lit "status", Json.String (lit "waiting"))]
  | Connected => Json.Object [(lit "status", Json.String (lit "connected"))]
  | Echo result => result
  | Error500 message =>
      Json.Object [(lit "status", Json.String (lit "error"));
                   (lit "message", Json.String message)]
  end.

(** One run of the interval callback on what was fetched ([None]: the
    fetch or [res.json()] threw): [None] leaves the interval running,
    [Some st] clears it and sets the status. *)
Definition onData (data : option Json.value) : option status :=
  match data with
  | None => None
  | Some d =>
      match Json.getProp d (lit "status") with
      | Throw _ => None
      | Ok st =>
          if strictEq st (lit "success") || strictEq st (lit "connected")
          then Some success
          else if strictEq st (lit "waiting") then None
          else Some error
      end
  end.

(** [startConnect] on the reply of the connect route ([None]: the
    fetch threw): the status it sets and the session it starts to poll. *)
Definition startConnect (reply : option Connect.reply)
  : status * option jsstring :=
  match reply with
  | Some (Connect.Session sessionId) => (waiting, Some sessionId)
  | _ => (error, None)
  end.

End Client.

(** ** The connection as a whole *)

Module Flow.
Import Js Buf Status.

(** The login script and the polling page run side by side: a schedule
    lists the turns of the script's loop and the requests of the page in
    the order in which they happen, each taken as one step. *)
Inductive event : Type :=
| Turn (c : Login.check)
| Poll (rnd : entropy).

Record state : Type := {
  exited : bool;            (* the login script has exited *)
  page : Client.status;     (* the status the page shows *)
  world : Status.world
}.

Definition step (key : buffer) (tmpdir sid : jsstring) (startTime : N)
    (s : state) (e : event) : state :=
  match e with
  | Turn c =>
      if exited s then s
      else
        let '(done, files) :=
          Login.turn (resultPath tmpdir sid) startTime c (tmp (world s)) in
        {| exited := done; page := page s;
           world := {| tmp := files; accounts := accounts (world s) |} |}
  | Poll rnd =>
      match page s with
      | Client.waiting =>
          let '(r, w') := GET key tmpdir rnd (Some sid) (world s) in
          {| exited := exited s;
             page := match Client.onData (Some (Client.body r)) with
                     | Some st => st
                     | None => Client.waiting
                     end;
             world := w' |}
      | _ => s
      end
  end.

Definition run (key : buffer) (tmpdir sid : jsstring) (startTime : N)
    (events : list event) (s : state) : state :=
  fold_left (step key tmpdir sid startTime) events s.

(** From the click to the end of a schedule: the connect route answers,
    the script it spawned starts on the session id it was given (and
    exits at once without that id or without a browser), the page
    polls. *)
Definition connect (key : buffer) (tmpdir uuid : jsstring)
    (scriptExists : bool) (spawned : result jsstring (option N))
    (launches : bool) (startTime : N) (events : list event) (w : Status.world)
  : state :=
  match Client.startConnect (Some (Connect.POST uuid scriptExists spawned)) with
  | (st, Some sid) =>
      run key tmpdir sid startTime events
        {| exited := negb launches || bool_decide (sid = []);
           page := st; world := w |}
  | (st, None) => {| exited := true; page := st; world := w |}
  end.




(** An event after which a running script still runs: a request, or a
    turn in time whose wait or close throws. *)
Definition unsettled (startTime : N) (e : event) : bool :=
  match e with
  | Turn c => Login.inTime startTime c && negb (Login.settles c)
  | Poll _ => true
  end.



End Flow.

(** ** The label of a post on the admin page *)

Module Admin.
Import Js.




End Admin.

(** ** Further concrete inputs *)

Module Scenario.
Import Js Buf.

(** A letter, a quotation mark, a reverse solidus, a line feed, a low
    surrogate on its own and a letter. *)
Definition awkward : jsstring := [97; 34; 92; 10; 56320; 98].

(** A browser that reaches the feed and then fails to open the activity
    page. *)
Definition stuck : FetchPosts.Browser :=
  {| FetchPosts.launches := true;
     FetchPosts.feedGoto := Ok tt;
     FetchPosts.feedUrl := lit "https://www.linkedin.com/feed/";
     FetchPosts.activityGoto := Throw (lit "Timeout 60000ms exceeded");
     FetchPosts.feed := Ok [] |}.

(** A reference with neither urn nor url. *)
Definition blankRef : FetchAnalytics.Ref :=
  {| FetchAnalytics.postUrn := []; FetchAnalytics.postUrl := [];
     FetchAnalytics.posted_at := []; FetchAnalytics.url := None |}.

(** A line of [.env.local]. *)
Definition envLine : jsstring :=
  lit "  SUPABASE_URL = 'https://x.supabase.co'  # remote".

Definition li_at : Login.Cookie :=
  {| Login.name := lit "li_at"; Login.value := Sample.token0 |}.

Definition other : Login.Cookie :=
  {| Login.name := lit "JSESSIONID"; Login.value := lit "ajax:1" |}.

(** A turn at time [t] that finds no session cookie. *)
Definition nothing (t : N) : Login.check :=
  {| Login.clock := t; Login.cookies := Some [other]; Login.settles := true |}.

(** A turn at time [t] that finds the session cookie. *)
Definition loggedIn (t : N) (settles : bool) : Login.check :=
  {| Login.clock := t; Login.cookies := Some [other; li_at];
     Login.settles := settles |}.

(** A turn at time [t] after the window was closed. *)
Definition closed (t : N) : Login.check :=
  {| Login.clock := t; Login.cookies := None; Login.settles := false |}.




(** No files, no accounts. *)
Definition empty : Status.world :=
  {| Status.tmp := ∅; Status.accounts := [] |}.

(** The child process was spawned. *)
Definition spawned : result jsstring (option N) := Ok (Some 4242).

End Scenario.

(** * Properties *)

(** ** Known answers *)

(** FIPS 197, appendix C.3: the AES-256 example vector. *)
Example cipher_fips197_c3 :
  Buf.toHex
    (Aes.bytes_of_block
       (Aes.cipher (Aes.keyExpansion Sample.key0)
          (Aes.block_of
             [x00; x11; x22; x33; x44; x55; x66; x77;
              x88; x99; xaa; xbb; xcc; xdd; xee; xff])))
  = Js.lit "8ea2b7ca516745bfeafc49904b496089".
Proof. vm_compute. reflexivity. Qed.

(** The record of [token0], as [openssl enc -aes-256-cbc] gives it for
    this key and initialisation vector. *)
Example encrypt_record0 :
  Encryption.encrypt Sample.key0 Sample.iv0 Sample.token0 = Ok Sample.record0.
Proof. vm_compute. reflexivity. Qed.

(** Three blocks, chained and padded, against the same tool. *)
Example encrypt_three_blocks :
  Encryption.encrypt Sample.key0 Sample.iv0
    (Js.lit "this is a longer plaintext spanning blocks!")
  = Ok (Js.lit "a0a1a2a3a4a5a6a7a8a9aaabacadaeaf:"
          ++ Js.lit "f9629ffb96f53c1561fc41dac77eae69"
          ++ Js.lit "685604b82c20c1ee216e48d2757a4e78"
          ++ Js.lit "73de86ff11534f8d5bbb9ec12cfd8300").
Proof. vm_compute. reflexivity. Qed.

(** Counts above 2^53 are rounded to the nearest double, ties to even. *)
Example digitsOrZero_rounds :
  Js.digitsOrZero (Js.lit "9007199254740993") = Js.Finite 9007199254740992
  /\ Js.digitsOrZero (Js.lit "9007199254740995") = Js.Finite 9007199254740996
  /\ Js.digitsOrZero (Js.lit "18446744073709551615")
     = Js.Finite 18446744073709551616.
Proof. repeat split; vm_compute; reflexivity. Qed.

(** The hexadecimal decoder reads low bytes: U+0161 counts as [a]. *)
Example fromHex_low_byte : Buf.fromHex [353; 48] = [xa0].
Proof. vm_compute. reflexivity. Qed.

(** [path.join] resolves the segments of a session id. *)
Example resultPath_normalised :
  Status.resultPath (Js.lit "/tmp") (Js.lit "0b9d6f2e")
  = Js.lit "/tmp/linkedin-session-0b9d6f2e.json"
  /\ Status.resultPath (Js.lit "/tmp") (Js.lit "/../../etc/x")
     = Js.lit "/etc/x.json".
Proof. split; vm_compute; reflexivity. Qed.

Example digitsOrZero_1234 : Js.digitsOrZero (Js.lit "1,234") = Js.Finite 1234.
Proof. reflexivity. Qed.

(** ** Bytes *)

Section Bytes.
Import Js Buf Aes.

Lemma to_N_byte_of_N (n : N) : n < 256 -> Byte.to_N (byte_of_N n) = n.
Proof.
  intros Hn. unfold byte_of_N.
  destruct (Byte.of_N n) as [b|] eqn:Hb.
  - now apply Byte.to_of_N.
  - apply Byte.of_N_None_iff in Hb. lia.
Qed.

Ltac expose_bits a :=
  let H := fresh in
  let a0 := fresh a "0" in
  destruct (Byte.to_bits a) as [a0 [? [? [? [? [? [? ?]]]]]]] eqn:H;
  apply (f_equal Byte.of_bits) in H; rewrite Byte.of_bits_to_bits in H;
  subst a.

Lemma bxor_cancel (a k : byte) : bxor (bxor a k) k = a.
Proof.
  expose_bits a. expose_bits k.
  unfold bxor. rewrite !Byte.to_bits_of_bits. cbn [xor_bits].
  repeat (f_equal; try btauto).
Qed.

Lemma inv_sbox_sbox (b : byte) : inv_sbox (sbox b) = b.
Proof. destruct b; reflexivity. Qed.

(** The two column matrices of FIPS 197 are inverse to each other: each
    of the 32 output bits is a sum of input bits, which [btauto] checks. *)
Lemma invMixColumn_mixColumn (w : word) : invMixColumn (mixColumn w) = w.
Proof.
  destruct w as [[[a b] c] d].
  expose_bits a. expose_bits b. expose_bits c. expose_bits d.
  unfold invMixColumn, mixColumn, mul2, mul3, mul9, mul11, mul13, mul14, bxor, xtime.
  rewrite !Byte.to_bits_of_bits. cbn [xor_bits xtime_bits].
  repeat (f_equal; try btauto).
Qed.

Lemma xorWord_cancel (w k : word) : xorWord (xorWord w k) k = w.
Proof.
  destruct w as [[[a b] c] d], k as [[[a' b'] c'] d'].
  cbn -[bxor]. now rewrite !bxor_cancel.
Qed.

Lemma xorState_cancel (s k : state) : xorState (xorState s k) k = s.
Proof.
  destruct s as [[[a b] c] d], k as [[[a' b'] c'] d'].
  cbn -[xorWord]. now rewrite !xorWord_cancel.
Qed.

Lemma addRoundKey_cancel (k s : state) : addRoundKey k (addRoundKey k s) = s.
Proof. apply xorState_cancel. Qed.

Ltac each_byte s :=
  destruct s as [[[[[[?a0 ?a1] ?a2] ?a3] [[[?b0 ?b1] ?b2] ?b3]]
                    [[[?c0 ?c1] ?c2] ?c3]] [[[?d0 ?d1] ?d2] ?d3]].

Lemma invShiftRows_shiftRows (s : state) : invShiftRows (shiftRows s) = s.
Proof. each_byte s. reflexivity. Qed.

Lemma invSubBytes_subBytes (s : state) : invSubBytes (subBytes s) = s.
Proof. each_byte s. cbn -[sbox inv_sbox]. now rewrite !inv_sbox_sbox. Qed.

Lemma invMixColumns_mixColumns (s : state) : invMixColumns (mixColumns s) = s.
Proof.
  destruct s as [[[a b] c] d]. cbn -[invMixColumn mixColumn].
  now rewrite !invMixColumn_mixColumn.
Qed.

Lemma invRound_round (k s : state) : invRound k (round k s) = s.
Proof.
  unfold invRound, round.
  now rewrite addRoundKey_cancel, invMixColumns_mixColumns,
    invShiftRows_shiftRows, invSubBytes_subBytes.
Qed.

Lemma invFinalRound_finalRound (k s : state) :
  invFinalRound k (finalRound k s) = s.
Proof.
  unfold invFinalRound, finalRound.
  now rewrite addRoundKey_cancel, invShiftRows_shiftRows, invSubBytes_subBytes.
Qed.

Lemma rounds_undone (ks : list state) (s : state) :
  fold_right invRound (fold_left (fun st k => round k st) ks s) ks = s.
Proof.
  revert s. induction ks as [|k ks IH]; intros s; cbn; [reflexivity|].
  now rewrite IH, invRound_round.
Qed.

(** The inverse cipher undoes the cipher, whatever the round keys. *)
Lemma invCipher_cipher (rks : list state) (s : state) :
  invCipher rks (cipher rks s) = s.
Proof.
  destruct rks as [|k0 rest]; [reflexivity|].
  unfold invCipher, cipher.
  now rewrite invFinalRound_finalRound, rounds_undone, addRoundKey_cancel.
Qed.

Lemma cbcDecrypt_cbcEncrypt (rks : list state) (iv : state) (bl : list state) :
  cbcDecrypt rks iv (cbcEncrypt rks iv bl) = bl.
Proof.
  revert iv. induction bl as [|p bl IH]; intros iv; cbn; [reflexivity|].
  now rewrite invCipher_cipher, xorState_cancel, IH.
Qed.

Lemma blocks_of_bytes_of (bl : list state) : blocks_of (bytes_of bl) = bl.
Proof.
  induction bl as [|s bl IH]; [reflexivity|].
  each_byte s. cbn. fold (bytes_of bl). now rewrite IH.
Qed.

Lemma length_bytes_of (bl : list state) :
  length (bytes_of bl) = (16 * length bl)%nat.
Proof.
  induction bl as [|s bl IH]; [reflexivity|].
  each_byte s.
  cbn [bytes_of flat_map bytes_of_block app length]. fold (bytes_of bl). lia.
Qed.

Lemma bytes_of_blocks_of (n : nat) (l : buffer) :
  length l = (16 * n)%nat -> bytes_of (blocks_of l) = l.
Proof.
  revert l. induction n as [|n IH]; intros l Hl.
  - destruct l; [reflexivity | discriminate].
  - do 16 (destruct l as [|? l]; [cbn in Hl; lia|]).
    cbn [blocks_of bytes_of flat_map bytes_of_block app].
    fold (bytes_of (blocks_of l)). rewrite IH; [reflexivity | cbn in Hl; lia].
Qed.

Lemma length_blocks_of (n : nat) (l : buffer) :
  length l = (16 * n)%nat -> length (blocks_of l) = n.
Proof.
  revert l. induction n as [|n IH]; intros l Hl.
  - destruct l; [reflexivity | discriminate].
  - do 16 (destruct l as [|? l]; [cbn in Hl; lia|]).
    cbn [blocks_of length]. rewrite IH; [reflexivity | cbn in Hl; lia].
Qed.

Lemma length_cbcEncrypt (rks : list state) (iv : state) (bl : list state) :
  length (cbcEncrypt rks iv bl) = length bl.
Proof. revert iv; induction bl; intros; cbn; auto. Qed.

(** Padding always completes a block, and adds one to a full input. *)
Lemma length_pad (l : buffer) : exists n, length (pad l) = (16 * S n)%nat.
Proof.
  unfold pad. rewrite length_app, repeat_length.
  exists (length l / 16)%nat.
  pose proof (Nat.div_mod_eq (length l) 16).
  pose proof (Nat.mod_upper_bound (length l) 16). lia.
Qed.

Lemma last_app_repeat {A} (l : list A) (x d : A) (n : nat) :
  List.last (l ++ repeat x (S n)) d = x.
Proof.
  replace (repeat x (S n)) with (repeat x n ++ [x]).
  - rewrite app_assoc. apply last_last.
  - induction n; cbn; [reflexivity|]. now rewrite IHn.
Qed.

Lemma unpad_pad (l : buffer) : unpad (pad l) = Some l.
Proof.
  unfold pad, unpad.
  set (n := (16 - length l mod 16)%nat).
  assert (Hn : (1 <= n <= 16)%nat).
  { pose proof (Nat.mod_upper_bound (length l) 16). lia. }
  set (x := byte_of_N (N.of_nat n)).
  destruct n as [|m] eqn:Hm; [lia|].
  rewrite last_app_repeat.
  assert (Hx : Byte.to_nat x = S m).
  { unfold x. rewrite Byte.to_nat_via_N, to_N_byte_of_N; lia. }
  rewrite Hx, length_app, repeat_length.
  replace (length l + S m - S m)%nat with (length l) by lia.
  assert (Hs : skipn (length l) (l ++ repeat x (S m)) = repeat x (S m)).
  { rewrite skipn_app, skipn_all, Nat.sub_diag. reflexivity. }
  assert (Hf : firstn (length l) (l ++ repeat x (S m)) = l).
  { rewrite firstn_app, firstn_all, Nat.sub_diag. cbn. apply app_nil_r. }
  rewrite Hs, Hf.
  replace ((1 <=? S m)%nat && (S m <=? 16)%nat && (S m <=? length l + S m)%nat)
    with true.
  2:{ symmetry. rewrite !andb_true_iff, !Nat.leb_le. lia. }
  cbn [andb].
  replace (forallb (Byte.eqb x) (repeat x (S m))) with true; [reflexivity|].
  symmetry. apply forallb_forall. intros y Hy.
  apply repeat_spec in Hy. subst y. now apply Byte.byte_dec_lb.
Qed.

(** *** Hexadecimal *)

Lemma fromHex_digits (x : byte) (rest : jsstring) :
  fromHex (hexDigit (Byte.to_N x / 16) :: hexDigit (Byte.to_N x mod 16) :: rest)
  = x :: fromHex rest.
Proof. destruct x; reflexivity. Qed.

Lemma fromHex_toHex_app (b : buffer) (rest : jsstring) :
  fromHex (toHex b ++ rest) = b ++ fromHex rest.
Proof.
  induction b as [|x b IH]; [reflexivity|].
  cbn [toHex flat_map app]. fold (toHex b).
  now rewrite fromHex_digits, IH.
Qed.

Lemma fromHex_toHex (b : buffer) : fromHex (toHex b) = b.
Proof.
  rewrite <- (app_nil_r (toHex b)), fromHex_toHex_app. cbn. apply app_nil_r.
Qed.

Lemma toHex_no_colon (b : buffer) : ~ In 58 (toHex b).
Proof.
  induction b as [|x b IH]; [intros []|].
  cbn [toHex flat_map app]. fold (toHex b).
  intros [H|[H|H]]; [| |tauto]; destruct x; discriminate H.
Qed.

Lemma length_toHex (b : buffer) : length (toHex b) = (2 * length b)%nat.
Proof.
  induction b as [|x b IH]; [reflexivity|].
  cbn [toHex flat_map app length]. fold (toHex b). lia.
Qed.

(** *** UTF-8 *)

Ltac dlia := zify; Z.to_euclidean_division_equations; lia.

Ltac decide_tests :=
  repeat match goal with
    | |- context [N.leb ?a ?b] =>
        first [ replace (N.leb a b) with true by (symmetry; apply N.leb_le; lia)
              | replace (N.leb a b) with false by (symmetry; apply N.leb_gt; lia) ]
    | |- context [N.ltb ?a ?b] =>
        first [ replace (N.ltb a b) with true by (symmetry; apply N.ltb_lt; lia)
              | replace (N.ltb a b) with false by (symmetry; apply N.ltb_ge; lia) ]
    | |- context [N.eqb ?a ?b] =>
        first [ replace (N.eqb a b) with true by (symmetry; apply N.eqb_eq; lia)
              | replace (N.eqb a b) with false by (symmetry; apply N.eqb_neq; lia) ]
    end;
  cbn [andb orb negb].

Ltac utf8_step :=
  repeat first
    [ progress cbn [app utf8Slice]
    | rewrite to_N_byte_of_N by lia
    | progress decide_tests
    | progress unfold lead, units_of_cp
    | match goal with
      | |- context [N.eqb ?a ?b] =>
          let E := fresh "E" in
          destruct (N.eqb a b) eqn:E;
          [apply N.eqb_eq in E | apply N.eqb_neq in E]
      end ].

(** The decoder reads back the encoding of a scalar value, in each of
    the four lengths. *)
Lemma utf8Slice_cp (cp : N) (rest : buffer) :
  scalar cp ->
  utf8Slice None (utf8_of_cp cp ++ rest) = units_of_cp cp ++ utf8Slice None rest.
Proof.
  intros Hs. unfold scalar in Hs. unfold utf8_of_cp.
  destruct (cp <? 128) eqn:H1;
    [|destruct (cp <? 2048) eqn:H2; [|destruct (cp <? 65536) eqn:H3]].
  - apply N.ltb_lt in H1. utf8_step. reflexivity.
  - apply N.ltb_ge in H1. apply N.ltb_lt in H2.
    assert (Hd : cp = cp / 64 * 64 + cp mod 64 /\ cp mod 64 < 64) by dlia.
    revert Hd. generalize (cp / 64) (cp mod 64). intros a b [Hd Hb].
    utf8_step. f_equal. lia.
  - apply N.ltb_ge in H1. apply N.ltb_ge in H2. apply N.ltb_lt in H3.
    assert (Hd : cp = cp / 4096 * 4096 + (cp / 64) mod 64 * 64 + cp mod 64
                 /\ (cp / 64) mod 64 < 64 /\ cp mod 64 < 64) by dlia.
    revert Hd. generalize (cp / 4096) ((cp / 64) mod 64) (cp mod 64).
    intros a b c (Hd & Hb & Hc).
    utf8_step; f_equal; lia.
  - apply N.ltb_ge in H1. apply N.ltb_ge in H2. apply N.ltb_ge in H3.
    assert (Hd : cp = cp / 262144 * 262144 + (cp / 4096) mod 64 * 4096
                      + (cp / 64) mod 64 * 64 + cp mod 64
                 /\ (cp / 4096) mod 64 < 64 /\ (cp / 64) mod 64 < 64
                 /\ cp mod 64 < 64) by dlia.
    revert Hd.
    generalize (cp / 262144) ((cp / 4096) mod 64) ((cp / 64) mod 64) (cp mod 64).
    intros a b c d (Hd & Hb & Hc & Hd').
    utf8_step; (f_equal; [|f_equal]); dlia.
Qed.

Lemma surrogates_cp (u v : N) :
  isHigh u = true -> isLow v = true ->
  scalar (65536 + (u - 55296) * 1024 + (v - 56320))
  /\ units_of_cp (65536 + (u - 55296) * 1024 + (v - 56320)) = [u; v].
Proof.
  unfold isHigh, isLow, scalar, units_of_cp.
  rewrite !andb_true_iff, !N.leb_le. intros [H1 H2] [H3 H4].
  split; [lia|]. decide_tests. f_equal; [dlia | f_equal; dlia].
Qed.

Lemma toString_utf8Write_le (n : nat) (s : jsstring) :
  (length s <= n)%nat -> wellFormed s = true -> toString (utf8Write s) = s.
Proof.
  unfold toString. revert s.
  induction n as [|n IH]; intros s Hn Hw.
  - destruct s; [reflexivity | cbn in Hn; lia].
  - destruct s as [|u rest]; [reflexivity|].
    cbn [wellFormed utf8Write] in *.
    destruct (isHigh u) eqn:Hh.
    + destruct rest as [|v rest']; [discriminate|].
      apply andb_true_iff in Hw as [Hl Hw]. rewrite Hl.
      destruct (surrogates_cp u v Hh Hl) as [Hsc Hu].
      rewrite utf8Slice_cp, Hu by assumption.
      cbn [app]. rewrite IH; [reflexivity | cbn in Hn; lia | assumption].
    + apply andb_true_iff in Hw as [Hw Hr].
      apply andb_true_iff in Hw as [Hl Hu].
      apply negb_true_iff in Hl. rewrite Hl.
      apply N.ltb_lt in Hu.
      rewrite utf8Slice_cp.
      * unfold units_of_cp. decide_tests. cbn [app].
        rewrite IH; [reflexivity | cbn in Hn; lia | assumption].
      * unfold isHigh, isLow in *. unfold scalar.
        rewrite andb_false_iff, !N.leb_gt in *. lia.
Qed.

(** Writing a well-formed string as UTF-8 and reading it back gives the
    string. *)
Lemma toString_utf8Write (s : jsstring) :
  wellFormed s = true -> toString (utf8Write s) = s.
Proof. apply (toString_utf8Write_le (length s)). lia. Qed.

(** *** [split] and [join] on a one-character separator *)

Lemma startsWith_single (c : N) (s : jsstring) :
  startsWith s [c] = match s with [] => false | b :: _ => c =? b end.
Proof. destruct s as [|b s]; [reflexivity|]. cbn. apply andb_true_r. Qed.

Lemma split_go_clean (c : N) (s cur : jsstring) :
  ~ In c s -> split_go [c] 0 cur s = [rev cur ++ s].
Proof.
  revert cur. induction s as [|b s IH]; intros cur Hc.
  - cbn. now rewrite app_nil_r.
  - cbn [split_go]. rewrite startsWith_single.
    destruct (N.eqb_spec c b) as [->|Hne]; [exfalso; apply Hc; now left|].
    rewrite IH by (intros H; apply Hc; now right).
    cbn [rev]. now rewrite <- app_assoc.
Qed.

Lemma split_go_first (c : N) (s1 s2 cur : jsstring) :
  ~ In c s1 ->
  split_go [c] 0 cur (s1 ++ c :: s2) = (rev cur ++ s1) :: split_go [c] 0 [] s2.
Proof.
  revert cur. induction s1 as [|b s1 IH]; intros cur Hc.
  - cbn [app split_go]. rewrite startsWith_single, N.eqb_refl, app_nil_r.
    reflexivity.
  - cbn [app split_go]. rewrite startsWith_single.
    destruct (N.eqb_spec c b) as [->|Hne]; [exfalso; apply Hc; now left|].
    rewrite IH by (intros H; apply Hc; now right).
    cbn [rev]. now rewrite <- app_assoc.
Qed.

Lemma split_go_nonempty (sep : jsstring) (skip : nat) (cur s : jsstring) :
  split_go sep skip cur s <> [].
Proof.
  revert skip cur. induction s as [|b s IH]; intros skip cur; [discriminate|].
  cbn [split_go]. destruct skip; [|apply IH].
  destruct (startsWith (b :: s) sep); [discriminate | apply IH].
Qed.

Lemma join_split_go (c : N) (s cur : jsstring) :
  join (split_go [c] 0 cur s) [c] = rev cur ++ s.
Proof.
  revert cur. induction s as [|b s IH]; intros cur.
  - cbn. now rewrite app_nil_r.
  - cbn [split_go]. rewrite startsWith_single.
    destruct (N.eqb_spec c b) as [->|Hne].
    + cbn [length Nat.sub].
      pose proof (split_go_nonempty [b] 0 [] s) as Hne.
      pose proof (IH []) as IH'.
      destruct (split_go [b] 0 [] s) as [|q r]; [congruence|].
      cbn [join]. cbn [join] in IH'. rewrite IH'. reflexivity.
    + rewrite IH. cbn [rev]. now rewrite <- app_assoc.
Qed.

Lemma join_split (c : N) (s : jsstring) : join (split s [c]) [c] = s.
Proof. apply (join_split_go c s []). Qed.

Lemma split_first (c : N) (s1 s2 : jsstring) :
  ~ In c s1 -> split (s1 ++ c :: s2) [c] = s1 :: split s2 [c].
Proof. intros H. unfold split. now rewrite split_go_first. Qed.

End Bytes.

(** ** The credential vault *)

Section Vault.
Import Js Buf Aes Encryption.

Lemma decipherRun_cipherRun (rks : list state) (iv : state) (data : buffer) :
  decipherRun (rks, iv) (cipherRun (rks, iv) data) = Ok data.
Proof.
  unfold decipherRun, cipherRun.
  destruct (length_pad data) as [n Hn].
  pose proof (length_blocks_of _ _ Hn) as Hb.
  rewrite length_bytes_of, length_cbcEncrypt, Hb.
  replace ((16 * S n =? 0)%nat || negb ((16 * S n) mod 16 =? 0)%nat) with false.
  2:{ symmetry. apply orb_false_iff. split.
      - apply Nat.eqb_neq. lia.
      - apply negb_false_iff, Nat.eqb_eq.
        rewrite Nat.mul_comm. apply Nat.Div0.mod_mul. }
  rewrite blocks_of_bytes_of, cbcDecrypt_cbcEncrypt.
  rewrite (bytes_of_blocks_of _ _ Hn).
  now rewrite unpad_pad.
Qed.

(** [halves] cuts at the first delimiter. *)
Lemma halves_record (ivPart rest : jsstring) :
  ~ In 58 ivPart -> halves (ivPart ++ 58 :: rest) = Some (ivPart, rest).
Proof.
  intros Hc. unfold halves. change (lit ":") with [58].
  rewrite split_first by assumption.
  pose proof (join_split 58 rest) as Hj.
  pose proof (split_go_nonempty [58] 0 [] rest) as Hne.
  unfold split in *. destruct (split_go [58] 0 [] rest); [congruence|].
  now rewrite Hj.
Qed.

(** [decrypt] seen through the first delimiter. *)
Lemma decrypt_record (key : buffer) (ivPart rest : jsstring) :
  ~ In 58 ivPart -> ivPart <> [] ->
  decrypt key (ivPart ++ 58 :: rest) =
  match createDecipheriv key (fromHex ivPart) with
  | Throw e => Throw e
  | Ok decipher =>
      match decipherRun decipher (fromHex rest) with
      | Throw e => Throw e
      | Ok decrypted => Ok (toString decrypted)
      end
  end.
Proof.
  intros Hc Hne. unfold decrypt.
  change (lit ":") with [58].
  rewrite split_first by assumption.
  destruct ivPart as [|u ivPart]; [congruence|].
  now rewrite join_split.
Qed.

Lemma encrypt_ok (key iv : buffer) (text : jsstring) :
  length key = 32%nat -> length iv = 16%nat ->
  encrypt key iv text =
  Ok (toHex iv ++ lit ":"
        ++ toHex (cipherRun (keyExpansion key, block_of iv) (utf8Write text))).
Proof.
  intros Hk Hi. unfold encrypt, createCipheriv, IV_LENGTH.
  rewrite Hk, Hi. reflexivity.
Qed.

(** Whatever is a hexadecimal prefix of the payload is all that counts:
    characters after the first one that is no hexadecimal digit are
    dropped in silence. *)
Lemma decrypt_ignores_tail (key iv : buffer) (s : jsstring) (c : N) (tail : jsstring) :
  length key = 32%nat -> length iv = 16%nat -> wellFormed s = true ->
  hexVal c = None ->
  forall record, encrypt key iv s = Ok record ->
  decrypt key (record ++ c :: tail) = Ok s.
Proof.
  intros Hk Hi Hw Hc record He.
  rewrite encrypt_ok in He by assumption. injection He as <-.
  change (lit ":") with [58]. cbn [app]. rewrite <- !app_assoc. cbn [app].
  rewrite decrypt_record.
  - rewrite fromHex_toHex. unfold createDecipheriv, createCipheriv, IV_LENGTH.
    rewrite Hk, Hi. cbn [Nat.eqb negb].
    rewrite fromHex_toHex_app.
    replace (fromHex (c :: tail)) with (@nil byte).
    + rewrite app_nil_r.
      change (bytes_of (cbcEncrypt (keyExpansion key) (block_of iv)
                          (blocks_of (pad (utf8Write s)))))
        with (cipherRun (keyExpansion key, block_of iv) (utf8Write s)).
      rewrite decipherRun_cipherRun. now rewrite toString_utf8Write.
    + destruct tail as [|c' tail]; [reflexivity|]. cbn [fromHex]. now rewrite Hc.
  - apply toHex_no_colon.
  - intros H. apply (f_equal (@length N)) in H.
    rewrite length_toHex, Hi in H. discriminate.
Qed.

(** C4, as amended. For every well-formed string [s] (one without an
    unpaired surrogate, the empty string and non-ASCII strings included),
    [encrypt] returns the hexadecimal IV and the hexadecimal AES-256-CBC
    ciphertext of the UTF-8 bytes of [s], joined by the only [:] of the
    record, and [decrypt] of that record is [s]. *)
Theorem decrypt_encrypt_roundtrip (key iv : buffer) (s : jsstring) :
  length key = 32%nat -> length iv = 16%nat -> wellFormed s = true ->
  let payload := cipherRun (keyExpansion key, block_of iv) (utf8Write s) in
  encrypt key iv s = Ok (toHex iv ++ lit ":" ++ toHex payload)
  /\ ~ In 58 (toHex iv) /\ ~ In 58 (toHex payload)
  /\ decrypt key (toHex iv ++ lit ":" ++ toHex payload) = Ok s.
Proof.
  intros Hk Hi Hw payload.
  split; [now apply encrypt_ok|].
  split; [apply toHex_no_colon|].
  split; [apply toHex_no_colon|].
  change (lit ":") with [58]. cbn [app]. rewrite decrypt_record.
  - rewrite fromHex_toHex. unfold createDecipheriv, createCipheriv, IV_LENGTH.
    rewrite Hk, Hi. cbn [Nat.eqb negb].
    unfold payload. rewrite fromHex_toHex, decipherRun_cipherRun.
    now rewrite toString_utf8Write.
  - apply toHex_no_colon.
  - intros H. apply (f_equal (@length N)) in H.
    rewrite length_toHex, Hi in H. discriminate.
Qed.

Lemma decrypt_encrypt_roundtrip_witness :
  exists record,
    encrypt Sample.key0 Sample.iv0 Sample.accented = Ok record
    /\ decrypt Sample.key0 record = Ok Sample.accented.
Proof.
  destruct (decrypt_encrypt_roundtrip Sample.key0 Sample.iv0 Sample.accented)
    as (He & _ & _ & Hd); [reflexivity | reflexivity | reflexivity |].
  eexists. split; [exact He | exact Hd].
Defined.

(** A string holding an unpaired surrogate does not come back: the
    surrogate is written as U+FFFD. *)
Lemma roundtrip_breaks_lone_surrogate :
  exists record,
    encrypt Sample.key0 Sample.iv0 Sample.lone = Ok record
    /\ decrypt Sample.key0 record = Ok [65533]
    /\ decrypt Sample.key0 record <> Ok Sample.lone.
Proof.
  eexists. split; [vm_compute; reflexivity|].
  split; [vm_compute; reflexivity|].
  vm_compute. discriminate.
Qed.

(** C3, as amended. [decrypt] fails on every input without a delimiter,
    and on every input whose first half does not decode to the sixteen
    bytes of an IV or whose second half does not decode to a positive
    whole number of blocks, where decoding reads pairs of hexadecimal
    digits, of each code unit the low byte only, up to the first pair
    that is none. *)
Theorem decrypt_rejects (key : buffer) (text : jsstring) :
  match halves text with
  | None => True
  | Some (ivPart, payload) =>
      length (fromHex ivPart) <> 16%nat
      \/ length (fromHex payload) = 0%nat
      \/ (length (fromHex payload) mod 16)%nat <> 0%nat
  end ->
  exists e, decrypt key text = Throw e.
Proof.
  unfold halves, decrypt.
  destruct (split text (lit ":")) as [|ivPart rest]; [now eexists|].
  destruct ivPart as [|u ivPart]; [now eexists|].
  unfold createDecipheriv, createCipheriv, IV_LENGTH.
  destruct (negb (length key =? 32)%nat); [now eexists|].
  destruct rest as [|r rest].
  - intros _. destruct (negb _); [now eexists|]. cbn. now eexists.
  - intros H.
    destruct (Nat.eqb_spec (length (fromHex (u :: ivPart))) 16) as [E|E];
      cbn [negb]; [|now eexists].
    destruct H as [H|H]; [congruence|].
    unfold decipherRun.
    replace ((length (fromHex (join (r :: rest) (lit ":"))) =? 0)%nat
             || negb (length (fromHex (join (r :: rest) (lit ":"))) mod 16 =? 0)%nat)
      with true; [now eexists|].
    symmetry. apply orb_true_iff. destruct H as [H|H].
    + left. now apply Nat.eqb_eq.
    + right. now apply negb_true_iff, Nat.eqb_neq.
Qed.

Lemma decrypt_rejects_witness :
  (exists e, decrypt Sample.key0 (lit "not-a-valid-record") = Throw e)
  /\ (exists e, decrypt Sample.key0 (lit "deadbeef") = Throw e).
Proof.
  split; apply decrypt_rejects; exact I.
Defined.

(** A record followed by characters that are no hexadecimal digits has a
    second half that is not valid hexadecimal, and yet decrypts. *)
Lemma decrypt_accepts_trailing_garbage :
  halves Sample.record0zz
  = Some (lit "a0a1a2a3a4a5a6a7a8a9aaabacadaeaf",
          lit "ef7da89d8a502819545a5e0e4dc82d49zz")
  /\ validHex (lit "ef7da89d8a502819545a5e0e4dc82d49zz") = false
  /\ wellShaped Sample.record0zz = false
  /\ decrypt Sample.key0 Sample.record0zz = Ok Sample.token0.
Proof. repeat split; vm_compute; reflexivity. Qed.

End Vault.

(** ** The session handoff *)

Section Poll.
Import Js Buf Status.

Variables (key : buffer) (tmpdir : jsstring).

Lemma GET_absent (rnd : entropy) (sid : jsstring) (w : world) :
  sid <> [] -> tmp w !! resultPath tmpdir sid = None ->
  GET key tmpdir rnd (Some sid) w = (Waiting, w).
Proof.
  intros Hs Hf. unfold GET. destruct sid as [|c sid]; [congruence|].
  now rewrite Hf.
Qed.



Lemma polls_waiting (sid : jsstring) (rnds : list entropy) (w : world) :
  sid <> [] -> tmp w !! resultPath tmpdir sid = None ->
  polls key tmpdir (again sid rnds) w = (repeat Waiting (length rnds), w).
Proof.
  intros Hs Hf. induction rnds as [|rnd rnds IH]; [reflexivity|].
  cbn [again List.map polls]. fold (again sid rnds).
  rewrite GET_absent, IH by assumption. reflexivity.
Qed.

Lemma GET_unparseable (rnd : entropy) (sid data : jsstring) (w : world) :
  sid <> [] -> tmp w !! resultPath tmpdir sid = Some data ->
  Json.parse data = None ->
  GET key tmpdir rnd (Some sid) w
  = (Error500 (lit "Failed to read session data"), w).
Proof.
  intros Hs Hf Hp. unfold GET. destruct sid as [|c sid]; [congruence|].
  now rewrite Hf, Hp.
Qed.


(** C9. When the artifact exists and its content does not parse, the
    poll answers with the error status and leaves the artifact where it
    is, so every later poll of the session reads it again and answers
    with the same error, never with waiting. *)
Theorem poll_unparseable_keeps_artifact (rnd : entropy) (sid data : jsstring)
    (w : world) :
  sid <> [] -> tmp w !! resultPath tmpdir sid = Some data ->
  Json.parse data = None ->
  GET key tmpdir rnd (Some sid) w
  = (Error500 (lit "Failed to read session data"), w)
  /\ forall rnds,
       polls key tmpdir (again sid rnds) w
       = (repeat (Error500 (lit "Failed to read session data")) (length rnds), w).
Proof.
  intros Hs Hf Hp. split; [now apply GET_unparseable with data|].
  induction rnds as [|rnd' rnds IH]; [reflexivity|].
  cbn [again List.map polls]. fold (again sid rnds).
  rewrite (GET_unparseable rnd' sid data w Hs Hf Hp), IH. reflexivity.
Qed.

(** C8. The artifact is deleted before the token is encrypted and
    stored. When the artifact announces success and storing fails, the
    poll answers with the error status, the artifact is gone and the
    account table is as it was; every later poll of the session answers
    waiting and changes nothing, so the token is never stored. *)
Theorem poll_save_failure_loses_token (rnd : entropy) (sid data : jsstring)
    (result : Json.value) (status cookie : option Json.value) (w : world) :
  sid <> [] -> tmp w !! resultPath tmpdir sid = Some data ->
  Json.parse data = Some result ->
  Json.getProp result (lit "status") = Ok status ->
  strictEq status (lit "success") = true ->
  Json.getProp result (lit "cookie") = Ok cookie ->
  save key rnd cookie (accounts w) = Throw tt ->
  let w' := {| tmp := delete (resultPath tmpdir sid) (tmp w);
               accounts := accounts w |} in
  GET key tmpdir rnd (Some sid) w = (Error500 (lit "Failed to save account"), w')
  /\ tmp w' !! resultPath tmpdir sid = None
  /\ forall rnds,
       polls key tmpdir (again sid rnds) w' = (repeat Waiting (length rnds), w').
Proof.
  intros Hs Hf Hp Hst Hsu Hco Hsa w'.
  assert (Hgone : tmp w' !! resultPath tmpdir sid = None) by apply lookup_delete_eq.
  split; [|split; [exact Hgone|]].
  - unfold GET. destruct sid as [|c sid]; [congruence|].
    rewrite Hf, Hp, Hst, Hsu, Hco. cbn [accounts]. now rewrite Hsa.
  - intros rnds. now apply polls_waiting.
Qed.

End Poll.

Section PollExamples.
Import Js Buf Status Sample.



Lemma poll_unparseable_keeps_artifact_witness :
  GET key0 tmpdir0 rnd0 (Some sid0) truncated
  = (Error500 (lit "Failed to read session data"), truncated)
  /\ polls key0 tmpdir0 (again sid0 [rnd1; rnd0]) truncated
     = ([Error500 (lit "Failed to read session data");
         Error500 (lit "Failed to read session data")], truncated).
Proof.
  destruct (poll_unparseable_keeps_artifact key0 tmpdir0 rnd0 sid0 truncatedText
              truncated) as [H1 H2];
    [discriminate | reflexivity | reflexivity |].
  split; [exact H1 | exact (H2 [rnd1; rnd0])].
Defined.

Lemma poll_save_failure_loses_token_witness :
  let w' := {| tmp := delete (resultPath tmpdir0 sid0) (tmp clash);
               accounts := [account0] |} in
  GET key0 tmpdir0 rnd0 (Some sid0) clash
  = (Error500 (lit "Failed to save account"), w')
  /\ polls key0 tmpdir0 (again sid0 [rnd1]) w' = ([Waiting], w').
Proof.
  destruct (poll_save_failure_loses_token key0 tmpdir0 rnd0 sid0 successText
              (Json.Object [(lit "status", Json.String (lit "success"));
                            (lit "cookie", Json.String token0)])
              (Some (Json.String (lit "success")))
              (Some (Json.String token0)) clash) as (H1 & _ & H2);
    [discriminate | reflexivity | reflexivity | reflexivity | reflexivity
    | reflexivity | reflexivity |].
  split; [exact H1 | exact (H2 [rnd1])].
Defined.

End PollExamples.

(** ** The collection run *)

Section Collect.
Import Js Buf FetchPosts.

Lemma has_app (m : list (jsstring * Post.t)) (e : jsstring * Post.t) (k : jsstring) :
  has (m ++ [e]) k = has m k || bool_decide (e.1 = k).
Proof. unfold has. rewrite existsb_app. cbn. now rewrite orb_false_r. Qed.

Lemma filter_absorb {A} (f g : A -> bool) (l : list A) :
  (forall x, f x = true -> g x = true) ->
  List.filter f (List.filter g l) = List.filter f l.
Proof.
  intros H. induction l as [|x l IH]; [reflexivity|]. cbn.
  destruct (g x) eqn:Hg; cbn.
  - now rewrite IH.
  - destruct (f x) eqn:Hf; [apply H in Hf; congruence | exact IH].
Qed.

Lemma filter_twice {A} (f g : A -> bool) (l : list A) :
  List.filter f (List.filter g l) = List.filter (fun x => g x && f x) l.
Proof.
  induction l as [|x l IH]; [reflexivity|]. cbn.
  destruct (g x); cbn; [destruct (f x); now rewrite IH | exact IH].
Qed.

(** The invariant of the Phase 3 loop: the map holds what it held, then
    the first occurrences of the urns it did not hold. *)
Lemma dedup_fold (l : list Raw.t) (m : list (jsstring * Post.t)) (d : nat) :
  Forall (fun x => Raw.postUrn x <> []) l ->
  (fold_left dedupStep l (m, d)).1
  = m ++ List.map entryOf
           (List.filter (fun y => negb (has m (Raw.postUrn y))) (dedupSpec l)).
Proof.
  intros Hl. revert m d. induction Hl as [|x l Hx Hl IH]; intros m d.
  - cbn. now rewrite app_nil_r.
  - cbn [fold_left dedupSpec List.filter]. unfold dedupStep at 2.
    destruct (Raw.postUrn x) as [|c urn] eqn:Hu; [congruence|]. rewrite <- Hu.
    destruct (has m (Raw.postUrn x)) eqn:Hh; cbn [negb].
    + rewrite IH. f_equal. f_equal. symmetry. apply filter_absorb.
      intros y Hy. apply negb_true_iff. apply bool_decide_eq_false.
      intros E. rewrite E, Hh in Hy. discriminate.
    + rewrite IH. rewrite <- app_assoc. f_equal. cbn [List.map app].
      f_equal. f_equal. rewrite filter_twice.
      apply filter_ext. intros y. rewrite has_app. cbn [fst entryOf].
      rewrite negb_orb, andb_comm. f_equal. f_equal.
      apply bool_decide_ext. split; congruence.
Qed.

Lemma allPosts_spec (raw : list Raw.t) :
  Forall (fun x => Raw.postUrn x <> []) raw ->
  allPosts raw = firstn 30 (List.map toPost (dedupSpec raw)).
Proof.
  intros H. unfold allPosts, dedup. rewrite dedup_fold by assumption.
  cbn [app has existsb negb]. f_equal.
  rewrite List.map_map. cbn [entryOf snd].
  f_equal. clear H. induction (dedupSpec raw) as [|x l IH]; [reflexivity|].
  cbn. now rewrite IH.
Qed.

Lemma dedupSpec_NoDup (l : list Raw.t) :
  List.NoDup (List.map Raw.postUrn l) -> dedupSpec l = l.
Proof.
  induction l as [|x l IH]; [reflexivity|].
  cbn [List.map dedupSpec]. intros H. inversion H as [|? ? Hx Hl]; subst.
  f_equal. rewrite IH by assumption.
  apply forallb_filter_id. apply forallb_forall. intros y Hy.
  apply negb_true_iff, bool_decide_eq_false. intros E.
  apply Hx. rewrite <- E. now apply in_map.
Qed.

Lemma extractOne_urn (u : FeedElement) (r : Raw.t) :
  extractOne u = Some r -> Raw.postUrn r <> [].
Proof.
  unfold extractOne.
  destruct (default [] (data_urn u)) as [|c urn] eqn:E; [discriminate|].
  intros H. injection H as <-. discriminate.
Qed.

Lemma extractAll_urn (updates : list FeedElement) :
  Forall (fun x => Raw.postUrn x <> []) (extractAll updates).
Proof.
  unfold extractAll. induction updates as [|u l IH]; [constructor|].
  cbn [omap list_omap]. destruct (extractOne u) as [r|] eqn:E; [|exact IH].
  constructor; [now apply extractOne_urn with u | exact IH].
Qed.

(** Whatever the raw list, the guard of the loop keeps empty urns out. *)
Lemma dedupStep_urn (st : list (jsstring * Post.t) * nat) (x : Raw.t) :
  Forall (fun e => Post.postUrn e.2 <> []) st.1 ->
  Forall (fun e => Post.postUrn e.2 <> []) (dedupStep st x).1.
Proof.
  destruct st as [m d]. cbn [fst]. intros H. unfold dedupStep.
  destruct (Raw.postUrn x) as [|c urn] eqn:E; [exact H|]. rewrite <- E.
  destruct (has m (Raw.postUrn x)); [exact H|]. cbn [fst].
  apply Forall_app. split; [exact H|]. repeat constructor. cbn. congruence.
Qed.

Lemma dedup_urn (l : list Raw.t) (st : list (jsstring * Post.t) * nat) :
  Forall (fun e => Post.postUrn e.2 <> []) st.1 ->
  Forall (fun e => Post.postUrn e.2 <> []) (fold_left dedupStep l st).1.
Proof.
  revert st. induction l as [|x l IH]; intros st H; [exact H|].
  cbn [fold_left]. apply IH. now apply dedupStep_urn.
Qed.

Lemma in_firstn_in {A} (n : nat) (l : list A) (x : A) :
  In x (firstn n l) -> In x l.
Proof.
  intros H. rewrite <- (firstn_skipn n l). apply in_or_app. now left.
Qed.

Lemma allPosts_urn (raw : list Raw.t) :
  Forall (fun p => Post.postUrn p <> []) (allPosts raw).
Proof.
  unfold allPosts, dedup.
  pose proof (dedup_urn raw ([], 0%nat) (List.Forall_nil _)) as H.
  apply List.Forall_forall. intros p Hp. apply in_firstn_in in Hp.
  apply in_map_iff in Hp as [e [<- He]].
  rewrite List.Forall_forall in H. now apply H.
Qed.

(** C6. For every list of extracted items (each has a urn), the
    collection output is the first-occurrence deduplication by urn, in
    first-seen order, cut to its first 30 entries: A, A, B gives A, B,
    and 45 items with different urns give the first 30 of them. *)
Theorem collection_dedup_window (raw : list Raw.t) :
  Forall (fun x => Raw.postUrn x <> []) raw ->
  allPosts raw = firstn 30 (List.map toPost (dedupSpec raw))
  /\ allPosts [Sample.itemA; Sample.itemA; Sample.itemB]
     = [toPost Sample.itemA; toPost Sample.itemB]
  /\ (List.NoDup (List.map Raw.postUrn raw) -> length raw = 45%nat ->
      allPosts raw = List.map toPost (firstn 30 raw)
      /\ length (allPosts raw) = 30%nat).
Proof.
  intros H. split; [now apply allPosts_spec|]. split; [reflexivity|].
  intros Hn Hl. rewrite allPosts_spec, dedupSpec_NoDup by assumption.
  rewrite firstn_map. split; [reflexivity|].
  rewrite length_map, length_firstn. lia.
Qed.

Lemma collection_dedup_window_witness :
  allPosts Sample.items45 = List.map toPost (firstn 30 Sample.items45)
  /\ length (allPosts Sample.items45) = 30%nat.
Proof.
  destruct (collection_dedup_window Sample.items45) as (_ & _ & H).
  - apply List.Forall_forall. intros x Hx.
    apply in_map_iff in Hx as [n [<- _]]. discriminate.
  - apply H; [|reflexivity].
    apply NoDup_ListNoDup, (bool_decide_eq_true_1 _). vm_compute. reflexivity.
Defined.

(** C10. Every reference a collection run produces has a non-empty
    urn: a feed element without a [data-urn], or with an empty one, is
    skipped by the snapshot, and the loop skips an empty urn again. *)
Theorem collected_urn_nonempty (updates : list FeedElement) :
  Forall (fun p => Post.postUrn p <> []) (allPosts (extractAll updates))
  /\ Forall (fun x => Raw.postUrn x <> []) (extractAll updates)
  /\ (forall hrefs sub,
        extractOne {| data_urn := None; hrefs := hrefs; subDescription := sub |}
        = None
        /\ extractOne {| data_urn := Some []; hrefs := hrefs; subDescription := sub |}
           = None)
  /\ (forall raw, Forall (fun p => Post.postUrn p <> []) (allPosts raw)).
Proof.
  split; [apply allPosts_urn|]. split; [apply extractAll_urn|].
  split; [intros; split; reflexivity | apply allPosts_urn].
Qed.

(** C7. When the feed navigation lands on a URL that contains [login]
    or [guest], the run ends before any scroll or snapshot and writes
    nothing: the stored reference list is what it was. *)
Theorem session_invalid_aborts (key : buffer) (account : option Status.Account)
    (b : Browser) (dataFile : option (list Post.t)) :
  includes (feedUrl b) (lit "login") = true
  \/ includes (feedUrl b) (lit "guest") = true ->
  (fetchPosts key account b dataFile).2 = dataFile
  /\ ~ In Scroll (fetchPosts key account b dataFile).1
  /\ ~ In Snapshot (fetchPosts key account b dataFile).1
  /\ (forall a li_at,
        account = Some a ->
        Encryption.decrypt key (Status.li_at_encrypted a) = Ok li_at ->
        launches b = true ->
        (fetchPosts key account b dataFile).1 = [Launch; Goto feedPage; Close]).
Proof.
  intros H.
  assert (Hl : loggedOut (feedUrl b) = true).
  { unfold loggedOut. apply orb_true_iff.
    destruct H as [H|H]; rewrite H; auto. }
  unfold fetchPosts. rewrite Hl.
  repeat split.
  - repeat case_match; reflexivity.
  - repeat case_match; cbn; intuition discriminate.
  - repeat case_match; cbn; intuition discriminate.
  - intros a li_at -> Hd Hb. rewrite Hd, Hb. cbn [negb].
    repeat case_match; reflexivity.
Qed.

Lemma session_invalid_aborts_witness :
  fetchPosts Sample.key0 (Some Sample.account0) Sample.redirected (Some Sample.stored)
  = ([Launch; Goto feedPage; Close], Some Sample.stored).
Proof.
  destruct (session_invalid_aborts Sample.key0 (Some Sample.account0)
              Sample.redirected (Some Sample.stored)) as (H1 & _ & _ & H2);
    [left; reflexivity|].
  specialize (H2 Sample.account0 Sample.token0 eq_refl eq_refl eq_refl).
  destruct (fetchPosts _ _ _ _) as [trace file]. cbn [fst snd] in *.
  now rewrite H1, H2.
Defined.

End Collect.

(** ** The enrichment run *)

Section Enrich.
Import Js Buf FetchAnalytics Each.

Lemma gtZero_isZero (x : number) : gtZero x = negb (isZero x).
Proof.
  destruct x as [n|]; [|reflexivity]. cbn.
  destruct (N.eqb_spec n 0) as [->|H]; [reflexivity|].
  apply N.ltb_lt. lia.
Qed.

Lemma loop_positive (b : Browser) (targets : list Ref) (i : nat) (st : progress) :
  Forall positive (results st) ->
  Forall positive (results (loop b i targets st).1).
Proof.
  revert i st. induction targets as [|post rest IH]; intros i st H; [exact H|].
  cbn [loop]. destruct (urnOf post) as [urn|]; [|exact H].
  destruct (page b i (detailUrl urn)) as [| |d]; try (apply IH; exact H).
  destruct (isZero (digitsOrZero (impressionsText d))) eqn:E;
    apply IH; cbn [results]; [exact H|].
  apply Forall_app. split; [exact H|].
  repeat constructor; cbn. now rewrite gtZero_isZero, E.
Qed.

Lemma recount_positive (r : Enriched) : positive r -> recount r = impressions r.
Proof.
  intros [Hp He]. unfold recount.
  destruct (impressionsText (data r)) as [|c t] eqn:E; [|now rewrite He].
  rewrite He in Hp. discriminate.
Qed.

(** On what the loop accumulates, the final filter removes nothing. *)
Lemma finalResults_positive (rs : list Enriched) :
  Forall positive rs -> finalResults rs = rs.
Proof.
  intros H. unfold finalResults. apply forallb_filter_id.
  apply forallb_forall. intros r Hr.
  rewrite List.Forall_forall in H. specialize (H r Hr).
  rewrite recount_positive by assumption. apply H.
Qed.

Lemma urnOf_hasUrn (p : Ref) : hasUrn p -> urnOf p = Ok (Some (postUrn p)).
Proof. unfold hasUrn, urnOf. destruct (postUrn p); congruence. Qed.

(** What a collection run writes meets the condition, by [allPosts_urn]. *)
Lemma collected_refs_have_urn (raw : list FetchPosts.Raw.t) :
  Forall hasUrn (List.map ofPost (FetchPosts.allPosts raw)).
Proof.
  apply List.Forall_forall. intros p Hp.
  apply in_map_iff in Hp as [q [<- Hq]].
  pose proof (allPosts_urn raw) as H. rewrite List.Forall_forall in H.
  exact (H q Hq).
Qed.

Lemma loop_navigated (b : Browser) (targets : list Ref) (i : nat) (st : progress) :
  Forall hasUrn targets ->
  (loop b i targets st).2 = true
  /\ navigated (loop b i targets st).1 = navigated st ++ List.map urlOf targets.
Proof.
  intros H. revert i st. induction H as [|post rest Hp Hr IH]; intros i st.
  - cbn. now rewrite app_nil_r.
  - cbn [loop]. rewrite (urnOf_hasUrn _ Hp). fold (urlOf post).
    destruct (page b i (urlOf post)) as [| |d];
      [| |destruct (isZero (digitsOrZero (impressionsText d)))];
      (split; [apply IH|]); rewrite (proj2 (IH _ _)); cbn [navigated List.map];
      now rewrite <- app_assoc.
Qed.




Lemma fetchAnalytics_first_five (key : buffer) (posts : list Ref)
    (account : option Status.Account) (b : Browser) :
  fetchAnalytics key (Some posts) account b
  = fetchAnalytics key (Some (firstn 5 posts)) account b.
Proof.
  unfold fetchAnalytics. destruct posts as [|p posts]; [reflexivity|].
  cbn [firstn]. fold (firstn 5 (p :: posts)).
  now rewrite firstn_firstn.
Qed.

Lemma loop_results (b : Browser) (targets : list Ref) (i : nat) (st : progress) :
  Forall hasUrn targets ->
  results (loop b i targets st).1 = results st ++ enrichFrom b i targets.
Proof.
  intros H. revert i st. induction H as [|p rest Hp Hr IH]; intros i st.
  - cbn. now rewrite app_nil_r.
  - cbn [loop enrichFrom]. rewrite (urnOf_hasUrn _ Hp). fold (urlOf p).
    unfold enrichOne.
    destruct (page b i (urlOf p)) as [| |d];
      [| |destruct (isZero (digitsOrZero (impressionsText d)))];
      rewrite IH; cbn [results]; try reflexivity.
    now rewrite <- app_assoc.
Qed.

Lemma loop_logged (b : Browser) (targets : list Ref) (i : nat) (st : progress) :
  Forall hasUrn targets ->
  log (loop b i targets st).1 = log st ++ logFrom b i targets.
Proof.
  intros H. revert i st. induction H as [|p rest Hp Hr IH]; intros i st.
  - cbn. now rewrite app_nil_r.
  - cbn [loop logFrom]. rewrite (urnOf_hasUrn _ Hp). fold (urlOf p).
    unfold logOne.
    destruct (page b i (urlOf p)) as [| |d];
      [| |destruct (isZero (digitsOrZero (impressionsText d)))];
      rewrite IH; cbn [log app]; now rewrite <- !app_assoc.
Qed.

Lemma enrichFrom_positive (b : Browser) (i : nat) (posts : list Ref) :
  Forall positive (enrichFrom b i posts).
Proof.
  revert i. induction posts as [|p rest IH]; intros i; [constructor|].
  cbn [enrichFrom]. unfold enrichOne.
  destruct (page b i (urlOf p)) as [| |d]; try apply IH.
  destruct (isZero (digitsOrZero (impressionsText d))) eqn:E; [apply IH|].
  constructor; [|apply IH]. split; cbn; [|reflexivity].
  now rewrite gtZero_isZero, E.
Qed.

(** C2, as amended. The run processes the first five references of its
    input, one at a time and in order, and no others: it navigates to
    exactly these; for each of them in turn it logs that it opens the
    page and then that the page failed, that the reference is skipped
    or that its data is extracted; the artifact it writes holds, in
    order, the entries of the references whose data was extracted with
    a count that is not zero; and the run is the run on the first five
    alone. *)
Theorem enrichment_first_five (key : buffer) (posts : list Ref)
    (account : Status.Account) (li_at : jsstring) (b : Browser) :
  posts <> [] -> Forall hasUrn (firstn 5 posts) ->
  Encryption.decrypt key (Status.li_at_encrypted account) = Ok li_at ->
  launches b = true ->
  visited (fetchAnalytics key (Some posts) (Some account) b)
  = List.map urlOf (firstn 5 posts)
  /\ entries (fetchAnalytics key (Some posts) (Some account) b)
     = logFrom b 0 (firstn 5 posts)
         ++ [Saved (length (enrichFrom b 0 (firstn 5 posts))) 0]
  /\ written (fetchAnalytics key (Some posts) (Some account) b)
     = Some (enrichFrom b 0 (firstn 5 posts))
  /\ fetchAnalytics key (Some posts) (Some account) b
     = fetchAnalytics key (Some (firstn 5 posts)) (Some account) b.
Proof.
  intros Hne Hu Hd Hl.
  split; [|split; [|split; [|apply fetchAnalytics_first_five]]];
    unfold fetchAnalytics; destruct posts as [|p posts]; try congruence;
    rewrite Hd, Hl; cbn [negb];
    set (init := {| results := []; log := []; navigated := [] |});
    destruct (loop_navigated b (firstn 5 (p :: posts)) 0 init Hu) as [Hc Hn];
    pose proof (loop_results b (firstn 5 (p :: posts)) 0 init Hu) as Hr;
    pose proof (loop_logged b (firstn 5 (p :: posts)) 0 init Hu) as Hg;
    destruct (loop b 0 (firstn 5 (p :: posts)) init) as [st c];
    cbn [fst snd] in *; subst c; cbn [visited written entries];
    cbn [results log app] in Hr, Hg;
    try rewrite (finalResults_positive (results st))
      by (rewrite Hr; apply enrichFrom_positive).
  - exact Hn.
  - rewrite Hg, Hr, Nat.sub_diag. reflexivity.
  - now rewrite Hr.
Qed.

Lemma enrichment_first_five_witness :
  visited Sample.run6 = List.map urlOf (firstn 5 Sample.six)
  /\ written Sample.run6 = Some (enrichFrom Sample.pages 0 (firstn 5 Sample.six)).
Proof.
  destruct (enrichment_first_five Sample.key0 Sample.six Sample.account0
              Sample.token0 Sample.pages) as (H1 & _ & H2 & _);
    [discriminate | repeat constructor; discriminate | reflexivity | reflexivity |].
  split; [exact H1 | exact H2].
Defined.

(** Of six references the sixth is never opened. *)
Lemma enrichment_skips_sixth :
  length Sample.six = 6%nat
  /\ length (visited Sample.run6) = 5%nat
  /\ ~ In (urlOf (Sample.ref "p6")) (visited Sample.run6)
  /\ visited Sample.run6 <> List.map urlOf Sample.six.
Proof.
  split; [reflexivity|]. split; [reflexivity|].
  split; vm_compute; [intuition discriminate | discriminate].
Qed.




End Enrich.

(** * Further properties *)

Section VaultMore.
Import Js Buf Aes Encryption Wtf.

Lemma replacement_cp (rest : buffer) :
  utf8Slice None (replacement ++ rest) = 65533 :: utf8Slice None rest.
Proof.
  change replacement with (utf8_of_cp 65533).
  rewrite utf8Slice_cp; [reflexivity|]. unfold scalar. lia.
Qed.

Lemma toString_utf8Write_any_le (n : nat) (s : jsstring) :
  (length s <= n)%nat -> units s -> toString (utf8Write s) = toWellFormed s.
Proof.
  unfold toString, units. revert s.
  induction n as [|n IH]; intros s Hn Hu.
  - destruct s; [reflexivity | cbn in Hn; lia].
  - destruct s as [|u rest]; [reflexivity|].
    inversion Hu as [|? ? Hu1 Hu2]; subst.
    cbn [utf8Write toWellFormed].
    destruct (isHigh u) eqn:Hh.
    + destruct rest as [|v rest'].
      * rewrite <- (app_nil_r replacement). now rewrite replacement_cp.
      * destruct (isLow v) eqn:Hl.
        -- destruct (surrogates_cp u v Hh Hl) as [Hsc Hp].
           rewrite utf8Slice_cp, Hp by assumption. cbn [app].
           inversion Hu2; subst.
           rewrite IH; [reflexivity | cbn in Hn; lia | assumption].
        -- rewrite replacement_cp.
           rewrite IH; [reflexivity | cbn in *; lia | assumption].
    + destruct (isLow u) eqn:Hl.
      * rewrite replacement_cp.
        rewrite IH; [reflexivity | cbn in Hn; lia | assumption].
      * rewrite utf8Slice_cp.
        -- unfold units_of_cp.
           replace (u <? 65536) with true by (symmetry; now apply N.ltb_lt).
           cbn [app]. rewrite IH; [reflexivity | cbn in Hn; lia | assumption].
        -- unfold isHigh, isLow in *. unfold scalar.
           rewrite andb_false_iff, !N.leb_gt in *. lia.
Qed.

Lemma toString_utf8Write_any (s : jsstring) :
  units s -> toString (utf8Write s) = toWellFormed s.
Proof. apply (toString_utf8Write_any_le (length s)). lia. Qed.

(** Decrypting what [encrypt] returned gives the UTF-8 reading of the
    UTF-8 writing of the text. *)
Lemma decrypt_encrypt_bytes (key iv : buffer) (s record : jsstring) :
  encrypt key iv s = Ok record ->
  length key = 32%nat /\ length iv = 16%nat
  /\ decrypt key record = Ok (toString (utf8Write s)).
Proof.
  intros H.
  assert (Hl : length key = 32%nat /\ length iv = 16%nat).
  { unfold encrypt, createCipheriv, IV_LENGTH in H.
    destruct (Nat.eqb_spec (length key) 32); [|discriminate].
    destruct (Nat.eqb_spec (length iv) 16); [|discriminate]. now split. }
  destruct Hl as [Hk Hi]. split; [assumption|]. split; [assumption|].
  rewrite encrypt_ok in H by assumption.
  assert (E : record = toHex iv ++ lit ":"
                ++ toHex (cipherRun (keyExpansion key, block_of iv) (utf8Write s)))
    by congruence.
  subst record. clear H.
  change (lit ":") with [58]. cbn [app]. rewrite decrypt_record.
  - rewrite fromHex_toHex. unfold createDecipheriv, createCipheriv, IV_LENGTH.
    rewrite Hk, Hi. cbn [Nat.eqb negb].
    now rewrite fromHex_toHex, decipherRun_cipherRun.
  - apply toHex_no_colon.
  - intros H. apply (f_equal (@length N)) in H.
    rewrite length_toHex, Hi in H. discriminate.
Qed.

(** X1. With a 32-byte key and a 16-byte IV, encrypt returns a record
    for every string, and decrypt of that record returns the string with
    each unpaired surrogate replaced by U+FFFD. *)
Theorem decrypt_encrypt_toWellFormed (key iv : buffer) (s : jsstring) :
  length key = 32%nat -> length iv = 16%nat -> units s ->
  exists record,
    encrypt key iv s = Ok record
    /\ decrypt key record = Ok (toWellFormed s).
Proof.
  intros Hk Hi Hu. eexists. split; [now apply encrypt_ok|].
  rewrite <- (toString_utf8Write_any s Hu).
  eapply decrypt_encrypt_bytes. now apply encrypt_ok.
Qed.

Lemma decrypt_encrypt_toWellFormed_witness :
  exists record,
    encrypt Sample.key0 Sample.iv0 [104; 56320; 105] = Ok record
    /\ decrypt Sample.key0 record = Ok [104; 65533; 105].
Proof.
  apply (decrypt_encrypt_toWellFormed Sample.key0 Sample.iv0 [104; 56320; 105]);
    [reflexivity | reflexivity | repeat constructor].
Defined.


(** *** The format check *)

Lemma split_go_head (c : N) (s cur : jsstring) :
  exists p r, split_go [c] 0 cur s = (rev cur ++ p) :: r.
Proof.
  revert cur. induction s as [|b s IH]; intros cur.
  - exists [], []. cbn. now rewrite app_nil_r.
  - cbn [split_go]. rewrite startsWith_single.
    destruct (c =? b).
    + exists [], (split_go [c] (length [c] - 1) [] s). now rewrite app_nil_r.
    + destruct (IH (b :: cur)) as (p & r & E). rewrite E.
      exists (b :: p), r. cbn [rev]. now rewrite <- app_assoc.
Qed.

(** X2. decrypt throws its own 'Invalid encrypted text format' error
    exactly when the text is empty or begins with the delimiter ':'. *)
Theorem decrypt_format_error (key : buffer) (text : jsstring) :
  decrypt key text = Throw InvalidFormat
  <-> match text with
      | [] => True
      | c :: _ => c = 58
      end.
Proof.
  split.
  - destruct text as [|c t]; [trivial|].
    destruct (N.eq_dec c 58) as [E|E]; [trivial|]. intros H. exfalso.
    unfold decrypt, split in H. change (lit ":") with [58] in H.
    cbn [split_go] in H. rewrite startsWith_single in H.
    replace (58 =? c) with false in H by (symmetry; apply N.eqb_neq; congruence).
    destruct (split_go_head 58 t [c]) as (p & r & Hs). rewrite Hs in H.
    cbn [rev app] in H.
    unfold createDecipheriv, createCipheriv in H.
    destruct (negb (length key =? 32)%nat); [discriminate|].
    destruct (negb _); [discriminate|].
    unfold decipherRun in H.
    destruct (_ || _); [discriminate|].
    destruct (unpad _); discriminate.
  - destruct text as [|c t]; [reflexivity|]. intros ->.
    unfold decrypt. change (lit ":") with [58].
    change (58 :: t) with ([] ++ 58 :: t).
    now rewrite (split_first 58 [] t) by (intros []).
Qed.

(** *** The shape of a record *)

Lemma length_pad_exact (l : buffer) :
  length (pad l) = (16 * (length l / 16 + 1))%nat.
Proof.
  unfold pad. rewrite length_app, repeat_length.
  pose proof (Nat.div_mod_eq (length l) 16).
  pose proof (Nat.mod_upper_bound (length l) 16). lia.
Qed.

Lemma length_cipherRun (rks : list state) (iv : state) (data : buffer) :
  length (cipherRun (rks, iv) data) = (16 * (length data / 16 + 1))%nat.
Proof.
  unfold cipherRun.
  rewrite length_bytes_of, length_cbcEncrypt.
  now rewrite (length_blocks_of _ _ (length_pad_exact data)).
Qed.

Lemma encrypt_inv (key iv : buffer) (s record : jsstring) :
  encrypt key iv s = Ok record ->
  length key = 32%nat /\ length iv = 16%nat
  /\ record = toHex iv ++ lit ":"
                ++ toHex (cipherRun (keyExpansion key, block_of iv) (utf8Write s)).
Proof.
  intros H.
  assert (Hl : length key = 32%nat /\ length iv = 16%nat).
  { unfold encrypt, createCipheriv, IV_LENGTH in H.
    destruct (Nat.eqb_spec (length key) 32); [|discriminate].
    destruct (Nat.eqb_spec (length iv) 16); [|discriminate]. now split. }
  destruct Hl as [Hk Hi]. split; [assumption|]. split; [assumption|].
  rewrite encrypt_ok in H by assumption. congruence.
Qed.

(** X3. A record returned by encrypt is the 32 hexadecimal digits of the
    IV, one ':' and the hexadecimal digits of the ciphertext: its length
    is 65 + 32 * floor(n / 16) for a text of n UTF-8 bytes, its first 32
    characters decode to the IV that was drawn, and both halves are
    valid hexadecimal. *)
Theorem record_shape (key iv : buffer) (s record : jsstring) :
  encrypt key iv s = Ok record ->
  length record = (65 + 32 * (length (utf8Write s) / 16))%nat
  /\ firstn 32 record = toHex iv
  /\ nth_error record 32 = Some 58
  /\ fromHex (firstn 32 record) = iv
  /\ validHex (firstn 32 record) = true
  /\ validHex (skipn 33 record) = true.
Proof.
  intros H. destruct (encrypt_inv _ _ _ _ H) as (Hk & Hi & ->).
  pose proof (length_toHex iv) as Hli. rewrite Hi in Hli.
  assert (Hf : firstn 32 (toHex iv ++ lit ":" ++
                 toHex (cipherRun (keyExpansion key, block_of iv) (utf8Write s)))
               = toHex iv).
  { rewrite firstn_app, Hli, Nat.sub_diag. cbn [firstn].
    rewrite app_nil_r. apply firstn_all2. lia. }
  assert (Hv : forall b, validHex (toHex b) = true).
  { intros b. unfold validHex. apply andb_true_iff. split.
    - induction b as [|x b IH]; [reflexivity|].
      cbn [toHex flat_map app forallb]. fold (toHex b). rewrite IH.
      destruct x; reflexivity.
    - rewrite length_toHex. induction (length b) as [|n IHn]; [reflexivity|].
      replace (2 * S n)%nat with (S (S (2 * n))) by lia. exact IHn. }
  split; [|split; [exact Hf|split; [|split; [|split]]]].
  - rewrite !length_app, Hli, length_toHex, length_cipherRun.
    change (length (lit ":")) with 1%nat. lia.
  - rewrite nth_error_app2 by lia. rewrite Hli. reflexivity.
  - rewrite Hf. apply fromHex_toHex.
  - rewrite Hf. apply Hv.
  - rewrite skipn_app, Hli.
    replace (skipn 33 (toHex iv)) with (@nil N) by (symmetry; apply skipn_all2; lia).
    cbn [app Nat.sub skipn lit List.map list_ascii_of_string]. apply Hv.
Qed.

Lemma record_shape_witness :
  length Sample.record0 = 65%nat /\ fromHex (firstn 32 Sample.record0) = Sample.iv0.
Proof.
  destruct (record_shape Sample.key0 Sample.iv0 Sample.token0 Sample.record0)
    as (H1 & _ & _ & H2 & _); [reflexivity|].
  split; [exact H1 | exact H2].
Defined.

(** X4. Two calls of encrypt that draw different IVs return different
    records, whatever the two texts are. *)
Theorem fresh_iv_fresh_record (key iv iv' : buffer) (s s' record record' : jsstring) :
  encrypt key iv s = Ok record -> encrypt key iv' s' = Ok record' ->
  iv <> iv' -> record <> record'.
Proof.
  intros H H' Hne E.
  destruct (encrypt_inv _ _ _ _ H) as (_ & _ & Hr).
  destruct (encrypt_inv _ _ _ _ H') as (_ & _ & Hr').
  assert (Hc : forall t, fromHex (lit ":" ++ t) = []) by (now intros [|c t]).
  apply (f_equal fromHex) in Hr, Hr'.
  rewrite fromHex_toHex_app, Hc, app_nil_r in Hr, Hr'.
  congruence.
Qed.

Lemma fresh_iv_fresh_record_witness :
  exists record',
    encrypt Sample.key0 (rev Sample.iv0) Sample.token0 = Ok record'
    /\ Sample.record0 <> record'.
Proof.
  eexists. split; [vm_compute; reflexivity|].
  apply (fresh_iv_fresh_record Sample.key0 Sample.iv0 (rev Sample.iv0)
           Sample.token0 Sample.token0);
    [reflexivity | vm_compute; reflexivity | discriminate].
Defined.

(** *** Upper-case hexadecimal *)

Lemma hexUpper_cases (c : N) :
  hexUpper c = c
  \/ c = 97 \/ c = 98 \/ c = 99 \/ c = 100 \/ c = 101 \/ c = 102.
Proof.
  unfold hexUpper.
  destruct ((97 <=? c) && (c <=? 102)) eqn:E; [right|now left].
  apply andb_true_iff in E as [E1 E2]. apply N.leb_le in E1, E2. lia.
Qed.

Lemma hexVal_hexUpper (c : N) : hexVal (hexUpper c) = hexVal c.
Proof.
  destruct (hexUpper_cases c) as [->|H]; [reflexivity|].
  repeat (destruct H as [->|H]; [reflexivity|]). now subst.
Qed.

Lemma hexUpper_colon (c : N) : (58 =? hexUpper c) = (58 =? c).
Proof.
  destruct (hexUpper_cases c) as [->|H]; [reflexivity|].
  repeat (destruct H as [->|H]; [reflexivity|]). now subst.
Qed.

Lemma fromHex_hexUpper (s : jsstring) :
  fromHex (List.map hexUpper s) = fromHex s.
Proof.
  revert s. fix IH 1. intros [|a [|b s]]; [reflexivity | reflexivity |].
  cbn [List.map fromHex]. rewrite !hexVal_hexUpper.
  destruct (hexVal a), (hexVal b); try reflexivity. now rewrite IH.
Qed.

Lemma split_go_hexUpper (s cur : jsstring) :
  split_go [58] 0 (List.map hexUpper cur) (List.map hexUpper s)
  = List.map (List.map hexUpper) (split_go [58] 0 cur s).
Proof.
  revert cur. induction s as [|b s IH]; intros cur.
  - cbn. now rewrite map_rev.
  - cbn [List.map split_go]. rewrite !startsWith_single, hexUpper_colon.
    destruct (58 =? b).
    + cbn [List.map length Nat.sub]. rewrite map_rev. f_equal. apply (IH []).
    + apply (IH (b :: cur)).
Qed.

Lemma join_hexUpper (parts : list jsstring) :
  join (List.map (List.map hexUpper) parts) [58]
  = List.map hexUpper (join parts [58]).
Proof.
  induction parts as [|p [|q r] IH]; [reflexivity | reflexivity |].
  cbn [List.map join] in *. rewrite IH, !List.map_app. reflexivity.
Qed.

(** X5. decrypt does not depend on the case of the hexadecimal digits: a
    text whose letters a to f are written in upper case has the same
    outcome, result or error, as the text itself. *)
Theorem decrypt_hex_case (key : buffer) (text : jsstring) :
  decrypt key (List.map hexUpper text) = decrypt key text.
Proof.
  unfold decrypt, split. change (lit ":") with [58].
  pose proof (split_go_hexUpper text []) as Hs. cbn [List.map] in Hs.
  rewrite Hs.
  destruct (split_go [58] 0 [] text) as [|ivPart rest]; [reflexivity|].
  cbn [List.map]. destruct ivPart as [|u ivPart]; [reflexivity|].
  cbn [List.map]. change (hexUpper u :: List.map hexUpper ivPart)
    with (List.map hexUpper (u :: ivPart)).
  now rewrite join_hexUpper, !fromHex_hexUpper.
Qed.

End VaultMore.

Section PollMore.
Import Js Buf Status.
Variables (key : buffer) (tmpdir : jsstring).

(** X6. A poll creates no file and changes the content of none: every
    path keeps what it held, except the one path that [path.join] makes
    of the temporary directory and the session id of the request, whose
    file may be deleted. *)
Theorem poll_frame (rnd : entropy) (sid : option jsstring) (w : world)
    (p : jsstring) :
  tmp (GET key tmpdir rnd sid w).2 !! p = tmp w !! p
  \/ (exists s, sid = Some s /\ p = resultPath tmpdir s
                /\ is_Some (tmp w !! p)
                /\ tmp (GET key tmpdir rnd sid w).2 !! p = None).
Proof.
  unfold GET.
  destruct sid as [[|c s]|]; [now left| |now left].
  destruct (tmp w !! resultPath tmpdir (c :: s)) as [data|] eqn:Hf; [|now left].
  destruct (Json.parse data) as [result|]; [|now left].
  assert (Hd : delete (resultPath tmpdir (c :: s)) (tmp w) !! p = tmp w !! p
               \/ (exists s0, Some (c :: s) = Some s0 /\ p = resultPath tmpdir s0
                   /\ is_Some (tmp w !! p)
                   /\ delete (resultPath tmpdir (c :: s)) (tmp w) !! p = None)).
  { destruct (decide (p = resultPath tmpdir (c :: s))) as [->|Hne].
    - right. exists (c :: s). rewrite Hf, lookup_delete_eq. eauto.
    - left. now apply lookup_delete_ne. }
  repeat case_match; cbn [snd tmp]; exact Hd.
Qed.

(** X7. The account table changes only in a poll that answers
    'connected', and then by one row appended at its end, whose id is
    the uuid drawn and was the id of no earlier row; in every other poll
    the table stays as it is. *)
Theorem poll_appends (rnd : entropy) (sid : option jsstring) (w : world) :
  ((GET key tmpdir rnd sid w).1 = Connected
   /\ exists li_at_encrypted,
        accounts (GET key tmpdir rnd sid w).2
        = accounts w ++ [{| id := uuid rnd; user_id := lit "demo-user";
                            li_at_encrypted := li_at_encrypted;
                            created_at := now rnd |}]
        /\ Forall (fun r => id r <> uuid rnd) (accounts w))
  \/ ((GET key tmpdir rnd sid w).1 <> Connected
      /\ accounts (GET key tmpdir rnd sid w).2 = accounts w).
Proof.
  unfold GET.
  destruct sid as [[|c s]|]; [now right| |now right].
  destruct (tmp w !! _) as [data|]; [|now right].
  destruct (Json.parse data) as [result|]; [|now right].
  destruct (Json.getProp result (lit "status")) as [status|]; [|now right].
  destruct (strictEq status _); [|now right].
  destruct (Json.getProp result (lit "cookie")) as [cookie|]; [|now right].
  cbn [accounts].
  destruct (save key rnd cookie (accounts w)) as [table|] eqn:Hs; [|now right].
  left. split; [reflexivity|]. cbn [snd accounts].
  unfold save in Hs. destruct cookie as [[| | |c0| |]|]; try discriminate.
  destruct (Encryption.encrypt key (iv rnd) c0) as [enc|]; [|discriminate].
  unfold insert in Hs.
  destruct (existsb _ (accounts w)) eqn:He; [discriminate|].
  injection Hs as <-. exists enc. split; [reflexivity|].
  apply List.Forall_forall. intros r Hr E.
  assert (Ht : existsb (fun r0 => bool_decide (id r0 = uuid rnd)) (accounts w) = true).
  { apply existsb_exists. exists r. split; [assumption|].
    now apply bool_decide_eq_true_2. }
  cbn [id] in He. congruence.
Qed.

(** X8. When a poll answers 'connected', the row it appended holds a
    record that decrypts to the cookie string of the artifact as UTF-8
    writes and reads it, which is the cookie itself when it is well
    formed. *)
Theorem poll_stores_cookie (rnd : entropy) (sid data : jsstring)
    (result : Json.value) (w w' : world) :
  tmp w !! resultPath tmpdir sid = Some data ->
  Json.parse data = Some result ->
  GET key tmpdir rnd (Some sid) w = (Connected, w') ->
  exists cookie row,
    Json.getProp result (lit "cookie") = Ok (Some (Json.String cookie))
    /\ accounts w' = accounts w ++ [row]
    /\ Encryption.decrypt key (li_at_encrypted row)
       = Ok (Buf.toString (Buf.utf8Write cookie))
    /\ (wellFormed cookie = true ->
        Encryption.decrypt key (li_at_encrypted row) = Ok cookie).
Proof.
  intros Hf Hp. unfold GET. destruct sid as [|c s]; [discriminate|].
  rewrite Hf, Hp.
  destruct (Json.getProp result (lit "status")) as [status|]; [|discriminate].
  destruct (strictEq status _); [|discriminate].
  destruct (Json.getProp result (lit "cookie")) as [cookie|]; [|discriminate].
  cbn [accounts].
  destruct (save key rnd cookie (accounts w)) as [table|] eqn:Hs; [|discriminate].
  intros H. injection H as <-.
  unfold save in Hs. destruct cookie as [[| | |c0| |]|]; try discriminate.
  destruct (Encryption.encrypt key (iv rnd) c0) as [enc|] eqn:He; [|discriminate].
  unfold insert in Hs. destruct (existsb _ _); [discriminate|].
  injection Hs as <-.
  destruct (decrypt_encrypt_bytes _ _ _ _ He) as (_ & _ & Hd).
  eexists c0, _. split; [reflexivity|]. split; [reflexivity|].
  cbn [li_at_encrypted]. split; [exact Hd|].
  intros Hw. now rewrite Hd, toString_utf8Write.
Qed.

End PollMore.

Lemma poll_stores_cookie_witness :
  exists row,
    Status.accounts
      (Status.GET Sample.key0 Sample.tmpdir0 Sample.rnd0 (Some Sample.sid0)
         Sample.fresh).2 = [row]
    /\ Encryption.decrypt Sample.key0 (Status.li_at_encrypted row)
       = Ok Sample.token0.
Proof.
  destruct (poll_stores_cookie Sample.key0 Sample.tmpdir0 Sample.rnd0 Sample.sid0
              Sample.successText
              (Json.Object [(Js.lit "status", Json.String (Js.lit "success"));
                            (Js.lit "cookie", Json.String Sample.token0)])
              Sample.fresh
              (Status.GET Sample.key0 Sample.tmpdir0 Sample.rnd0 (Some Sample.sid0)
                 Sample.fresh).2)
    as (cookie & row & Hc & Ha & _ & Hd); [reflexivity | reflexivity | reflexivity |].
  exists row. split; [exact Ha|].
  injection Hc as <-. apply Hd. reflexivity.
Defined.

(** *** Session ids with segments *)

Section PathFacts.
Import Js Buf Status.

Lemma split_go_app (c : N) (x y cur : jsstring) :
  split_go [c] 0 cur (x ++ c :: y)
  = split_go [c] 0 cur x ++ split_go [c] 0 [] y.
Proof.
  revert cur. induction x as [|b x IH]; intros cur.
  - cbn [app split_go]. rewrite startsWith_single, N.eqb_refl. reflexivity.
  - cbn [app split_go]. rewrite !startsWith_single.
    destruct (c =? b); [|apply IH].
    cbn [length Nat.sub app]. now rewrite IH.
Qed.

Lemma split_app (c : N) (x y : jsstring) :
  split (x ++ c :: y) [c] = split x [c] ++ split y [c].
Proof. apply split_go_app. Qed.

(** A segment followed by [..] leaves no trace. *)
Lemma keep_detour (a : bool) (pre post : list jsstring) (seg : jsstring) :
  seg <> [] -> seg <> lit "." -> seg <> lit ".." ->
  fold_left (Path.keep a) (pre ++ seg :: lit ".." :: post) []
  = fold_left (Path.keep a) (pre ++ post) [].
Proof.
  intros H1 H2 H3. rewrite !fold_left_app. cbn [fold_left]. f_equal.
  generalize (fold_left (Path.keep a) pre []). intros res.
  unfold Path.keep at 2.
  rewrite (bool_decide_eq_false_2 _ H1), (bool_decide_eq_false_2 _ H2),
    (bool_decide_eq_false_2 _ H3). cbn [orb].
  unfold Path.keep.
  rewrite (bool_decide_eq_true_2 (lit ".." = lit "..") eq_refl).
  rewrite (bool_decide_eq_false_2 _ H3).
  reflexivity.
Qed.

Lemma last_app_json (x : jsstring) : List.last (x ++ lit ".json") 0 = 110.
Proof.
  replace (x ++ lit ".json") with ((x ++ lit ".jso") ++ [110]).
  - apply last_last.
  - rewrite <- app_assoc. reflexivity.
Qed.

Lemma last_app_nonempty {A} (l x : list A) (d : A) :
  x <> [] -> List.last (l ++ x) d = List.last x d.
Proof.
  intros H. induction l as [|a l IH]; [reflexivity|].
  cbn [app]. rewrite <- IH. cbn [List.last].
  destruct (l ++ x) eqn:E; [|reflexivity].
  apply app_eq_nil in E as [_ E]. congruence.
Qed.

Lemma normalize_same (p q : jsstring) (c : N) (p' q' : jsstring) :
  p = c :: p' -> q = c :: q' ->
  List.last p 0 = List.last q 0 ->
  (forall a, Path.normalizeString p a = Path.normalizeString q a) ->
  Path.normalize p = Path.normalize q.
Proof.
  intros -> -> Hl Hn. unfold Path.normalize. now rewrite Hl, Hn.
Qed.

Lemma resultPath_detour (tmpdir sid : jsstring) :
  resultPath tmpdir (lit "x/../linkedin-session-" ++ sid)
  = resultPath tmpdir sid.
Proof.
  unfold resultPath.
  set (name := lit "linkedin-session-" ++ sid ++ lit ".json").
  assert (E : lit "linkedin-session-" ++ (lit "x/../linkedin-session-" ++ sid)
                ++ lit ".json"
              = lit "linkedin-session-x" ++ 47 :: lit ".." ++ 47 :: name).
  { unfold name. rewrite <- !app_assoc. reflexivity. }
  rewrite E. clear E.
  set (other := lit "linkedin-session-x" ++ 47 :: lit ".." ++ 47 :: name).
  assert (Hn : exists n', name = 108 :: n') by (eexists; reflexivity).
  assert (Ho : exists o', other = 108 :: o') by (eexists; reflexivity).
  destruct Hn as [n' Hn], Ho as [o' Ho].
  assert (Hln : List.last name 0 = 110).
  { unfold name. rewrite app_assoc. apply last_app_json. }
  assert (Hlo : List.last other 0 = 110).
  { unfold other, name.
    replace (lit "linkedin-session-x" ++ 47 :: lit ".." ++ 47
               :: lit "linkedin-session-" ++ sid ++ lit ".json")
      with ((lit "linkedin-session-x" ++ 47 :: lit ".." ++ 47
               :: lit "linkedin-session-" ++ sid) ++ lit ".json")
      by (rewrite <- !app_assoc; reflexivity).
    apply last_app_json. }
  assert (Hs : split other [47]
               = lit "linkedin-session-x" :: lit ".." :: split name [47]).
  { unfold other. rewrite split_app.
    change (lit ".." ++ 47 :: name) with (lit ".." ++ 47 :: name).
    rewrite split_app. reflexivity. }
  assert (Hd : forall a pre,
             fold_left (Path.keep a) (pre ++ split other [47]) []
             = fold_left (Path.keep a) (pre ++ split name [47]) []).
  { intros a pre. rewrite Hs. apply keep_detour; discriminate. }
  destruct tmpdir as [|c t].
  - unfold Path.join. rewrite Ho, Hn. rewrite <- Ho, <- Hn.
    apply (normalize_same other name 108 o' n'); try assumption.
    + congruence.
    + intros a. unfold Path.normalizeString. change (lit "/") with [47].
      now rewrite (Hd a [] : fold_left (Path.keep a) (split other [47]) []
                             = fold_left (Path.keep a) (split name [47]) []).
  - unfold Path.join. rewrite Ho, Hn. rewrite <- Ho, <- Hn.
    change (lit "/") with [47]. cbn [app].
    apply (normalize_same _ _ c (t ++ 47 :: other) (t ++ 47 :: name));
      try reflexivity.
    + change (c :: t ++ 47 :: other) with ((c :: t) ++ [47] ++ other).
      change (c :: t ++ 47 :: name) with ((c :: t) ++ [47] ++ name).
      rewrite !app_assoc.
      rewrite (last_app_nonempty _ other) by (rewrite Ho; discriminate).
      rewrite (last_app_nonempty _ name) by (rewrite Hn; discriminate).
      congruence.
    + intros a. unfold Path.normalizeString. change (lit "/") with [47].
      change (c :: t ++ 47 :: other) with ((c :: t) ++ 47 :: other).
      change (c :: t ++ 47 :: name) with ((c :: t) ++ 47 :: name).
      now rewrite !split_app, Hd.
Qed.

(** X29. The session id of a request is not confined to its own
    artifact: [path.join] resolves the segments of the id, so for every
    session id that is not empty, a poll of the id made of
    [x/../linkedin-session-] and that id reads, answers and deletes what
    a poll of that id itself would. *)
Theorem poll_crosses_sessions (key : buffer) (tmpdir : jsstring) (rnd : entropy)
    (sid : jsstring) (w : world) :
  sid <> [] ->
  resultPath tmpdir (lit "x/../linkedin-session-" ++ sid)
  = resultPath tmpdir sid
  /\ GET key tmpdir rnd (Some (lit "x/../linkedin-session-" ++ sid)) w
     = GET key tmpdir rnd (Some sid) w.
Proof.
  intros Hs. split; [apply resultPath_detour|].
  unfold GET. rewrite resultPath_detour.
  destruct sid as [|c sid']; [congruence | reflexivity].
Qed.

End PathFacts.

Lemma poll_crosses_sessions_witness :
  (Status.GET Sample.key0 Sample.tmpdir0 Sample.rnd0
     (Some (Js.lit "x/../linkedin-session-" ++ Sample.sid0)) Sample.fresh).1
  = Status.Connected.
Proof.
  rewrite (proj2 (poll_crosses_sessions Sample.key0 Sample.tmpdir0 Sample.rnd0
                    Sample.sid0 Sample.fresh ltac:(discriminate))).
  vm_compute. reflexivity.
Defined.


Section JsMore.
Import Js.

Lemma trimStart_length (s : jsstring) : (length (trimStart s) <= length s)%nat.
Proof.
  induction s as [|c s IH]; [reflexivity|]. cbn [trimStart].
  destruct (isSpace c); cbn [length]; lia.
Qed.

Lemma trimStart_fixed (c : N) (s : jsstring) :
  trimStart (c :: s) = c :: s <-> isSpace c = false.
Proof.
  cbn [trimStart]. destruct (isSpace c); [|tauto].
  split; [|discriminate]. intros H.
  pose proof (trimStart_length s) as Hl. rewrite H in Hl. cbn in Hl. lia.
Qed.

Lemma trimStart_idem (s : jsstring) : trimStart (trimStart s) = trimStart s.
Proof.
  induction s as [|c s IH]; [reflexivity|]. cbn [trimStart].
  destruct (isSpace c) eqn:E; [exact IH|]. cbn [trimStart]. now rewrite E.
Qed.

Lemma trimStart_suffix (s : jsstring) : exists p, s = p ++ trimStart s.
Proof.
  induction s as [|c s [p IH]]; [now exists []|]. cbn [trimStart].
  destruct (isSpace c); [|now exists []].
  exists (c :: p). cbn. now rewrite <- IH.
Qed.

(** What [trim] returns has no white space at either end. *)
Lemma trim_clean (s : jsstring) :
  trimStart (trim s) = trim s /\ trimStart (rev (trim s)) = rev (trim s).
Proof.
  unfold trim. set (A := trimStart s).
  assert (HA : trimStart A = A) by apply trimStart_idem.
  set (B := trimStart (rev A)).
  assert (HB : trimStart B = B) by apply trimStart_idem.
  split; [|now rewrite rev_involutive].
  destruct (trimStart_suffix (rev A)) as [p Hp]. fold B in Hp.
  apply (f_equal (@rev N)) in Hp. rewrite rev_involutive, rev_app_distr in Hp.
  destruct (rev B) as [|x t] eqn:E; [reflexivity|].
  apply trimStart_fixed. rewrite Hp in HA. cbn [app] in HA.
  now apply trimStart_fixed in HA.
Qed.

Lemma trim_idem (s : jsstring) : trim (trim s) = trim s.
Proof.
  destruct (trim_clean s) as [H1 H2].
  unfold trim at 1. now rewrite H1, H2, rev_involutive.
Qed.

Lemma trimStart_in (s : jsstring) (x : N) : In x (trimStart s) -> In x s.
Proof.
  destruct (trimStart_suffix s) as [p Hp]. intros H.
  rewrite Hp. apply in_or_app. now right.
Qed.

Lemma trim_in (s : jsstring) (x : N) : In x (trim s) -> In x s.
Proof.
  unfold trim. intros H. apply in_rev in H. apply trimStart_in in H.
  apply in_rev in H. now apply trimStart_in in H.
Qed.

(** The first part of a split holds no separator. *)
Lemma split_go_hd_clean (c : N) (s cur : jsstring) :
  ~ In c cur -> ~ In c (hd [] (split_go [c] 0 cur s)).
Proof.
  revert cur. induction s as [|b s IH]; intros cur Hc.
  - cbn. now rewrite <- in_rev.
  - cbn [split_go]. rewrite startsWith_single.
    destruct (N.eqb_spec c b) as [->|Hne].
    + cbn [hd]. now rewrite <- in_rev.
    + apply IH. intros [E|E]; [congruence | contradiction].
Qed.

Lemma split_hd_clean (c : N) (s : jsstring) : ~ In c (hd [] (split s [c])).
Proof. apply split_go_hd_clean. intros []. Qed.

(** The count is positive exactly when the text holds a digit other
    than zero. *)
Lemma fold_digits_zero (s : jsstring) (acc : N) :
  Forall (fun c => isDigit c = true) s ->
  (fold_left (fun a c => 10 * a + (c - 48)) s acc = 0
   <-> acc = 0 /\ Forall (fun c => c = 48) s).
Proof.
  intros H. revert acc. induction H as [|c s Hc Hs IH]; intros acc.
  - cbn. split; [intros ->; split; [reflexivity | constructor] | tauto].
  - cbn [fold_left]. rewrite IH.
    unfold isDigit in Hc. apply andb_true_iff in Hc as [H1 H2].
    apply N.leb_le in H1, H2.
    split.
    + intros [E Hf]. split; [lia|]. constructor; [lia | assumption].
    + intros [-> Hf]. inversion Hf; subst. split; [reflexivity | assumption].
Qed.

Lemma toDouble_gtZero (n : N) : gtZero (toDouble n) = (0 <? n).
Proof.
  unfold toDouble. destruct (N.ltb_spec n (2 ^ 53)) as [Hs|Hb]; [reflexivity|].
  assert (Hn : 0 < n).
  { apply N.lt_le_trans with (2 ^ 53); [|exact Hb].
    apply N.neq_0_lt_0, N.pow_nonzero. discriminate. }
  rewrite (proj2 (N.ltb_lt 0 n) Hn).
  set (e := N.log2 n - 52). set (q := N.shiftr n e).
  set (q' := if _ : bool then q + 1 else q).
  destruct (N.shiftl q' e <? 2 ^ 1024); [|reflexivity].
  cbn [gtZero]. apply N.ltb_lt.
  assert (Hq : 0 < q).
  { unfold q. rewrite N.shiftr_div_pow2. apply N.div_str_pos. split.
    - apply N.neq_0_lt_0, N.pow_nonzero. discriminate.
    - apply N.le_trans with (2 ^ N.log2 n).
      + apply N.pow_le_mono_r; [discriminate|]. unfold e. apply N.le_sub_l.
      + now apply N.log2_spec. }
  assert (Hq' : 0 < q') by (unfold q'; destruct (_ : bool); lia).
  rewrite N.shiftl_mul_pow2. apply N.mul_pos_pos; [exact Hq'|].
  apply N.neq_0_lt_0, N.pow_nonzero. discriminate.
Qed.

(** X9. The count read from a text, parseInt(text.replace(/[^0-9]/g,
    ''), 10) || 0, is positive exactly when the text holds one of the
    digits 1 to 9. *)
Theorem digitsOrZero_positive (s : jsstring) :
  gtZero (digitsOrZero s) = true <-> exists c, In c s /\ 49 <= c /\ c <= 57.
Proof.
  unfold digitsOrZero, parseDigits, keepDigits.
  assert (Hd : Forall (fun c => isDigit c = true) (List.filter isDigit s)).
  { apply List.Forall_forall. intros c Hc. now apply filter_In in Hc. }
  pose proof (fold_digits_zero _ 0 Hd) as Hz.
  split.
  - intros Hp.
    destruct (List.filter isDigit s) as [|d ds] eqn:E; [discriminate|].
    rewrite <- E in *. rewrite toDouble_gtZero in Hp. apply N.ltb_lt in Hp.
    assert (Hn : ~ Forall (fun c => c = 48) (List.filter isDigit s)).
    { intros Hf. assert (fold_left (fun a c => 10 * a + (c - 48))
                           (List.filter isDigit s) 0 = 0) by (apply Hz; auto).
      lia. }
    apply neg_Forall_Exists_neg in Hn; [|intros x; apply N.eq_dec].
    apply List.Exists_exists in Hn as (c & Hc & Hne).
    apply filter_In in Hc as [Hin Hdig].
    unfold isDigit in Hdig. apply andb_true_iff in Hdig as [H1 H2].
    apply N.leb_le in H1, H2. exists c. repeat split; [assumption | lia | lia].
  - intros (c & Hin & H1 & H2).
    assert (Hf : In c (List.filter isDigit s)).
    { apply filter_In. split; [assumption|]. unfold isDigit.
      apply andb_true_iff. split; apply N.leb_le; lia. }
    destruct (List.filter isDigit s) as [|d ds] eqn:E; [destruct Hf|].
    rewrite <- E in *. rewrite toDouble_gtZero. apply N.ltb_lt.
    apply N.neq_0_lt_0. intros Hzero. apply Hz in Hzero as [_ Hall].
    rewrite List.Forall_forall in Hall. specialize (Hall c Hf). lia.
Qed.

End JsMore.

Section CollectMore.
Import Js Buf FetchPosts Inv.

Lemma has_In (m : list (jsstring * Post.t)) (k : jsstring) :
  has m k = true <-> In k (List.map fst m).
Proof.
  unfold has. rewrite existsb_exists, in_map_iff. split.
  - intros (e & He & Hk). exists e. split; [|assumption].
    now apply bool_decide_eq_true_1 in Hk.
  - intros (e & Hk & He). exists e. split; [assumption|].
    now apply bool_decide_eq_true_2.
Qed.

Lemma dedupStep_inv (seen : list Raw.t) (st : list (jsstring * Post.t) * nat)
    (x : Raw.t) :
  dedupInv seen st -> dedupInv (seen ++ [x]) (dedupStep st x).
Proof.
  destruct st as [m d]. unfold dedupInv. cbn [fst snd].
  intros (Hn & Hf & Hc).
  assert (Hf' : Forall (fun e => exists x0, In x0 (seen ++ [x]) /\ e = entryOf x0) m).
  { eapply List.Forall_impl; [|exact Hf]. intros e (y & Hy & ->).
    exists y. split; [apply in_or_app; now left | reflexivity]. }
  rewrite List.filter_app, length_app. cbn [List.filter].
  unfold dedupStep.
  destruct (Raw.postUrn x) as [|c u] eqn:Hu.
  - cbn [fst snd]. rewrite bool_decide_eq_true_2 by reflexivity.
    cbn [negb length]. repeat split; [assumption | assumption | lia].
  - rewrite <- Hu. rewrite bool_decide_eq_false_2 by congruence.
    cbn [negb length].
    destruct (has m (Raw.postUrn x)) eqn:Hh; cbn [fst snd].
    + repeat split; [assumption | assumption | lia].
    + split; [|split].
      * rewrite List.map_app. cbn [List.map entryOf fst].
        apply List.NoDup_app; [assumption | repeat constructor; intros [] |].
        intros k Hk [<-|[]]. apply has_In in Hk. congruence.
      * apply Forall_app. split; [assumption|]. repeat constructor.
        exists x. split; [apply in_or_app; right; now left | reflexivity].
      * rewrite length_app. cbn [length]. lia.
Qed.

Lemma dedup_fold_inv (l seen : list Raw.t) (st : list (jsstring * Post.t) * nat) :
  dedupInv seen st -> dedupInv (seen ++ l) (fold_left dedupStep l st).
Proof.
  revert seen st. induction l as [|x l IH]; intros seen st H.
  - now rewrite app_nil_r.
  - cbn [fold_left]. replace (seen ++ x :: l) with ((seen ++ [x]) ++ l)
      by now rewrite <- app_assoc.
    apply IH. now apply dedupStep_inv.
Qed.

Lemma dedup_inv (l : list Raw.t) : dedupInv l (dedup l).
Proof.
  apply (dedup_fold_inv l [] ([], 0%nat)).
  repeat split; [constructor | constructor].
Qed.

(** X10. When every extracted item has a urn, the entries of the map of
    unique posts and the duplicates counted by the Phase 3 loop add up
    to the number of extracted items. *)
Theorem dedup_counts (allExtracted : list Raw.t) :
  Forall (fun x => Raw.postUrn x <> []) allExtracted ->
  (length (dedup allExtracted).1 + (dedup allExtracted).2)%nat
  = length allExtracted.
Proof.
  intros H. destruct (dedup_inv allExtracted) as (_ & _ & Hc). rewrite Hc.
  f_equal. apply forallb_filter_id. apply forallb_forall. intros x Hx.
  rewrite List.Forall_forall in H.
  apply negb_true_iff, bool_decide_eq_false_2. now apply H.
Qed.

Lemma NoDup_firstn {A} (n : nat) (l : list A) : List.NoDup l -> List.NoDup (firstn n l).
Proof.
  intros H. rewrite <- (firstn_skipn n l) in H. now apply NoDup_app_remove_r in H.
Qed.

Lemma dedup_keys (l : list Raw.t) :
  List.map Post.postUrn (List.map snd (dedup l).1) = List.map fst (dedup l).1.
Proof.
  destruct (dedup_inv l) as (_ & Hf & _).
  induction Hf as [|e m (x & _ & ->) _ IH]; [reflexivity|].
  cbn [List.map]. now rewrite IH.
Qed.

Lemma extractOne_source (u : FeedElement) (x : Raw.t) :
  extractOne u = Some x -> data_urn u = Some (Raw.postUrn x).
Proof.
  unfold extractOne.
  destruct (data_urn u) as [[|c urn]|]; cbn [default]; try discriminate.
  intros H. now injection H as <-.
Qed.

Lemma extractAll_source (updates : list FeedElement) (x : Raw.t) :
  In x (extractAll updates) -> exists u, In u updates /\ extractOne u = Some x.
Proof.
  unfold extractAll. induction updates as [|u l IH]; [intros []|].
  cbn [omap list_omap]. destruct (extractOne u) as [y|] eqn:E.
  - intros [<-|H]; [exists u; split; [now left | assumption]|].
    destruct (IH H) as (v & Hv & Ev). exists v. split; [now right | assumption].
  - intros H. destruct (IH H) as (v & Hv & Ev). exists v. split; [now right | assumption].
Qed.

(** X11. The references kept from a feed snapshot are at most 30, their
    urns are pairwise different, and each urn is the data-urn attribute
    of an element of the snapshot. *)
Theorem collected_unique_bounded (updates : list FeedElement) :
  (length (allPosts (extractAll updates)) <= 30)%nat
  /\ List.NoDup (List.map Post.postUrn (allPosts (extractAll updates)))
  /\ Forall (fun p => exists u, In u updates /\ data_urn u = Some (Post.postUrn p))
       (allPosts (extractAll updates)).
Proof.
  unfold allPosts. split; [apply firstn_le_length|]. split.
  - rewrite <- firstn_map. apply NoDup_firstn.
    rewrite dedup_keys. apply (dedup_inv (extractAll updates)).
  - apply List.Forall_forall. intros p Hp. apply in_firstn_in in Hp.
    apply in_map_iff in Hp as (e & <- & He).
    destruct (dedup_inv (extractAll updates)) as (_ & Hf & _).
    rewrite List.Forall_forall in Hf. destruct (Hf e He) as (x & Hx & ->).
    destruct (extractAll_source _ _ Hx) as (u & Hu & Eu).
    exists u. split; [assumption|]. cbn. now apply extractOne_source.
Qed.

Lemma extractOne_fields (u : FeedElement) (x : Raw.t) :
  extractOne u = Some x ->
  Raw.postUrl x <> []
  /\ trim (Raw.timeText x) = Raw.timeText x
  /\ ~ In 8226 (Raw.timeText x)
  /\ (List.find isPostLink (hrefs u) = None ->
      Raw.postUrl x
      = lit "https://www.linkedin.com/feed/update/" ++ Raw.postUrn x ++ lit "/")
  /\ (forall href, List.find isPostLink (hrefs u) = Some href ->
      hd [] (split href (lit "?")) <> [] ->
      Raw.postUrl x = hd [] (split href (lit "?")) /\ ~ In 63 (Raw.postUrl x)).
Proof.
  unfold extractOne.
  destruct (default [] (data_urn u)) as [|c urn]; [discriminate|].
  intros H. injection H as <-. cbn [Raw.postUrl Raw.timeText Raw.postUrn].
  split; [|split; [|split; [|split]]].
  - destruct (List.find isPostLink (hrefs u)) as [href|]; [|discriminate].
    destruct (hd [] (split href (lit "?"))) eqn:E; [discriminate|].
    discriminate.
  - destruct (subDescription u) as [[a own]|]; [apply trim_idem | reflexivity].
  - destruct (subDescription u) as [[a own]|]; [|intros []].
    intros H. apply trim_in in H. revert H. apply split_hd_clean.
  - intros ->. reflexivity.
  - intros href -> Hne.
    destruct (hd [] (split href (lit "?"))) as [|h t] eqn:E; [congruence|].
    split; [reflexivity|]. rewrite <- E. apply split_hd_clean.
Qed.

(** X12. Every reference kept from a feed snapshot has a postUrl that is
    not empty, and a posted_at that has no white space at either end and
    holds no bullet character. *)
Theorem collected_fields (updates : list FeedElement) :
  Forall (fun p => Post.postUrl p <> []
                   /\ trim (Post.posted_at p) = Post.posted_at p
                   /\ ~ In 8226 (Post.posted_at p))
    (allPosts (extractAll updates)).
Proof.
  apply List.Forall_forall. intros p Hp. unfold allPosts in Hp.
  apply in_firstn_in in Hp. apply in_map_iff in Hp as (e & <- & He).
  destruct (dedup_inv (extractAll updates)) as (_ & Hf & _).
  rewrite List.Forall_forall in Hf. destruct (Hf e He) as (x & Hx & ->).
  destruct (extractAll_source _ _ Hx) as (u & Hu & Eu).
  destruct (extractOne_fields _ _ Eu) as (H1 & H2 & H3 & _).
  cbn. auto.
Qed.

(** X13. When the navigation to the activity page or the snapshot throws
    after the session was found valid, the run leaves the reference file
    as it was and never closes the browser it launched. *)
Theorem fetchPosts_leaves_browser_open (key : buffer)
    (account : option Status.Account) (b : Browser)
    (dataFile : option (list Post.t)) (e : jsstring) :
  In (Goto activityUrl) (fetchPosts key account b dataFile).1 ->
  activityGoto b = Throw e \/ feed b = Throw e ->
  (fetchPosts key account b dataFile).2 = dataFile
  /\ In Launch (fetchPosts key account b dataFile).1
  /\ ~ In Close (fetchPosts key account b dataFile).1.
Proof.
  unfold fetchPosts.
  destruct account as [a|]; [|intros []].
  destruct (Encryption.decrypt key _); [|intros []].
  destruct (negb (launches b)); [cbn; intuition discriminate|].
  destruct (match feedGoto b with Ok _ => false | Throw e0 => redirectLoop e0 end);
    [cbn; intuition discriminate|].
  destruct (loggedOut (feedUrl b)); [cbn; intuition discriminate|].
  intros _ H.
  destruct (activityGoto b) as [|e1].
  - destruct H as [H|H]; [discriminate|]. rewrite H. cbn [fst snd].
    split; [reflexivity|]. split; [now left|].
    cbn. intuition discriminate.
  - cbn. intuition discriminate.
Qed.

End CollectMore.

Section EnrichMore.
Import Js Buf FetchAnalytics Each.

Lemma fetchAnalytics_run (key : buffer) (posts : list Ref)
    (account : Status.Account) (li_at : jsstring) (b : Browser) :
  posts <> [] -> Forall hasUrn (firstn 5 posts) ->
  Encryption.decrypt key (Status.li_at_encrypted account) = Ok li_at ->
  launches b = true ->
  written (fetchAnalytics key (Some posts) (Some account) b)
  = Some (enrichFrom b 0 (firstn 5 posts))
  /\ visited (fetchAnalytics key (Some posts) (Some account) b)
     = List.map urlOf (firstn 5 posts).
Proof.
  intros Hne Hu Hd Hl. unfold fetchAnalytics.
  destruct posts as [|p posts]; [congruence|].
  rewrite Hd, Hl. cbn [negb].
  pose proof (loop_navigated b (firstn 5 (p :: posts)) 0
                {| results := []; log := []; navigated := [] |} Hu) as [Hc Hn].
  pose proof (loop_results b (firstn 5 (p :: posts)) 0
                {| results := []; log := []; navigated := [] |} Hu) as Hr.
  destruct (loop b 0 (firstn 5 (p :: posts)) _) as [st c].
  cbn [fst snd] in *. subst c. cbn [written visited]. split.
  - rewrite Hr. cbn [results app].
    f_equal. apply finalResults_positive, enrichFrom_positive.
  - assumption.
Qed.

(** X14. The enrichment artifact is made reference by reference: for a
    non-empty input whose first five references have a urn, it holds, in
    input order, the entry of each of these references whose page was
    extracted with an impression count that is not zero, with the count
    as [parseInt] gives it (the nearest double, Infinity included), and
    nothing else. *)
Theorem enrichment_itemwise (key : buffer) (posts : list Ref)
    (account : Status.Account) (li_at : jsstring) (b : Browser) :
  posts <> [] -> Forall hasUrn (firstn 5 posts) ->
  Encryption.decrypt key (Status.li_at_encrypted account) = Ok li_at ->
  launches b = true ->
  written (fetchAnalytics key (Some posts) (Some account) b)
  = Some (enrichFrom b 0 (firstn 5 posts)).
Proof.
  intros Hne Hu Hd Hl. now apply (fetchAnalytics_run key posts account li_at b).
Qed.

Lemma loop_aborts (b : Browser) (pre : list Ref) (p : Ref) (rest : list Ref)
    (i : nat) (st : progress) :
  Forall hasUrn pre -> urnOf p = Throw tt ->
  (loop b i (pre ++ p :: rest) st).2 = false
  /\ navigated (loop b i (pre ++ p :: rest) st).1
     = navigated st ++ List.map urlOf pre.
Proof.
  intros H Hp. revert i st. induction H as [|q pre Hq Hpre IH]; intros i st.
  - cbn [app loop]. rewrite Hp. cbn. now rewrite app_nil_r.
  - cbn [app loop]. rewrite (urnOf_hasUrn _ Hq). fold (urlOf q).
    destruct (page b i (urlOf q)) as [| |d];
      [| |destruct (isZero (digitsOrZero (impressionsText d)))];
      (split; [apply IH|]); rewrite (proj2 (IH _ _)); cbn [navigated List.map];
      now rewrite <- app_assoc.
Qed.

(** X15. A reference among the first five that has neither urn nor url
    ends the run: the references before it have been opened, it and the
    later ones are not, the fatal error is logged and no enrichment
    artifact is written, also for the references already processed. *)
Theorem enrichment_aborts_without_urn (key : buffer) (pre : list Ref) (p : Ref)
    (rest : list Ref) (account : Status.Account) (li_at : jsstring) (b : Browser) :
  (length pre < 5)%nat -> Forall hasUrn pre ->
  postUrn p = [] -> url p = None ->
  Encryption.decrypt key (Status.li_at_encrypted account) = Ok li_at ->
  launches b = true ->
  written (fetchAnalytics key (Some (pre ++ p :: rest)) (Some account) b) = None
  /\ visited (fetchAnalytics key (Some (pre ++ p :: rest)) (Some account) b)
     = List.map urlOf pre
  /\ In Fatal (entries (fetchAnalytics key (Some (pre ++ p :: rest)) (Some account) b)).
Proof.
  intros Hlen Hpre Hu Hurl Hd Hl.
  assert (Hp : urnOf p = Throw tt) by (unfold urnOf; now rewrite Hu, Hurl).
  unfold fetchAnalytics.
  destruct (pre ++ p :: rest) as [|q l] eqn:E; [now destruct pre|].
  rewrite Hd, Hl. cbn [negb]. rewrite <- E.
  rewrite firstn_app.
  rewrite (firstn_all2 pre) by lia.
  destruct (5 - length pre)%nat as [|k] eqn:Hk; [lia|]. cbn [firstn].
  pose proof (loop_aborts b pre p (firstn k rest) 0
                {| results := []; log := []; navigated := [] |} Hpre Hp) as [Hc Hn].
  destruct (loop b 0 (pre ++ p :: firstn k rest) _) as [st c].
  cbn [fst snd] in *. subst c. cbn [written visited entries navigated app] in *.
  split; [reflexivity|]. split; [assumption|].
  apply in_or_app. right. now left.
Qed.

(** X16. Enrichment run on what collection wrote needs no assumption on
    the references: it opens the update page of the urn of each of the
    first five collected references, in order, writes the artifact made
    reference by reference, and logs no fatal error. *)
Theorem enrichment_of_collection (key : buffer) (raw : list FetchPosts.Raw.t)
    (account : Status.Account) (li_at : jsstring) (b : Browser) :
  FetchPosts.allPosts raw <> [] ->
  Encryption.decrypt key (Status.li_at_encrypted account) = Ok li_at ->
  launches b = true ->
  let posts := List.map ofPost (FetchPosts.allPosts raw) in
  written (fetchAnalytics key (Some posts) (Some account) b)
  = Some (enrichFrom b 0 (firstn 5 posts))
  /\ visited (fetchAnalytics key (Some posts) (Some account) b)
     = List.map
         (fun p => lit "https://www.linkedin.com/feed/update/"
                     ++ FetchPosts.Post.postUrn p ++ lit "/")
         (firstn 5 (FetchPosts.allPosts raw))
  /\ ~ In Fatal (entries (fetchAnalytics key (Some posts) (Some account) b)).
Proof.
  intros Hne Hd Hl posts.
  assert (Hp : posts <> []).
  { unfold posts. destruct (FetchPosts.allPosts raw); [congruence | discriminate]. }
  assert (Hu : Forall hasUrn posts) by apply collected_refs_have_urn.
  assert (Hu5 : Forall hasUrn (firstn 5 posts)).
  { apply List.Forall_forall. intros p H. apply in_firstn_in in H.
    rewrite List.Forall_forall in Hu. now apply Hu. }
  destruct (fetchAnalytics_run key posts account li_at b Hp Hu5 Hd Hl) as [Hw Hv].
  split; [exact Hw|]. split.
  - rewrite Hv. unfold posts. rewrite firstn_map, !List.map_map.
    reflexivity.
  - unfold fetchAnalytics. destruct posts as [|q l] eqn:E; [congruence|].
    rewrite Hd, Hl. cbn [negb]. rewrite <- E in *.
    pose proof (loop_navigated b (firstn 5 posts) 0
                  {| results := []; log := []; navigated := [] |} Hu5) as [Hc _].
    assert (Hf : forall ts i st, ~ In Fatal (log st) ->
                   ~ In Fatal (log (loop b i ts st).1)).
    { induction ts as [|t ts IH]; intros i st H; [exact H|].
      cbn [loop]. destruct (urnOf t); [|exact H].
      destruct (page b i _) as [| |d];
        [| |destruct (isZero (digitsOrZero (impressionsText d)))];
        apply IH; cbn [log]; rewrite !in_app_iff; cbn; intuition discriminate. }
    specialize (Hf (firstn 5 posts) 0%nat
                  {| results := []; log := []; navigated := [] |}).
    destruct (loop b 0 (firstn 5 posts) _) as [st c].
    cbn [fst snd] in *. subst c. cbn [entries].
    rewrite in_app_iff. intros [H|[H|[]]]; [|discriminate].
    revert H. apply Hf. intros [].
Qed.

Lemma loop_log_saved (b : Browser) (targets : list Ref) (i : nat) (st : progress)
    (kept skipped : nat) :
  ~ In (Saved kept skipped) (log st) ->
  ~ In (Saved kept skipped) (log (loop b i targets st).1).
Proof.
  revert i st. induction targets as [|t ts IH]; intros i st H; [exact H|].
  cbn [loop]. destruct (urnOf t); [|exact H].
  destruct (page b i _) as [| |d];
    [| |destruct (isZero (digitsOrZero (impressionsText d)))];
    apply IH; cbn [log]; rewrite !in_app_iff; cbn; intuition discriminate.
Qed.

(** X17. The final filter of the enrichment run removes nothing:
    whenever the run logs its 'Saved' line, the number of entries it
    reports as skipped there is 0, also when references were skipped in
    the loop, and the number it reports as saved is the length of the
    artifact written. *)
Theorem saved_reports_no_skips (key : buffer) (postsFile : option (list Ref))
    (account : option Status.Account) (b : Browser) (kept skipped : nat) :
  In (Saved kept skipped) (entries (fetchAnalytics key postsFile account b)) ->
  skipped = 0%nat
  /\ exists l, written (fetchAnalytics key postsFile account b) = Some l
               /\ length l = kept.
Proof.
  unfold fetchAnalytics.
  destruct postsFile as [[|p posts]|]; try (cbn; intuition discriminate).
  destruct account as [a|]; try (cbn; intuition discriminate).
  destruct (Encryption.decrypt key _); try (cbn; intuition discriminate).
  destruct (negb (launches b)); try (cbn; intuition discriminate).
  pose proof (loop_positive b (firstn 5 (p :: posts)) 0
                {| results := []; log := []; navigated := [] |}
                (List.Forall_nil _)) as Hpos.
  pose proof (loop_log_saved b (firstn 5 (p :: posts)) 0
                {| results := []; log := []; navigated := [] |} kept skipped
                (fun H => H)) as Hlog.
  destruct (loop b 0 (firstn 5 (p :: posts)) _) as [st completed].
  cbn [fst] in Hpos, Hlog.
  rewrite (finalResults_positive _ Hpos).
  destruct completed; cbn [entries written]; rewrite in_app_iff; cbn [In].
  - intros [H|[H|[]]]; [contradiction|].
    injection H as <- <-. split; [lia|]. now eexists.
  - intros [H|[H|[]]]; [contradiction | discriminate].
Qed.

End EnrichMore.

Section EnvFacts.
Import Js Env.

Lemma trimStart_keeps (s : jsstring) (x : N) :
  In x s -> isSpace x = false -> In x (trimStart s).
Proof.
  induction s as [|c s IH]; [intros []|]. cbn [trimStart].
  destruct (isSpace c) eqn:E; [|auto].
  intros [->|H] Hx; [congruence | auto].
Qed.

Lemma trim_keeps (s : jsstring) (x : N) :
  In x s -> isSpace x = false -> In x (trim s).
Proof.
  intros H Hx. unfold trim. apply -> in_rev.
  apply trimStart_keeps; [|assumption]. apply -> in_rev.
  now apply trimStart_keeps.
Qed.

Lemma indexOf_firstn (s : jsstring) (c : N) (i : nat) :
  indexOf s c = Some i ->
  ~ In c (firstn i s) /\ nth_error s i = Some c /\ (i < length s)%nat.
Proof.
  revert i. induction s as [|b s IH]; intros i; [discriminate|].
  cbn [indexOf]. destruct (N.eqb_spec b c) as [->|Hne].
  - intros H. injection H as <-. cbn. split; [tauto|]. split; [reflexivity | lia].
  - destruct (indexOf s c) as [j|]; [|discriminate].
    intros H. injection H as <-. destruct (IH j eq_refl) as (H1 & H2 & H3).
    cbn. split; [|split; [assumption | lia]]. intros [E|E]; [congruence | tauto].
Qed.

Lemma unquote_in (v : jsstring) (x : N) : In x (unquote v) -> In x v.
Proof.
  unfold unquote. destruct v as [|q rest]; [trivial|].
  destruct (rev rest) as [|q' inner] eqn:E; [trivial|].
  destruct (_ && _); [|trivial].
  intros H. right. apply in_rev. rewrite E. right. now apply in_rev in H.
Qed.

Lemma firstn_in {A} (n : nat) (l : list A) (x : A) : In x (firstn n l) -> In x l.
Proof. intros H. rewrite <- (firstn_skipn n l). apply in_or_app. now left. Qed.

Lemma skipn_in {A} (n : nat) (l : list A) (x : A) : In x (skipn n l) -> In x l.
Proof. intros H. rewrite <- (firstn_skipn n l). apply in_or_app. now right. Qed.

(** X18. Whatever a line of .env.local binds, the name is not empty, has
    no white space at either end and holds neither '=' nor '#', the
    value holds no '#', and every character of the name and of the value
    is a character of the line. *)
Theorem parseLine_binding (line key val : jsstring) :
  parseLine line = Some (key, val) ->
  key <> [] /\ trim key = key
  /\ ~ In 61 key /\ ~ In 35 key /\ ~ In 35 val
  /\ (forall x, In x key \/ In x val -> In x line).
Proof.
  unfold parseLine.
  set (pre := hd [] (split line (lit "#"))).
  assert (Hpre : ~ In 35 pre) by apply split_hd_clean.
  assert (Hsub : forall x, In x pre -> In x line).
  { intros x Hx. unfold pre, split in Hx.
    assert (G : forall s cur, In x (hd [] (split_go (lit "#") 0 cur s)) ->
                              In x cur \/ In x s).
    { induction s as [|b s IH]; intros cur H.
      - cbn in H. left. now apply in_rev.
      - cbn [split_go] in H. destruct (startsWith (b :: s) (lit "#")).
        + cbn in H. left. now apply in_rev.
        + destruct (IH _ H) as [[<-|G]|G]; [right; now left | now left | right; now right]. }
    destruct (G _ _ Hx) as [[]|]; assumption. }
  set (cl := trim pre).
  assert (Hcl : forall x, In x cl -> In x pre) by (intros x; apply trim_in).
  destruct cl as [|c0 cr] eqn:Ecl; [discriminate|]. rewrite <- Ecl in *.
  destruct (indexOf cl 61) as [[|i]|] eqn:Ei; try discriminate.
  intros H. injection H as <- <-.
  destruct (indexOf_firstn _ _ _ Ei) as (Hno & _ & _).
  assert (Hhead : isSpace c0 = false).
  { pose proof (proj1 (trim_clean pre)) as Ht. fold cl in Ht. rewrite Ecl in Ht.
    now apply trimStart_fixed in Ht. }
  split; [|split; [|split; [|split; [|split]]]].
  - assert (Hin : In c0 (trim (firstn (S i) cl))).
    { apply trim_keeps; [|assumption]. rewrite Ecl. now left. }
    intros E. rewrite E in Hin. destruct Hin.
  - apply trim_idem.
  - intros H. apply Hno. now apply trim_in.
  - intros H. apply Hpre, Hcl. eapply firstn_in. eapply trim_in. exact H.
  - intros H. apply Hpre, Hcl. eapply skipn_in. eapply trim_in.
    eapply unquote_in. exact H.
  - intros x [H|H]; apply Hsub, Hcl.
    + eapply firstn_in. eapply trim_in. exact H.
    + eapply skipn_in. eapply trim_in. eapply unquote_in. exact H.
Qed.


Lemma trimStart_blank (a s : jsstring) : blank a -> trimStart (a ++ s) = trimStart s.
Proof.
  intros H. induction H as [|c a Hc Ha IH]; [reflexivity|].
  cbn [app trimStart]. now rewrite Hc.
Qed.

Lemma trimStart_tight_app (x s : jsstring) :
  x <> [] -> trimStart x = x -> trimStart (x ++ s) = x ++ s.
Proof.
  destruct x as [|c x]; [congruence|]. intros _ H.
  apply trimStart_fixed in H. cbn [app]. now apply trimStart_fixed.
Qed.

Lemma blank_rev (a : jsstring) : blank a -> blank (rev a).
Proof. unfold blank. apply Forall_rev. Qed.

Lemma trim_pad (a x b : jsstring) :
  blank a -> blank b -> tight x -> trim (a ++ x ++ b) = x.
Proof.
  intros Ha Hb [H1 H2]. unfold trim. rewrite trimStart_blank by assumption.
  destruct x as [|c x].
  - cbn [app]. pose proof (trimStart_blank b [] Hb) as E.
    rewrite app_nil_r in E. rewrite E. reflexivity.
  - rewrite trimStart_tight_app by (congruence || assumption).
    rewrite rev_app_distr, trimStart_blank by now apply blank_rev.
    now rewrite H2, rev_involutive.
Qed.

Lemma tight_app (x y : jsstring) :
  x <> [] -> y <> [] -> trimStart x = x -> trimStart (rev y) = rev y ->
  tight (x ++ y).
Proof.
  intros Hx Hy H1 H2. split.
  - now apply trimStart_tight_app.
  - rewrite rev_app_distr. apply trimStart_tight_app; [|assumption].
    intros E. apply (f_equal (@rev N)) in E. rewrite rev_involutive in E.
    now apply Hy.
Qed.

Lemma indexOf_app (s t : jsstring) (c : N) :
  ~ In c s -> indexOf (s ++ c :: t) c = Some (length s).
Proof.
  induction s as [|b s IH]; intros H.
  - cbn. now rewrite N.eqb_refl.
  - cbn [app indexOf length].
    destruct (N.eqb_spec b c) as [->|Hne]; [exfalso; apply H; now left|].
    rewrite IH by (intros G; apply H; now right). reflexivity.
Qed.

Lemma blank_not_in (a : jsstring) (c : N) : blank a -> isSpace c = false -> ~ In c a.
Proof.
  intros Ha Hc H. unfold blank in Ha. rewrite List.Forall_forall in Ha.
  specialize (Ha c H). congruence.
Qed.

Lemma hd_split_clean (c : N) (s : jsstring) (tail : option jsstring) :
  ~ In c s ->
  hd [] (split (s ++ match tail with Some t => c :: t | None => [] end) [c]) = s.
Proof.
  intros H. unfold split. destruct tail as [t|].
  - now rewrite split_go_first.
  - rewrite app_nil_r, split_go_clean by assumption. reflexivity.
Qed.

Lemma unquote_quoted (q q' : N) (inner : jsstring) :
  isQuote q = true -> isQuote q' = true ->
  Forall (fun c => isLineTerminator c = false) inner ->
  unquote (q :: inner ++ [q']) = inner.
Proof.
  intros Hq Hq' Hi. unfold unquote.
  rewrite rev_app_distr. cbn [rev app]. rewrite Hq, Hq'. cbn [andb].
  replace (forallb (fun c => negb (isLineTerminator c)) (rev inner)) with true.
  - apply rev_involutive.
  - symmetry. apply forallb_forall. intros c Hc. apply in_rev in Hc.
    rewrite List.Forall_forall in Hi. now rewrite (Hi c Hc).
Qed.

Lemma parseLine_clean (line c : jsstring) :
  trim (hd [] (split line [35])) = c -> c <> [] ->
  parseLine line =
  match indexOf c 61 with
  | Some (S i) =>
      Some (trim (firstn (S i) c), unquote (trim (skipn (S i + 1) c)))
  | _ => None
  end.
Proof.
  intros E H. unfold parseLine. change (lit "#") with [35]. rewrite E.
  destruct c; [congruence | reflexivity].
Qed.

(** X19. A line of the form name = value, with any white space around
    the name and the value and an optional comment after '#', binds the
    name to the value without the one pair of quotes around it, provided
    the name is not empty and holds neither '=' nor '#', the value holds
    no '#', and neither has white space at its ends. *)
Theorem parseLine_written (p1 key p2 p3 val p4 : jsstring) (comment : option jsstring) :
  blank p1 -> blank p2 -> blank p3 -> blank p4 ->
  key <> [] -> tight key -> ~ In 61 key -> ~ In 35 key ->
  tight val -> ~ In 35 val ->
  parseLine (p1 ++ key ++ p2 ++ [61] ++ p3 ++ val ++ p4
               ++ match comment with Some t => 35 :: t | None => [] end)
  = Some (key, unquote val).
Proof.
  intros B1 B2 B3 B4 Hk Tk Hk61 Hk35 Tv Hv35.
  assert (S35 : isSpace 35 = false) by reflexivity.
  assert (S61 : isSpace 61 = false) by reflexivity.
  assert (N35 : ~ In 35 (p1 ++ key ++ p2 ++ [61] ++ p3 ++ val ++ p4)).
  { rewrite !in_app_iff. cbn [In].
    pose proof (blank_not_in _ 35 B1 S35). pose proof (blank_not_in _ 35 B2 S35).
    pose proof (blank_not_in _ 35 B3 S35). pose proof (blank_not_in _ 35 B4 S35).
    intuition discriminate. }
  assert (Hhd : hd [] (split (p1 ++ key ++ p2 ++ [61] ++ p3 ++ val ++ p4
               ++ match comment with Some t => 35 :: t | None => [] end) [35])
                = p1 ++ key ++ p2 ++ [61] ++ p3 ++ val ++ p4).
  { rewrite <- (hd_split_clean 35 _ comment N35). now rewrite <- !app_assoc. }
  assert (N61 : ~ In 61 (key ++ p2)).
  { rewrite in_app_iff. pose proof (blank_not_in _ 61 B2 S61). tauto. }
  assert (Hlen : exists i, length (key ++ p2) = S i).
  { destruct key; [congruence|]. cbn. eauto. }
  destruct Hlen as [i Hi].
  assert (Hkey : trim (key ++ p2) = key).
  { apply (trim_pad [] key p2); [constructor | assumption | assumption]. }
  destruct Tk as [Tk1 Tk2].
  destruct val as [|v0 vr] eqn:Ev.
  - (* no value *)
    rewrite (parseLine_clean _ ((key ++ p2) ++ [61])).
    + rewrite indexOf_app, Hi by assumption. rewrite <- Hi.
      rewrite firstn_app, Nat.sub_diag, firstn_all. cbn [firstn]. rewrite app_nil_r, Hkey.
      rewrite skipn_all2 by (rewrite length_app; cbn; lia).
      reflexivity.
    + rewrite Hhd.
      replace (p1 ++ key ++ p2 ++ [61] ++ p3 ++ [] ++ p4)
        with (p1 ++ ((key ++ p2) ++ [61]) ++ (p3 ++ p4))
        by (cbn [app]; now rewrite <- !app_assoc).
      apply trim_pad; [assumption | now apply Forall_app |].
      rewrite <- app_assoc. apply tight_app; [assumption | now destruct p2 | assumption |].
      rewrite rev_app_distr. reflexivity.
    + destruct key; [congruence | discriminate].
  - rewrite <- Ev in *.
    rewrite (parseLine_clean _ ((key ++ p2) ++ 61 :: p3 ++ val)).
    + rewrite indexOf_app, Hi by assumption. rewrite <- Hi.
      rewrite firstn_app, Nat.sub_diag, firstn_all. cbn [firstn]. rewrite app_nil_r, Hkey.
      replace (length (key ++ p2) + 1)%nat with (length ((key ++ p2) ++ [61]))
        by (rewrite !length_app; cbn; lia).
      replace ((key ++ p2) ++ 61 :: p3 ++ val) with (((key ++ p2) ++ [61]) ++ p3 ++ val)
        by (now rewrite <- !app_assoc).
      rewrite skipn_app, skipn_all, Nat.sub_diag. cbn [app].
      change (skipn 0 (p3 ++ val)) with (p3 ++ val).
      replace (p3 ++ val) with (p3 ++ val ++ []) by now rewrite app_nil_r.
      rewrite trim_pad; [reflexivity | assumption | constructor | assumption].
    + rewrite Hhd.
      replace (p1 ++ key ++ p2 ++ [61] ++ p3 ++ val ++ p4)
        with (p1 ++ ((key ++ p2) ++ 61 :: p3 ++ val) ++ p4)
        by (cbn [app]; rewrite <- !app_assoc; cbn [app]; now rewrite <- !app_assoc).
      apply trim_pad; [assumption | assumption |].
      rewrite <- app_assoc. apply tight_app; [assumption | now destruct p2 | assumption |].
      replace (p2 ++ 61 :: p3 ++ val) with ((p2 ++ 61 :: p3) ++ val)
        by (now rewrite <- app_assoc).
      rewrite rev_app_distr. apply trimStart_tight_app; [|apply Tv].
      rewrite Ev. cbn. intros E. now apply app_eq_nil in E as [_ E].
    + destruct key; [congruence | discriminate].
Qed.

Lemma find_app_last {A : Type} (f : A -> bool) (l : list A) (x : A) :
  List.find f (l ++ [x])
  = match List.find f l with
    | Some y => Some y
    | None => if f x then Some x else None
    end.
Proof.
  induction l as [|a l IH]; [reflexivity|].
  cbn [app List.find]. now destruct (f a).
Qed.

(** X20. After .env.local is loaded, a variable has the value given by
    the last line that binds it, also when the environment already had
    it; a variable that no line binds is as it was. *)
Theorem loadEnv_lookup (envConfig : jsstring) (env : gmap jsstring jsstring)
    (k : jsstring) :
  loadEnv envConfig env !! k
  = match List.find (fun kv => bool_decide (kv.1 = k))
            (rev (omap parseLine (split envConfig [10]))) with
    | Some kv => Some kv.2
    | None => env !! k
    end.
Proof.
  unfold loadEnv. generalize (split envConfig [10]). intros lines.
  revert env. induction lines as [|line lines IH]; intros env; [reflexivity|].
  cbn [fold_left]. rewrite IH.
  change (omap parseLine (line :: lines))
    with (match parseLine line with
          | Some y => y :: omap parseLine lines
          | None => omap parseLine lines
          end).
  destruct (parseLine line) as [[key val]|] eqn:Hp; cbn [rev]; [|reflexivity].
  rewrite find_app_last.
  destruct (List.find _ (rev (omap parseLine lines))); [reflexivity|].
  cbn [fst snd].
  destruct (decide (key = k)) as [->|Hne].
  - rewrite bool_decide_eq_true_2 by reflexivity. apply lookup_insert_eq.
  - rewrite bool_decide_eq_false_2 by assumption. now apply lookup_insert_ne.
Qed.

End EnvFacts.

Section StringifyFacts.
Import Js Buf Wtf Stringify.

Lemma digitVal_hexDigit (d : N) : d < 16 -> digitVal (hexDigit d) = Some d.
Proof.
  intros H. unfold hexDigit, digitVal.
  destruct (N.ltb_spec d 10).
  - replace ((48 <=? 48 + d) && (48 + d <=? 57)) with true
      by (symmetry; apply andb_true_iff; split; apply N.leb_le; lia).
    f_equal. lia.
  - replace ((48 <=? 87 + d) && (87 + d <=? 57)) with false
      by (symmetry; apply andb_false_iff; right; apply N.leb_gt; lia).
    replace ((97 <=? 87 + d) && (87 + d <=? 102)) with true
      by (symmetry; apply andb_true_iff; split; apply N.leb_le; lia).
    f_equal. lia.
Qed.

Lemma hex4_digits (c : N) :
  c < 65536 ->
  Json.hex4 (hexDigit (c / 4096)) (hexDigit (c / 256 mod 16))
    (hexDigit (c / 16 mod 16)) (hexDigit (c mod 16)) = Some c.
Proof.
  intros H. unfold Json.hex4.
  assert (H1 : c / 4096 < 16) by (apply N.Div0.div_lt_upper_bound; lia).
  assert (H2 : c / 256 mod 16 < 16) by (apply N.mod_lt; lia).
  assert (H3 : c / 16 mod 16 < 16) by (apply N.mod_lt; lia).
  assert (H4 : c mod 16 < 16) by (apply N.mod_lt; lia).
  rewrite !digitVal_hexDigit by assumption. f_equal.
  pose proof (N.div_mod c 16 ltac:(lia)) as E1.
  pose proof (N.div_mod (c / 16) 16 ltac:(lia)) as E2.
  pose proof (N.div_mod (c / 256) 16 ltac:(lia)) as E3.
  rewrite N.Div0.div_div in E2. change (16 * 16) with 256 in E2.
  rewrite N.Div0.div_div in E3. change (256 * 16) with 4096 in E3.
  lia.
Qed.

Lemma shortEscape_escape (c e : N) :
  shortEscape c = Some e -> (e =? 117) = false /\ Json.escape e = Some c.
Proof.
  unfold shortEscape.
  repeat match goal with
         | |- context [N.eqb c ?k] => destruct (N.eqb_spec c k); [subst c|]
         end; intros H; inversion H; subst; now split.
Qed.

Lemma shortEscape_none (c : N) :
  shortEscape c = None -> c <> 34 /\ c <> 92.
Proof.
  unfold shortEscape.
  repeat match goal with
         | |- context [N.eqb c ?k] => destruct (N.eqb_spec c k); [subst c|]
         end; intros H; inversion H; now split.
Qed.

Lemma parseChars_plain (c : N) (acc s : jsstring) :
  c <> 34 -> c <> 92 -> 32 <= c ->
  Json.parseChars acc (c :: s) = Json.parseChars (c :: acc) s.
Proof.
  intros H1 H2 H3. cbn [Json.parseChars].
  destruct (N.eqb_spec c 34); [congruence|].
  destruct (N.eqb_spec c 92); [congruence|].
  destruct (N.ltb_spec c 32); [lia | reflexivity].
Qed.

Lemma parseChars_unicodeEscape (c : N) (acc s : jsstring) :
  c < 65536 ->
  Json.parseChars acc (unicodeEscape c ++ s) = Json.parseChars (c :: acc) s.
Proof.
  intros H. unfold unicodeEscape. cbn [app Json.parseChars].
  change (92 =? 34) with false. change (92 =? 92) with true.
  change (117 =? 117) with true. cbn match.
  now rewrite hex4_digits.
Qed.

Lemma parseChars_quoteBody_le (n : nat) (s acc rest : jsstring) :
  (length s <= n)%nat -> units s ->
  Json.parseChars acc (quoteBody s ++ 34 :: rest) = Some (rev acc ++ s, rest).
Proof.
  revert s acc. induction n as [|n IH]; intros s acc Hn Hu.
  { destruct s; [|cbn in Hn; lia]. cbn. now rewrite app_nil_r. }
  destruct s as [|c s].
  { cbn. now rewrite app_nil_r. }
  cbn [length] in Hn. inversion Hu as [|? ? Hc Hs]; subst.
  assert (Hstep : forall t, units t -> (length t <= n)%nat ->
            Json.parseChars (c :: acc) (quoteBody t ++ 34 :: rest)
            = Some (rev acc ++ c :: t, rest)).
  { intros t Ht Hl. rewrite IH by assumption. cbn [rev].
    now rewrite <- app_assoc. }
  cbn [quoteBody].
  destruct (shortEscape c) as [e|] eqn:He.
  { destruct (shortEscape_escape c e He) as [H117 Hesc].
    cbn [app Json.parseChars].
    change (92 =? 34) with false. change (92 =? 92) with true. cbn match.
    rewrite H117, Hesc. apply Hstep; [assumption | lia]. }
  destruct (shortEscape_none c He) as [H34 H92].
  destruct (N.ltb_spec c 32) as [Hlt|Hge].
  { rewrite <- app_assoc, parseChars_unicodeEscape by assumption.
    apply Hstep; [assumption | lia]. }
  destruct (isHigh c) eqn:Hh.
  { destruct s as [|v s'].
    - rewrite parseChars_unicodeEscape by assumption. reflexivity.
    - destruct (isLow v) eqn:Hl.
      + inversion Hs as [|? ? Hv Hs']; subst.
        cbn [app]. rewrite parseChars_plain by assumption.
        unfold isLow in Hl. apply andb_true_iff in Hl as [Hl1 Hl2].
        apply N.leb_le in Hl1.
        rewrite parseChars_plain by lia.
        rewrite IH by (assumption || (cbn [length] in Hn; lia)).
        cbn [rev]. now rewrite <- !app_assoc.
      + rewrite <- app_assoc, parseChars_unicodeEscape by assumption.
        apply Hstep; [assumption | lia]. }
  destruct (isLow c) eqn:Hl.
  { rewrite <- app_assoc, parseChars_unicodeEscape by assumption.
    apply Hstep; [assumption | lia]. }
  cbn [app]. rewrite parseChars_plain by assumption.
  apply Hstep; [assumption | lia].
Qed.

Lemma parseChars_quoteBody (s rest : jsstring) :
  units s ->
  Json.parseChars [] (quoteBody s ++ 34 :: rest) = Some (s, rest).
Proof. intros H. now apply (parseChars_quoteBody_le (length s)). Qed.


Lemma successArtifact_eq (v : jsstring) :
  successArtifact v
  = ltac:(let p := eval vm_compute in
            (lit "{" ++ quoted "status" ++ lit ":" ++ quoted "success" ++ lit ","
               ++ quoted "cookie" ++ lit ":" ++ [34])
          in exact p)
      ++ quoteBody v ++ [34; 125].
Proof.
  transitivity
    ((lit "{" ++ quoted "status" ++ lit ":" ++ quoted "success" ++ lit ","
        ++ quoted "cookie" ++ lit ":" ++ [34]) ++ (quoteBody v ++ [34]) ++ [125]).
  - reflexivity.
  - now rewrite <- (app_assoc (quoteBody v)).
Qed.

Lemma parseValue_successArtifact (fuel : nat) (v : jsstring) :
  units v ->
  Json.parseValue (S (S (S (S fuel)))) (successArtifact v)
  = Some (Json.Object [(lit "status", Json.String (lit "success"));
                       (lit "cookie", Json.String v)], []).
Proof.
  intros Hu. rewrite successArtifact_eq.
  cbn -[quoteBody Json.parseChars].
  cbn -[quoteBody].
  rewrite parseChars_quoteBody by assumption.
  reflexivity.
Qed.

Lemma parse_successArtifact (v : jsstring) :
  units v ->
  Json.parse (successArtifact v)
  = Some (Json.Object [(lit "status", Json.String (lit "success"));
                       (lit "cookie", Json.String v)]).
Proof.
  intros Hu. unfold Json.parse.
  assert (Hf : exists fuel, (2 * length (successArtifact v) + 2 = S (S (S (S fuel))))%nat).
  { assert (1 <= length (successArtifact v))%nat
      by (rewrite successArtifact_eq; cbn [length app]; lia).
    exists (2 * length (successArtifact v) - 2)%nat. lia. }
  destruct Hf as [fuel ->].
  now rewrite parseValue_successArtifact.
Qed.

Lemma wellFormed_plain (c : N) (t : jsstring) :
  c < 55296 -> wellFormed (c :: t) = wellFormed t.
Proof.
  intros H. cbn [wellFormed]. unfold isHigh, isLow.
  destruct (N.leb_spec 55296 c); [lia|].
  destruct (N.leb_spec 56320 c); [lia|].
  destruct (N.ltb_spec c 65536); [reflexivity | lia].
Qed.

Lemma hexDigit_small (d : N) : d < 16 -> hexDigit d < 55296.
Proof. intros H. unfold hexDigit. destruct (d <? 10); lia. Qed.

Lemma wellFormed_unicodeEscape (c : N) (t : jsstring) :
  c < 65536 -> wellFormed (unicodeEscape c ++ t) = wellFormed t.
Proof.
  intros H. unfold unicodeEscape. cbn [app].
  assert (H1 : c / 4096 < 16) by (apply N.Div0.div_lt_upper_bound; lia).
  assert (H2 : c / 256 mod 16 < 16) by (apply N.mod_lt; lia).
  assert (H3 : c / 16 mod 16 < 16) by (apply N.mod_lt; lia).
  assert (H4 : c mod 16 < 16) by (apply N.mod_lt; lia).
  rewrite !wellFormed_plain; (reflexivity || lia || now apply hexDigit_small).
Qed.

Lemma shortEscape_small (c e : N) : shortEscape c = Some e -> e < 55296.
Proof.
  unfold shortEscape.
  repeat match goal with
         | |- context [N.eqb c ?k] => destruct (N.eqb_spec c k)
         end; intros H; inversion H; lia.
Qed.

Lemma wellFormed_quoteBody_le (n : nat) (s t : jsstring) :
  (length s <= n)%nat -> units s ->
  wellFormed (quoteBody s ++ t) = wellFormed t.
Proof.
  revert s. induction n as [|n IH]; intros s Hn Hu.
  { destruct s; [reflexivity | cbn in Hn; lia]. }
  destruct s as [|c s]; [reflexivity|].
  cbn [length] in Hn. inversion Hu as [|? ? Hc Hs]; subst.
  cbn [quoteBody].
  destruct (shortEscape c) as [e|] eqn:He.
  { cbn [app]. rewrite !wellFormed_plain by (lia || now apply shortEscape_small with c).
    apply IH; [lia | assumption]. }
  destruct (N.ltb_spec c 32) as [Hlt|Hge].
  { rewrite <- app_assoc, wellFormed_unicodeEscape by assumption.
    apply IH; [lia | assumption]. }
  destruct (isHigh c) eqn:Hh.
  { destruct s as [|v s'].
    - now rewrite wellFormed_unicodeEscape.
    - destruct (isLow v) eqn:Hl.
      + inversion Hs as [|? ? Hv Hs']; subst.
        cbn [app wellFormed]. rewrite Hh, Hl. cbn [andb].
        apply IH; [cbn [length] in Hn; lia | assumption].
      + rewrite <- app_assoc, wellFormed_unicodeEscape by assumption.
        apply IH; [lia | assumption]. }
  destruct (isLow c) eqn:Hl.
  { rewrite <- app_assoc, wellFormed_unicodeEscape by assumption.
    apply IH; [lia | assumption]. }
  cbn [app wellFormed]. rewrite Hh, Hl. cbn [negb andb].
  destruct (N.ltb_spec c 65536); [|lia].
  apply IH; [lia | assumption].
Qed.

Lemma wellFormed_successArtifact (v : jsstring) :
  units v -> wellFormed (successArtifact v) = true.
Proof.
  intros Hu. rewrite successArtifact_eq.
  cbn [app]. rewrite !wellFormed_plain by lia.
  now rewrite (wellFormed_quoteBody_le (length v)).
Qed.

(** X21. The success artifact the login script writes survives the file:
    for every cookie value, the text JSON.stringify produces is well-
    formed, so writing it as UTF-8 and reading it back gives the same
    text, and JSON.parse reads from it the object with status 'success'
    and exactly that cookie value, quotation marks, reverse solidi,
    control characters and unpaired surrogates included. *)
Theorem successArtifact_roundtrip (v : jsstring) :
  units v ->
  toString (utf8Write (successArtifact v)) = successArtifact v
  /\ Json.parse (successArtifact v)
     = Some (Json.Object [(lit "status", Json.String (lit "success"));
                          (lit "cookie", Json.String v)]).
Proof.
  intros Hu. split.
  - apply toString_utf8Write. now apply wellFormed_successArtifact.
  - now apply parse_successArtifact.
Qed.

End StringifyFacts.

Section FlowFacts.
Import Js Buf Wtf Stringify Status.

Variables (key : buffer) (tmpdir : jsstring).




End FlowFacts.

Section FlowInvariant.
Import Js Buf Wtf Stringify Status Flow.

Variables (key : buffer) (tmpdir sid : jsstring) (startTime : N).
Variables (events : list event) (table : list Account).

Hypothesis Hsid : sid <> [].
Hypothesis Hunits :
  forall c k, In (Turn c) events -> Login.found c = Some k -> units (Login.value k).




End FlowInvariant.

Section FlowRuns.
Import Js Buf Wtf Stringify Status Flow.

Variables (key : buffer) (tmpdir sid : jsstring) (startTime : N).

Hypothesis Hsid : sid <> [].

Lemma run_app (evs evs' : list event) (s : state) :
  run key tmpdir sid startTime (evs ++ evs') s
  = run key tmpdir sid startTime evs' (run key tmpdir sid startTime evs s).
Proof. apply fold_left_app. Qed.



(** Without a script, nothing changes. *)
Lemma run_idle (evs : list event) (w : Status.world) :
  tmp w !! resultPath tmpdir sid = None ->
  run key tmpdir sid startTime evs
    {| exited := true; page := Client.waiting; world := w |}
  = {| exited := true; page := Client.waiting; world := w |}.
Proof.
  intros Hf. induction evs as [|e evs IH]; [reflexivity|].
  cbn [run fold_left]. fold (run key tmpdir sid startTime evs).
  destruct e as [c|rnd]; cbn [step exited page world]; [exact IH|].
  rewrite GET_absent by assumption. exact IH.
Qed.




(** A script that does not settle keeps running. *)
Lemma run_unsettled (evs : list event) (s : state) :
  exited s = false ->
  Forall (fun e => unsettled startTime e = true) evs ->
  exited (run key tmpdir sid startTime evs s) = false.
Proof.
  intros He H. revert s He.
  induction H as [|e evs Hu _ IH]; intros s He; [exact He|].
  cbn [run fold_left]. fold (run key tmpdir sid startTime evs).
  apply IH. destruct e as [c|rnd]; cbn [step].
  - rewrite He. cbn [unsettled] in Hu. apply andb_true_iff in Hu as [Hi Hn].
    unfold Login.inTime in Hi. unfold Login.turn. rewrite Hi.
    destruct (Login.cookies c) as [cs|]; [|exact eq_refl].
    destruct (List.find _ cs); [|exact eq_refl].
    cbn [exited]. now destruct (Login.settles c).
  - destruct (page s); try exact He.
    destruct (GET _ _ _ _ _). exact He.
Qed.

End FlowRuns.

Section FlowTheorems.
Import Js Buf Wtf Stringify Status Flow.

Variables (key : buffer) (tmpdir : jsstring).


Lemma connect_session (uuid : jsstring) (scriptExists : bool)
    (spawned : result jsstring (option N)) (launches : bool) (startTime : N)
    (events : list event) (w : Status.world) :
  uuid <> [] ->
  Connect.POST uuid scriptExists spawned = Connect.Session uuid ->
  connect key tmpdir uuid scriptExists spawned launches startTime events w
  = run key tmpdir uuid startTime events
      {| exited := negb launches; page := Client.waiting; world := w |}.
Proof.
  intros Hu HP. unfold connect. rewrite HP. cbn [Client.startConnect].
  rewrite (bool_decide_eq_false_2 _ Hu). now rewrite orb_false_r.
Qed.





(** X25. A login script whose wait or close after the detection throws
    each time is not ended by the detection: when a later turn finds
    the five minutes over, the script exits and leaves the timeout
    artifact, also when it has written the success artifact before and
    whether or not the page has consumed it. *)
Theorem connect_unsettled (uuid : jsstring) (scriptExists : bool)
    (spawned : result jsstring (option N)) (startTime : N)
    (mid : list event) (c : Login.check) (w : Status.world) :
  uuid <> [] ->
  Connect.POST uuid scriptExists spawned = Connect.Session uuid ->
  Forall (fun e => unsettled startTime e = true) mid ->
  Login.inTime startTime c = false ->
  let s := connect key tmpdir uuid scriptExists spawned true startTime
             (mid ++ [Turn c]) w in
  exited s = true
  /\ tmp (world s) !! resultPath tmpdir uuid = Some timeoutArtifact.
Proof.
  intros Hu HP Hm Ht s. subst s.
  rewrite connect_session by assumption. cbn [negb].
  rewrite run_app.
  pose proof (run_unsettled key tmpdir uuid startTime mid
                {| exited := false; page := Client.waiting; world := w |}
                eq_refl Hm) as He.
  destruct (run key tmpdir uuid startTime mid _) as [ex pg w1].
  cbn [exited] in He. subst ex.
  cbn [run fold_left step exited page world]. unfold Login.turn.
  unfold Login.inTime in Ht. rewrite Ht. cbn [exited world tmp].
  split; [reflexivity | apply lookup_insert_eq].
Qed.

(** X26. When the connect route has answered with a session id but the
    browser of the login script does not come up, the script writes no
    artifact and the page stays in the waiting status under every
    schedule of polls; nothing is stored. *)
Theorem connect_no_browser (uuid : jsstring) (scriptExists : bool)
    (spawned : result jsstring (option N)) (startTime : N)
    (events : list event) (w : Status.world) :
  uuid <> [] ->
  Connect.POST uuid scriptExists spawned = Connect.Session uuid ->
  tmp w !! resultPath tmpdir uuid = None ->
  connect key tmpdir uuid scriptExists spawned false startTime events w
  = {| exited := true; page := Client.waiting; world := w |}.
Proof.
  intros Hu HP Hf. rewrite connect_session by assumption. cbn [negb].
  now apply run_idle.
Qed.

End FlowTheorems.

Section LoginFacts.
Import Js Buf Stringify Status.

Variables (tmpdir sid : jsstring) (startTime : N).

Lemma turn_stops (c : Login.check) (files : gmap jsstring jsstring) :
  (Login.turn (resultPath tmpdir sid) startTime c files).1
  = Login.stops startTime c.
Proof.
  unfold Login.turn, Login.stops, Login.inTime, Login.found.
  destruct (Login.clock c - startTime <? Login.TIMEOUT); [|reflexivity].
  destruct (Login.cookies c) as [cs|]; [|reflexivity].
  now destruct (List.find _ cs).
Qed.

Lemma turn_artifact (c : Login.check) (files : gmap jsstring jsstring) :
  Login.stops startTime c = true ->
  (Login.turn (resultPath tmpdir sid) startTime c files).2
    !! resultPath tmpdir sid
  = Some (Login.artifactOf startTime c).
Proof.
  unfold Login.turn, Login.stops, Login.artifactOf, Login.inTime, Login.found.
  destruct (Login.clock c - startTime <? Login.TIMEOUT).
  - destruct (Login.cookies c) as [cs|]; [|discriminate].
    destruct (List.find _ cs); [|discriminate].
    intros _. apply lookup_insert_eq.
  - intros _. apply lookup_insert_eq.
Qed.

(** X27. The login script, once its browser is up, exits exactly when
    one of its turns is past the five minutes or sees the li_at cookie
    and then waits and closes without an exception; the artifact it
    leaves is the one of the first such turn: the success artifact with
    the value of the first li_at cookie, or the timeout artifact. *)
Theorem main_exit (checks : list Login.check) (files : gmap jsstring jsstring) :
  sid <> [] ->
  (Login.main tmpdir (Some sid) true startTime checks files).1
  = existsb (Login.stops startTime) checks
  /\ match List.find (Login.stops startTime) checks with
     | Some c =>
         (Login.main tmpdir (Some sid) true startTime checks files).2
           !! resultPath tmpdir sid
         = Some (Login.artifactOf startTime c)
     | None => True
     end.
Proof.
  intros Hsid. unfold Login.main. destruct sid as [|u sid'] eqn:Es; [congruence|].
  rewrite <- Es. clear Es.
  revert files. induction checks as [|c checks IH]; intros files; [now split|].
  cbn [Login.loop existsb List.find].
  pose proof (turn_stops c files) as H1. pose proof (turn_artifact c files) as H2.
  destruct (Login.turn (resultPath tmpdir sid) startTime c files) as [ex files'].
  cbn [fst snd] in H1, H2. subst ex.
  destruct (Login.stops startTime c).
  - split; [reflexivity | now apply H2].
  - apply IH.
Qed.

End LoginFacts.

(** ** The admin page *)

Section AdminFacts.
Import Js Admin.




End AdminFacts.

(** ** Worked cases *)

Section Cases.
Import Js Buf Sample Scenario.

Lemma dedup_counts_witness :
  (length (FetchPosts.dedup [itemA; itemA; itemB]).1
   + (FetchPosts.dedup [itemA; itemA; itemB]).2)%nat = 3%nat.
Proof.
  apply (dedup_counts [itemA; itemA; itemB]).
  repeat constructor; discriminate.
Defined.

Lemma fetchPosts_leaves_browser_open_witness :
  (FetchPosts.fetchPosts key0 (Some account0) stuck (Some stored)).2 = Some stored
  /\ ~ In FetchPosts.Close
         (FetchPosts.fetchPosts key0 (Some account0) stuck (Some stored)).1.
Proof.
  destruct (fetchPosts_leaves_browser_open key0 (Some account0) stuck (Some stored)
              (lit "Timeout 60000ms exceeded")) as (H1 & _ & H2).
  - vm_compute. right. right. left. reflexivity.
  - left. reflexivity.
  - split; [exact H1 | exact H2].
Defined.

Lemma enrichment_itemwise_witness :
  FetchAnalytics.written run6
  = Some (Each.enrichFrom pages 0 (firstn 5 six)).
Proof.
  apply (enrichment_itemwise key0 six account0 token0 pages);
    [discriminate | repeat constructor; discriminate | reflexivity | reflexivity].
Defined.

Lemma enrichment_aborts_without_urn_witness :
  FetchAnalytics.written
    (FetchAnalytics.fetchAnalytics key0 (Some [ref "p1"; blankRef; ref "p2"])
       (Some account0) pages) = None
  /\ FetchAnalytics.visited
       (FetchAnalytics.fetchAnalytics key0 (Some [ref "p1"; blankRef; ref "p2"])
          (Some account0) pages)
     = [FetchAnalytics.urlOf (ref "p1")].
Proof.
  destruct (enrichment_aborts_without_urn key0 [ref "p1"] blankRef [ref "p2"]
              account0 token0 pages) as (H1 & H2 & _);
    [cbn; lia | repeat constructor; discriminate | reflexivity | reflexivity
     | reflexivity | reflexivity |].
  split; [exact H1 | exact H2].
Defined.

Lemma enrichment_of_collection_witness :
  FetchAnalytics.visited
    (FetchAnalytics.fetchAnalytics key0
       (Some (List.map FetchAnalytics.ofPost
                (FetchPosts.allPosts [itemA; itemA; itemB])))
       (Some account0) pages)
  = [lit "https://www.linkedin.com/feed/update/A/";
     lit "https://www.linkedin.com/feed/update/B/"].
Proof.
  destruct (enrichment_of_collection key0 [itemA; itemA; itemB] account0 token0
              pages) as (_ & H & _);
    [discriminate | reflexivity | reflexivity |].
  exact H.
Defined.

Lemma saved_reports_no_skips_witness :
  exists l, FetchAnalytics.written run6 = Some l /\ length l = 1%nat.
Proof.
  destruct (saved_reports_no_skips key0 (Some six) (Some account0) pages 1 0)
    as [_ H]; [|exact H].
  vm_compute. repeat (first [left; reflexivity | right]).
Defined.

Lemma parseLine_binding_witness :
  lit "SUPABASE_URL" <> []
  /\ ~ In 35 (lit "https://x.supabase.co").
Proof.
  destruct (parseLine_binding envLine (lit "SUPABASE_URL")
              (lit "https://x.supabase.co")) as (H1 & _ & _ & _ & H2 & _);
    [vm_compute; reflexivity|].
  split; [exact H1 | exact H2].
Defined.

Lemma parseLine_written_witness :
  Env.parseLine envLine
  = Some (lit "SUPABASE_URL", Env.unquote (lit "'https://x.supabase.co'")).
Proof.
  apply (parseLine_written (lit "  ") (lit "SUPABASE_URL") (lit " ") (lit " ")
           (lit "'https://x.supabase.co'") (lit "  ") (Some (lit " remote")));
    try (repeat constructor; fail);
    try discriminate;
    try (vm_compute; intuition discriminate).
Defined.

Lemma successArtifact_roundtrip_witness :
  Json.parse (Stringify.successArtifact awkward)
  = Some (Json.Object [(lit "status", Json.String (lit "success"));
                       (lit "cookie", Json.String awkward)]).
Proof.
  apply (successArtifact_roundtrip awkward). repeat constructor.
Defined.

Lemma main_exit_witness :
  (Login.main tmpdir0 (Some sid0) true 0 [nothing 0; loggedIn 2000 true] ∅).1
  = existsb (Login.stops 0) [nothing 0; loggedIn 2000 true].
Proof.
  apply (main_exit tmpdir0 sid0 0 [nothing 0; loggedIn 2000 true] ∅).
  discriminate.
Defined.




Lemma connect_unsettled_witness :
  Status.tmp
    (Flow.world
       (Flow.connect key0 tmpdir0 sid0 true spawned true 0
          [Flow.Turn (loggedIn 2000 false); Flow.Poll rnd0;
           Flow.Turn (closed 4000); Flow.Turn (closed 300000)] empty))
    !! Status.resultPath tmpdir0 sid0
  = Some Stringify.timeoutArtifact.
Proof.
  apply (connect_unsettled key0 tmpdir0 sid0 true spawned 0
           [Flow.Turn (loggedIn 2000 false); Flow.Poll rnd0; Flow.Turn (closed 4000)]
           (closed 300000) empty);
    try reflexivity; try discriminate; repeat constructor.
Defined.

Lemma connect_no_browser_witness :
  Flow.page
    (Flow.connect key0 tmpdir0 sid0 true spawned false 0
       [Flow.Poll rnd0; Flow.Poll rnd1] empty)
  = Client.waiting.
Proof.
  rewrite (connect_no_browser key0 tmpdir0 sid0 true spawned 0
             [Flow.Poll rnd0; Flow.Poll rnd1] empty);
    try reflexivity; discriminate.
Defined.

End Cases.
